(** * go-jupyter: the wire codec and the client runtime

    A shallow embedding of the codec of package [jupyter] (Message.Encode,
    signMessage, Message.Decode, RawMessage.Decode, findIndex,
    validateSignature, unmarshalParts) and of its client (Execute,
    addIOChannel, request, sendRequest, recvReply, pollIO, maybeShouldListen,
    getIOChannel, deleteIOChannel, parseContent, createTarget).

    Conventions of the embedding.
    - A Go [[]byte] is an [option string]: [None] is the nil slice, [Some s]
      a non-nil slice holding the bytes of [s] (one [ascii] per byte).  The
      source tests [signKey == nil] and [parts[i] != nil], so nil and empty
      are kept apart.
    - A Go [[][]byte] that is indexed or re-sliced carries its capacity: the
      elements between length and capacity are part of the value, because a
      slice expression [s[lo:hi]] is checked against the capacity.
    - A call returns an [outcome]: a value, a returned [error], or a run-time
      panic.
    - The Go standard library ([encoding/hex], [crypto/sha256],
      [crypto/hmac], [encoding/json]) is modelled by executable definitions in
      the modules [Hex], [SHA256], [HMAC] and [JSON]. *)

From Stdlib Require Import ZArith String Ascii List Lia.
From Stdlib Require Import DecimalString DecimalFacts DecimalPos.
From stdpp Require Import gmap strings list.

Set Warnings "-register-all".

Open Scope string_scope.
Open Scope list_scope.

(** ** Byte strings *)

Definition bytes := string.

Definition byteZ (c : ascii) : Z := Z.of_N (N_of_ascii c).
Definition Zbyte (z : Z) : ascii := ascii_of_N (Z.to_N (Z.land z 255)).

Definition Zs_of_bytes (s : bytes) : list Z := map byteZ (list_ascii_of_string s).
Definition bytes_of_Zs (l : list Z) : bytes := string_of_list_ascii (map Zbyte l).

Fixpoint zeros (n : nat) : bytes :=
  match n with
  | O => EmptyString
  | S n' => String (Zbyte 0) (zeros n')
  end.

(** A Go byte slice: [None] is nil. *)
Definition slice := option bytes.

(** [string(b)] and [len(b)] of a possibly nil byte slice. *)
Definition slice_bytes (b : slice) : bytes := default EmptyString b.
Definition slice_len (b : slice) : nat := String.length (slice_bytes b).

(** ** encoding/hex *)

Module Hex.

Definition hextable : list ascii := list_ascii_of_string "0123456789abcdef".

Definition digit (n : Z) : ascii := nth (Z.to_nat n) hextable "0"%char.

(** [hex.Encode]: two lower-case digits per byte. *)
Fixpoint Encode (src : bytes) : bytes :=
  match src with
  | EmptyString => EmptyString
  | String c rest =>
      String (digit (Z.shiftr (byteZ c) 4))
        (String (digit (Z.land (byteZ c) 15)) (Encode rest))
  end.

Definition EncodedLen (n : nat) : nat := n * 2.
Definition DecodedLen (n : nat) : nat := n / 2.

(** [fromHexChar]: both cases of the letters are accepted. *)
Definition fromHexChar (c : ascii) : option Z :=
  let n := byteZ c in
  if (48 <=? n)%Z && (n <=? 57)%Z then Some (n - 48)%Z
  else if (97 <=? n)%Z && (n <=? 102)%Z then Some (n - 97 + 10)%Z
  else if (65 <=? n)%Z && (n <=? 70)%Z then Some (n - 65 + 10)%Z
  else None.

(** The bytes [hex.Decode] writes before it stops: it stops at the first
    character that is no hexadecimal digit, and never writes for a trailing
    odd character. *)
Fixpoint decodePairs (src : bytes) : bytes :=
  match src with
  | String p (String q rest) =>
      match fromHexChar p, fromHexChar q with
      | Some a, Some b => String (Zbyte (Z.lor (Z.shiftl a 4) b)) (decodePairs rest)
      | _, _ => EmptyString
      end
  | _ => EmptyString
  end.

(** [dst := make([]byte, hex.DecodedLen(len(src))); hex.Decode(dst, src)]
    with the error of [hex.Decode] dropped, as validateSignature does: the
    buffer after the call.  What [Decode] did not write stays zero. *)
Definition DecodeBuf (src : bytes) : bytes :=
  let w := decodePairs src in
  w +:+ zeros (DecodedLen (String.length src) - String.length w).

End Hex.

(** ** crypto/sha256 *)

Module SHA256.

Definition w32 (x : Z) : Z := Z.land x 0xffffffff.
Definition rotr (n x : Z) : Z := Z.lor (Z.shiftr x n) (w32 (Z.shiftl x (32 - n))).

Definition Ch (x y z : Z) : Z := Z.lxor (Z.land x y) (Z.land (Z.lnot x) z).
Definition Maj (x y z : Z) : Z :=
  Z.lxor (Z.lxor (Z.land x y) (Z.land x z)) (Z.land y z).
Definition Sig0 (x : Z) : Z := Z.lxor (Z.lxor (rotr 2 x) (rotr 13 x)) (rotr 22 x).
Definition Sig1 (x : Z) : Z := Z.lxor (Z.lxor (rotr 6 x) (rotr 11 x)) (rotr 25 x).
Definition sig0 (x : Z) : Z := Z.lxor (Z.lxor (rotr 7 x) (rotr 18 x)) (Z.shiftr x 3).
Definition sig1 (x : Z) : Z := Z.lxor (Z.lxor (rotr 17 x) (rotr 19 x)) (Z.shiftr x 10).

(** The constants are given as FIPS 180-4 defines them: the first 32 bits
    of the fractional parts of the cube roots (for [K]) and of the square
    roots (for [H0]) of the first primes. *)
Definition isPrime (n : nat) : bool :=
  forallb (fun d => negb (n mod d =? 0)%nat) (seq 2 (n - 2)).

Definition primes (bound : nat) : list Z :=
  map Z.of_nat (filter (fun n => isPrime n = true) (seq 2 bound)).

(** The integer cube root, bit by bit from [2 ^ bits] down. *)
Fixpoint cbrtFrom (bits : nat) (x r : Z) : Z :=
  match bits with
  | O => r
  | S b =>
      let r' := (r + 2 ^ Z.of_nat b)%Z in
      cbrtFrom b x (if (r' * r' * r' <=? x)%Z then r' else r)
  end.

Definition K : list Z :=
  Eval vm_compute in
    map (fun p => w32 (cbrtFrom 36 (p * 2 ^ 96) 0)) (primes 310).

Definition H0 : list Z :=
  Eval vm_compute in
    map (fun p => w32 (Z.sqrt (p * 2 ^ 64))) (primes 18).

(** Big-endian bytes of a word of [n] bytes. *)
Fixpoint be (n : nat) (x : Z) : list Z :=
  match n with
  | O => []
  | S n' => Z.land (Z.shiftr x (8 * Z.of_nat n')) 255 :: be n' x
  end.

(** The message followed by the bit 1, zeros and its length in bits, a
    multiple of 64 bytes long. *)
Definition pad (m : list Z) : list Z :=
  let l := Z.of_nat (length m) in
  m ++ [128%Z] ++ repeat 0%Z (Z.to_nat ((55 - l) mod 64)) ++ be 8 (8 * l).

Fixpoint words (n : nat) (l : list Z) : list Z :=
  match n, l with
  | S n', a :: b :: c :: d :: rest =>
      (Z.shiftl a 24 + Z.shiftl b 16 + Z.shiftl c 8 + d)%Z :: words n' rest
  | _, _ => []
  end.

(** The message schedule: [n] more words after those of [w]. *)
Fixpoint extend (n : nat) (w : list Z) : list Z :=
  match n with
  | O => w
  | S n' =>
      let t := length w in
      let g i := nth (t - i) w 0%Z in
      extend n' (w ++ [w32 (sig1 (g 2%nat) + g 7%nat + sig0 (g 15%nat) + g 16%nat)])
  end.

Definition round (s : list Z) (kw : Z * Z) : list Z :=
  match s with
  | [a; b; c; d; e; f; g; h] =>
      let t1 := (h + Sig1 e + Ch e f g + kw.1 + kw.2)%Z in
      let t2 := (Sig0 a + Maj a b c)%Z in
      [w32 (t1 + t2); a; b; c; w32 (d + t1); e; f; g]
  | _ => s
  end.

Definition compress (h : list Z) (block : list Z) : list Z :=
  let w := extend 48 (words 16 block) in
  zip_with (fun x y => w32 (x + y)) h (fold_left round (zip K w) h).

Fixpoint blocks (n : nat) (h : list Z) (m : list Z) : list Z :=
  match n with
  | O => h
  | S n' => blocks n' (compress h (take 64 m)) (drop 64 m)
  end.

Definition Sum256 (m : bytes) : bytes :=
  let p := pad (Zs_of_bytes m) in
  bytes_of_Zs (concat (map (be 4) (blocks (length p / 64) H0 p))).

Definition Size : nat := 32.
Definition BlockSize : nat := 64.

End SHA256.

(** ** crypto/hmac *)

Module HMAC.

(** [hmac.New(sha256.New, key)] followed by [Write]s: the key and what was
    written so far. *)
Record mac := New { key : bytes; written : bytes }.

Definition Write (m : mac) (p : slice) : mac :=
  {| key := key m; written := written m +:+ slice_bytes p |}.

Definition xorpad (k : bytes) (c : Z) : bytes :=
  bytes_of_Zs (map (fun x => Z.lxor x c) (Zs_of_bytes k)).

(** [mac.Sum(nil)] for SHA-256 (RFC 2104). *)
Definition Sum (m : mac) : bytes :=
  let k0 := if (SHA256.BlockSize <? String.length (key m))%nat then SHA256.Sum256 (key m) else key m in
  let k := k0 +:+ zeros (SHA256.BlockSize - String.length k0) in
  SHA256.Sum256 (xorpad k 0x5c +:+ SHA256.Sum256 (xorpad k 0x36 +:+ written m)).

(** [subtle.ConstantTimeCompare]: the or of the xors of the bytes, for
    operands of one length. *)
Fixpoint xorAcc (x y : bytes) (v : Z) : Z :=
  match x, y with
  | String a x', String b y' => xorAcc x' y' (Z.lor v (Z.lxor (byteZ a) (byteZ b)))
  | _, _ => v
  end.

(** [hmac.Equal]. *)
Definition Equal (x y : bytes) : bool :=
  if decide (String.length x = String.length y)
  then (xorAcc x y 0 =? 0)%Z
  else false.

End HMAC.

(** ** encoding/json

    The grammar of RFC 8259, the way [encoding/json] reads and writes it.
    What is left out: a number keeps its literal (float64 rounding and the
    formatting of floats are not modelled), strings are taken to be valid
    UTF-8, and the nesting limit of the decoder is absent. *)

Module JSON.

Inductive value :=
| Null
| Bool (b : bool)
| Number (lit : string)
| Str (s : string)
| Array (l : list value)
| Object (kv : list (string * value)).

Inductive error :=
| SyntaxError
| UnmarshalTypeError (goType : string)
| UnsupportedTypeError.

Inductive result (A : Type) :=
| OK (a : A)
| Error (e : error).
Arguments OK {A} a.
Arguments Error {A} e.

Definition bind {A B} (r : result A) (f : A -> result B) : result B :=
  match r with
  | OK a => f a
  | Error e => Error e
  end.

Definition dq : ascii := "034"%char.
Definition backslash : ascii := "092"%char.

Definition isSpace (c : ascii) : bool :=
  let n := byteZ c in
  (n =? 32)%Z || (n =? 9)%Z || (n =? 10)%Z || (n =? 13)%Z.

Definition isDigit (c : ascii) : bool :=
  let n := byteZ c in (48 <=? n)%Z && (n <=? 57)%Z.

Fixpoint skipSpace (s : string) : string :=
  match s with
  | String c r => if isSpace c then skipSpace r else s
  | EmptyString => s
  end.

(** The longest prefix of digits and what follows it. *)
Fixpoint spanDigits (s : string) : string * string :=
  match s with
  | String c r =>
      if isDigit c then let '(d, t) := spanDigits r in (String c d, t)
      else (EmptyString, s)
  | EmptyString => (EmptyString, s)
  end.

(** A number literal at the head of [s]: the literal and the rest. *)
Definition parseNumber (s : string) : option (string * string) :=
  let '(sign, s1) :=
    match s with
    | String "-" r => ("-", r)
    | _ => (EmptyString, s)
    end in
  let '(int, s2) := spanDigits s1 in
  match int with
  | EmptyString => None
  | String "0" (String _ _) => None
  | _ =>
    let frac :=
      match s2 with
      | String "." r =>
          let '(d, t) := spanDigits r in
          match d with
          | EmptyString => None
          | _ => Some ("." +:+ d, t)
          end
      | _ => Some (EmptyString, s2)
      end in
    match frac with
    | None => None
    | Some (fr, s3) =>
      let exp :=
        match s3 with
        | String e r =>
            if (Ascii.eqb e "e" || Ascii.eqb e "E")%bool then
              let '(sg, r1) :=
                match r with
                | String "+" r' => ("+", r')
                | String "-" r' => ("-", r')
                | _ => (EmptyString, r)
                end in
              let '(d, t) := spanDigits r1 in
              match d with
              | EmptyString => None
              | _ => Some (String e (sg +:+ d), t)
              end
            else Some (EmptyString, s3)
        | EmptyString => Some (EmptyString, s3)
        end in
      match exp with
      | None => None
      | Some (ex, s4) => Some (sign +:+ int +:+ fr +:+ ex, s4)
      end
    end
  end.

(** [utf8.EncodeRune]. *)
Definition utf8 (r : Z) : string :=
  bytes_of_Zs
    (if (r <? 0x80)%Z then [r]
     else if (r <? 0x800)%Z then
       [Z.lor 0xC0 (Z.shiftr r 6); Z.lor 0x80 (Z.land r 0x3F)]
     else if (r <? 0x10000)%Z then
       [Z.lor 0xE0 (Z.shiftr r 12); Z.lor 0x80 (Z.land (Z.shiftr r 6) 0x3F);
        Z.lor 0x80 (Z.land r 0x3F)]
     else
       [Z.lor 0xF0 (Z.shiftr r 18); Z.lor 0x80 (Z.land (Z.shiftr r 12) 0x3F);
        Z.lor 0x80 (Z.land (Z.shiftr r 6) 0x3F); Z.lor 0x80 (Z.land r 0x3F)]).

(** Four hexadecimal digits at the head of [s]. *)
Definition hex4 (s : string) : option (Z * string) :=
  match s with
  | String a (String b (String c (String d r))) =>
      match Hex.fromHexChar a, Hex.fromHexChar b, Hex.fromHexChar c, Hex.fromHexChar d with
      | Some x, Some y, Some z, Some w => Some ((4096 * x + 256 * y + 16 * z + w)%Z, r)
      | _, _, _, _ => None
      end
  | _ => None
  end.

(** [getu4]: the code unit of an escape [\uXXXX] at the head of [s]. *)
Definition getu4 (s : string) : option (Z * string) :=
  match s with
  | String b (String "u" r) => if Ascii.eqb b backslash then hex4 r else None
  | _ => None
  end.

Definition isSurrogate (r : Z) : bool := (0xD800 <=? r)%Z && (r <? 0xE000)%Z.

Definition simpleEscape (c : ascii) : option ascii :=
  if Ascii.eqb c dq then Some dq
  else if Ascii.eqb c backslash then Some backslash
  else if Ascii.eqb c "/" then Some "/"%char
  else if Ascii.eqb c "b" then Some "008"%char
  else if Ascii.eqb c "f" then Some "012"%char
  else if Ascii.eqb c "n" then Some "010"%char
  else if Ascii.eqb c "r" then Some "013"%char
  else if Ascii.eqb c "t" then Some "009"%char
  else None.

(** The characters of a string literal after its opening quote: the decoded
    string and what follows the closing quote. *)
Fixpoint parseString (fuel : nat) (s : string) : option (string * string) :=
  match fuel with
  | O => None
  | S f =>
    match s with
    | EmptyString => None
    | String c r =>
      if Ascii.eqb c dq then Some (EmptyString, r)
      else if Ascii.eqb c backslash then
        match r with
        | String "u" r1 =>
            match hex4 r1 with
            | None => None
            | Some (u, r2) =>
                let '(rune, r3) :=
                  if isSurrogate u then
                    match getu4 r2 with
                    | Some (u2, r2') =>
                        if ((u <? 0xDC00) && (0xDC00 <=? u2) && (u2 <? 0xE000))%Z
                        then ((0x10000 + Z.shiftl (u - 0xD800) 10 + (u2 - 0xDC00))%Z, r2')
                        else (0xFFFD%Z, r2)
                    | None => (0xFFFD%Z, r2)
                    end
                  else (u, r2) in
                match parseString f r3 with
                | Some (t, rest) => Some (utf8 rune +:+ t, rest)
                | None => None
                end
            end
        | String e r1 =>
            match simpleEscape e, parseString f r1 with
            | Some b, Some (t, rest) => Some (String b t, rest)
            | _, _ => None
            end
        | EmptyString => None
        end
      else if (byteZ c <? 32)%Z then None
      else
        match parseString f r with
        | Some (t, rest) => Some (String c t, rest)
        | None => None
        end
    end
  end.

Definition literal (lit : string) (v : value) (s : string) : option (value * string) :=
  if String.prefix lit s
  then Some (v, String.substring (String.length lit) (String.length s - String.length lit) s)
  else None.

(** A value at the head of [s] (after blanks), the elements of an array up
    to its bracket, the members of an object up to its brace. *)
Fixpoint parseValue (fuel : nat) (s : string) : option (value * string) :=
  match fuel with
  | O => None
  | S f =>
    match skipSpace s with
    | EmptyString => None
    | String c r as s' =>
      if Ascii.eqb c "{" then
        match skipSpace r with
        | String "}" r' => Some (Object [], r')
        | r' => parseMembers f r' []
        end
      else if Ascii.eqb c "[" then
        match skipSpace r with
        | String "]" r' => Some (Array [], r')
        | r' => parseElems f r' []
        end
      else if Ascii.eqb c dq then
        match parseString (S (String.length r)) r with
        | Some (t, rest) => Some (Str t, rest)
        | None => None
        end
      else if Ascii.eqb c "t" then literal "true" (Bool true) s'
      else if Ascii.eqb c "f" then literal "false" (Bool false) s'
      else if Ascii.eqb c "n" then literal "null" Null s'
      else
        match parseNumber s' with
        | Some (lit, rest) => Some (Number lit, rest)
        | None => None
        end
    end
  end
with parseElems (fuel : nat) (s : string) (acc : list value) : option (value * string) :=
  match fuel with
  | O => None
  | S f =>
    match parseValue f s with
    | None => None
    | Some (v, rest) =>
      match skipSpace rest with
      | String "," r => parseElems f r (v :: acc)
      | String "]" r => Some (Array (rev (v :: acc)), r)
      | _ => None
      end
    end
  end
with parseMembers (fuel : nat) (s : string) (acc : list (string * value)) : option (value * string) :=
  match fuel with
  | O => None
  | S f =>
    match skipSpace s with
    | String c r =>
      if Ascii.eqb c dq then
        match parseString (S (String.length r)) r with
        | None => None
        | Some (k, rest) =>
          match skipSpace rest with
          | String ":" r1 =>
            match parseValue f r1 with
            | None => None
            | Some (v, rest1) =>
              match skipSpace rest1 with
              | String "," r2 => parseMembers f r2 ((k, v) :: acc)
              | String "}" r2 => Some (Object (rev ((k, v) :: acc)), r2)
              | _ => None
              end
            end
          | _ => None
          end
        end
      else None
    | EmptyString => None
    end
  end.

(** The syntax tree of a whole document ([checkValid] and the scan). *)
Definition parse (data : bytes) : result value :=
  match parseValue (2 * String.length data + 2) data with
  | Some (v, rest) =>
      match skipSpace rest with
      | EmptyString => OK v
      | _ => Error SyntaxError
      end
  | None => Error SyntaxError
  end.

(** *** Writing

    [encodeState.string] with HTML escaping on, as [json.Marshal] has it:
    the quote and the backslash are escaped by a backslash, line feed,
    carriage return and tab by their letter, other control characters and
    the characters <, > and & as [\u00XX], U+2028 and U+2029 as [\u202X]. *)

Definition u00 (c : ascii) : string :=
  String backslash
    ("u00" +:+ String (Hex.digit (Z.shiftr (byteZ c) 4))
                 (String (Hex.digit (Z.land (byteZ c) 15)) EmptyString)).

Fixpoint escape (s : string) : string :=
  match s with
  | EmptyString => EmptyString
  | String c r =>
      let n := byteZ c in
      if (Ascii.eqb c dq || Ascii.eqb c backslash)%bool then
        String backslash (String c (escape r))
      else if (n =? 10)%Z then String backslash (String "n" (escape r))
      else if (n =? 13)%Z then String backslash (String "r" (escape r))
      else if (n =? 9)%Z then String backslash (String "t" (escape r))
      else if ((n <? 32)%Z || Ascii.eqb c "<" || Ascii.eqb c ">" || Ascii.eqb c "&")%bool then
        u00 c +:+ escape r
      else
        match r with
        | String a (String b r') =>
            if ((n =? 0xE2) && (byteZ a =? 0x80) && ((byteZ b =? 0xA8) || (byteZ b =? 0xA9)))%Z
            then String backslash ("u202" +:+ String (Hex.digit (Z.land (byteZ b) 15)) (escape r'))
            else String c (escape r)
        | _ => String c (escape r)
        end
  end.

Definition quote (s : string) : string :=
  String dq (escape s +:+ String dq EmptyString).

Fixpoint join (l : list string) : string :=
  match l with
  | [] => EmptyString
  | [x] => x
  | x :: r => x +:+ "," +:+ join r
  end.

(** The compact text of a value; the members of an object in the order of
    the list. *)
Fixpoint print (v : value) : string :=
  match v with
  | Null => "null"
  | Bool true => "true"
  | Bool false => "false"
  | Number lit => lit
  | Str s => quote s
  | Array l => "[" +:+ join (map print l) +:+ "]"
  | Object kv => "{" +:+ join (map (fun p => quote p.1 +:+ ":" +:+ print p.2) kv) +:+ "}"
  end.

(** *** Go values

    A Go [map[string]T] is [None] when nil and else its entries by
    increasing key, each key once: the order [json.Marshal] writes them in.
    An [interface{}] that holds decoded JSON is a [value] whose objects are
    such maps. *)

Definition gomap (T : Type) := option (list (string * T)).

Fixpoint insertKey {T} (k : string) (v : T) (l : list (string * T)) : list (string * T) :=
  match l with
  | [] => [(k, v)]
  | (k', v') :: r =>
      match String.compare k k' with
      | Lt => (k, v) :: l
      | Eq => (k, v) :: r
      | Gt => (k', v') :: insertKey k v r
      end
  end.

Fixpoint lookupKey {T} (k : string) (l : list (string * T)) : option T :=
  match l with
  | [] => None
  | (k', v) :: r => if String.eqb k k' then Some v else lookupKey k r
  end.

(** The value an [interface{}] receives from a syntax tree: an object
    becomes a map (of a key written twice the last one stays). *)
Fixpoint generic (v : value) : value :=
  match v with
  | Array l => Array (map generic l)
  | Object kv => Object (fold_left (fun acc p => insertKey p.1 (generic p.2) acc) kv [])
  | _ => v
  end.

(** *** Reading into typed fields

    Each function is the decoder of one Go type: from the syntax tree of the
    value and the previous content of the field to its new content.  A
    [null] leaves a string, a number, a boolean or a struct as it was and
    sets a map, a slice or an interface to nil.  The decoder of
    [encoding/json] goes on after a type mismatch and reports the first one
    in the end; here the first mismatch is returned at once, and the
    partly filled value with it is dropped. *)

Definition decString (v : value) (old : string) : result string :=
  match v with
  | Str s => OK s
  | Null => OK old
  | _ => Error (UnmarshalTypeError "string")
  end.

Definition decBool (v : value) (old : bool) : result bool :=
  match v with
  | Bool b => OK b
  | Null => OK old
  | _ => Error (UnmarshalTypeError "bool")
  end.

Fixpoint digitsZ (s : string) (acc : Z) : option Z :=
  match s with
  | EmptyString => Some acc
  | String c r => if isDigit c then digitsZ r (10 * acc + (byteZ c - 48))%Z else None
  end.

(** [strconv.ParseInt(lit, 10, 64)] on a number literal. *)
Definition intOfLit (lit : string) : option Z :=
  let r :=
    match lit with
    | String "-" d => option_map Z.opp (digitsZ d 0%Z)
    | _ => digitsZ lit 0%Z
    end in
  match r with
  | Some z => if ((- 2 ^ 63 <=? z) && (z <? 2 ^ 63))%Z then Some z else None
  | None => None
  end.

Definition decInt (v : value) (old : Z) : result Z :=
  match v with
  | Number lit =>
      match intOfLit lit with
      | Some z => OK z
      | None => Error (UnmarshalTypeError "int")
      end
  | Null => OK old
  | _ => Error (UnmarshalTypeError "int")
  end.

Definition decAny (v : value) (old : value) : result value := OK (generic v).

(** A map: a nil map is made first, the entries that were there stay, and
    each member is decoded into a fresh element. *)
Definition decMap {T} (elem : value -> T -> result T) (zero : T) (goType : string)
    (v : value) (old : gomap T) : result (gomap T) :=
  match v with
  | Null => OK None
  | Object kv =>
      bind
        (fold_left
           (fun acc p =>
              bind acc (fun m => bind (elem p.2 zero) (fun x => OK (insertKey p.1 x m))))
           kv (OK (default [] old)))
        (fun m => OK (Some m))
  | _ => Error (UnmarshalTypeError goType)
  end.

(** A slice: the elements are decoded in order.  The old elements are not
    looked at: every slice the source decodes into is nil before. *)
Definition decSlice {T} (elem : value -> T -> result T) (zero : T) (goType : string)
    (v : value) (old : option (list T)) : result (option (list T)) :=
  match v with
  | Null => OK None
  | Array l =>
      bind
        (fold_right
           (fun x acc => bind (elem x zero) (fun y => bind acc (fun t => OK (y :: t))))
           (OK []) l)
        (fun t => OK (Some t))
  | _ => Error (UnmarshalTypeError goType)
  end.

Definition lower (c : ascii) : ascii :=
  let n := byteZ c in
  if ((65 <=? n) && (n <=? 90))%Z then Zbyte (n + 32) else c.

Fixpoint equalFold (a b : string) : bool :=
  match a, b with
  | EmptyString, EmptyString => true
  | String x a', String y b' => Ascii.eqb (lower x) (lower y) && equalFold a' b'
  | _, _ => false
  end.

Fixpoint findBy (f : string -> bool) (names : list string) (i : nat) : option nat :=
  match names with
  | [] => None
  | n :: r => if f n then Some i else findBy f r (S i)
  end.

(** The field a key names: the field of that very name, else the first
    whose name differs by the case of its (ASCII) letters only. *)
Definition fieldIndex (names : list string) (k : string) : option nat :=
  match findBy (String.eqb k) names O with
  | Some i => Some i
  | None => findBy (equalFold k) names O
  end.

(** A struct with the fields [names]: [set i v s] decodes [v] into the
    field of index [i] of [s].  Keys that name no field are skipped. *)
Definition decStruct {T} (names : list string) (set : nat -> value -> T -> result T)
    (goType : string) (v : value) (old : T) : result T :=
  match v with
  | Null => OK old
  | Object kv =>
      fold_left
        (fun acc p =>
           bind acc (fun s =>
             match fieldIndex names p.1 with
             | Some i => set i p.2 s
             | None => OK s
             end))
        kv (OK old)
  | _ => Error (UnmarshalTypeError goType)
  end.

(** [json.Unmarshal(data, &x)] for a target with the decoder [dec]: the whole
    text is checked first. *)
Definition Unmarshal {T} (dec : value -> T -> result T) (data : bytes) (old : T) : result T :=
  bind (parse data) (fun v => dec v old).

Fixpoint dropRightSpace (s : string) : string :=
  match s with
  | EmptyString => EmptyString
  | String c r =>
      match dropRightSpace r with
      | EmptyString => if isSpace c then EmptyString else String c EmptyString
      | r' => String c r'
      end
  end.

(** [json.Unmarshal(data, &raw)] for a [json.RawMessage]: the text of the
    value, without the blanks around it. *)
Definition UnmarshalRaw (data : bytes) : result slice :=
  bind (parse data) (fun _ => OK (Some (dropRightSpace (skipSpace data)))).

End JSON.

(** ** Errors, panics and outcomes *)

Inductive panic :=
| IndexOutOfRange            (* parts[i] with i >= len(parts) *)
| SliceBoundsOutOfRange      (* parts[lo:hi] with hi > cap(parts) *)
| SendOnClosedChannel
| CloseOfClosedChannel.

Inductive error :=
| ErrInvalidSignature                               (* the package variable ErrInvalidSignature *)
| ErrTargetNotFound                                 (* findIndex: Target not found in parts *)
| ErrJSON (e : JSON.error)                          (* an error of encoding/json *)
| ErrUnknownMessageType (msgType : string)          (* createTarget: Unknown message type *)
| ErrEncodingMessage (e : error)                    (* sendRequest: Error encoding message *)
| ErrSendingShell (e : string)                      (* sendRequest: Error sending shell message *)
| ErrTransport (e : string)                         (* an error of a zmq4 socket *)
| ErrDecodingMessage (e : error)                    (* pollIO: Error decoding a message *)
| ErrDecodingContent (e : error) (msgType : string) (* pollIO: Error decoding a content *)
| ErrDropped (msgType : string).                    (* pollIO: Message dropped on empty channel *)

Inductive outcome (A : Type) :=
| Ok (a : A)
| Err (e : error)
| Panic (p : panic).
Arguments Ok {A} a.
Arguments Err {A} e.
Arguments Panic {A} p.

#[global] Instance outcome_ret : MRet outcome := fun A a => Ok a.
#[global] Instance outcome_bind : MBind outcome := fun A B f o =>
  match o with
  | Ok a => f a
  | Err e => Err e
  | Panic p => Panic p
  end.

(** The error of [encoding/json] as the error a function returns. *)
Definition ofJSON {A} (r : JSON.result A) : outcome A :=
  match r with
  | JSON.OK a => Ok a
  | JSON.Error e => Err (ErrJSON e)
  end.

(** ** Frame sequences: [[][]byte] with its capacity *)

Record frames := Frames {
  elems : list slice;    (* parts[0], ..., parts[len-1] *)
  spare : list slice     (* the backing array from len to cap *)
}.

Definition len (p : frames) : nat := length (elems p).
Definition cap (p : frames) : nat := length (elems p) + length (spare p).

(** [parts[i]]: checked against the length. *)
Definition at_ (p : frames) (i : nat) : outcome slice :=
  match elems p !! i with
  | Some f => Ok f
  | None => Panic IndexOutOfRange
  end.

(** [parts[lo:hi]]: checked against the capacity. *)
Definition reslice (p : frames) (lo hi : nat) : outcome frames :=
  if decide (lo <= hi <= cap p) then
    let backing := elems p ++ spare p in
    Ok (Frames (take (hi - lo) (drop lo backing)) (drop hi backing))
  else Panic SliceBoundsOutOfRange.

(** A sequence whose capacity is its length. *)
Definition exact (l : list slice) : frames := Frames l [].

(** ** The codec: the data model *)

Definition Version : string := "5.3".

Module Header.
Record t := {
  MsgID : string;
  Username : string;
  Session : string;
  Date : string;
  MsgType : string;
  Version : string
}.

Definition zero : t :=
  {| MsgID := EmptyString; Username := EmptyString; Session := EmptyString;
     Date := EmptyString; MsgType := EmptyString; Version := EmptyString |}.

(** The struct tags, in the order of the fields. *)
Definition names : list string :=
  ["msg_id"; "username"; "session"; "date"; "msg_type"; "version"].

Definition set (i : nat) (v : JSON.value) (h : t) : JSON.result t :=
  match i with
  | 0 => JSON.bind (JSON.decString v (MsgID h)) (fun s =>
           JSON.OK {| MsgID := s; Username := Username h; Session := Session h;
                      Date := Date h; MsgType := MsgType h; Version := Version h |})
  | 1 => JSON.bind (JSON.decString v (Username h)) (fun s =>
           JSON.OK {| MsgID := MsgID h; Username := s; Session := Session h;
                      Date := Date h; MsgType := MsgType h; Version := Version h |})
  | 2 => JSON.bind (JSON.decString v (Session h)) (fun s =>
           JSON.OK {| MsgID := MsgID h; Username := Username h; Session := s;
                      Date := Date h; MsgType := MsgType h; Version := Version h |})
  | 3 => JSON.bind (JSON.decString v (Date h)) (fun s =>
           JSON.OK {| MsgID := MsgID h; Username := Username h; Session := Session h;
                      Date := s; MsgType := MsgType h; Version := Version h |})
  | 4 => JSON.bind (JSON.decString v (MsgType h)) (fun s =>
           JSON.OK {| MsgID := MsgID h; Username := Username h; Session := Session h;
                      Date := Date h; MsgType := s; Version := Version h |})
  | 5 => JSON.bind (JSON.decString v (Version h)) (fun s =>
           JSON.OK {| MsgID := MsgID h; Username := Username h; Session := Session h;
                      Date := Date h; MsgType := MsgType h; Version := s |})
  | _ => JSON.OK h
  end.

Definition dec : JSON.value -> t -> JSON.result t :=
  JSON.decStruct names set "Header".

Definition value (h : t) : JSON.value :=
  JSON.Object
    [("msg_id", JSON.Str (MsgID h)); ("username", JSON.Str (Username h));
     ("session", JSON.Str (Session h)); ("date", JSON.Str (Date h));
     ("msg_type", JSON.Str (MsgType h)); ("version", JSON.Str (Version h))].
End Header.

(** [map[string]interface{}]. *)
Definition anymap := JSON.gomap JSON.value.

Definition anymap_dec : JSON.value -> anymap -> JSON.result anymap :=
  JSON.decMap JSON.decAny JSON.Null "map[string]interface {}".

Definition anymap_value (m : anymap) : JSON.value :=
  match m with
  | None => JSON.Null
  | Some kv => JSON.Object kv
  end.

(** *** The contents the client sends and reads *)

Definition RequestExecute : string := "execute_request".
Definition RequestInspect : string := "inspect_request".
Definition RequestHistory : string := "history_request".

Module ExecutionRequest.
Record t := {
  Code : string;
  Silent : bool;
  StoreHistory : bool;
  UserExpressions : JSON.gomap string;
  AllowStdin : bool;
  StopOnError : bool
}.

Definition names : list string :=
  ["code"; "silent"; "store_history"; "user_expressions"; "allow_stdin"; "stop_on_error"].

Definition set (i : nat) (v : JSON.value) (r : t) : JSON.result t :=
  match i with
  | 0 => JSON.bind (JSON.decString v (Code r)) (fun x =>
           JSON.OK {| Code := x; Silent := Silent r; StoreHistory := StoreHistory r;
                      UserExpressions := UserExpressions r; AllowStdin := AllowStdin r;
                      StopOnError := StopOnError r |})
  | 1 => JSON.bind (JSON.decBool v (Silent r)) (fun x =>
           JSON.OK {| Code := Code r; Silent := x; StoreHistory := StoreHistory r;
                      UserExpressions := UserExpressions r; AllowStdin := AllowStdin r;
                      StopOnError := StopOnError r |})
  | 2 => JSON.bind (JSON.decBool v (StoreHistory r)) (fun x =>
           JSON.OK {| Code := Code r; Silent := Silent r; StoreHistory := x;
                      UserExpressions := UserExpressions r; AllowStdin := AllowStdin r;
                      StopOnError := StopOnError r |})
  | 3 => JSON.bind
           (JSON.decMap JSON.decString EmptyString "map[string]string" v (UserExpressions r))
           (fun x =>
           JSON.OK {| Code := Code r; Silent := Silent r; StoreHistory := StoreHistory r;
                      UserExpressions := x; AllowStdin := AllowStdin r;
                      StopOnError := StopOnError r |})
  | 4 => JSON.bind (JSON.decBool v (AllowStdin r)) (fun x =>
           JSON.OK {| Code := Code r; Silent := Silent r; StoreHistory := StoreHistory r;
                      UserExpressions := UserExpressions r; AllowStdin := x;
                      StopOnError := StopOnError r |})
  | 5 => JSON.bind (JSON.decBool v (StopOnError r)) (fun x =>
           JSON.OK {| Code := Code r; Silent := Silent r; StoreHistory := StoreHistory r;
                      UserExpressions := UserExpressions r; AllowStdin := AllowStdin r;
                      StopOnError := x |})
  | _ => JSON.OK r
  end.

Definition dec : JSON.value -> t -> JSON.result t :=
  JSON.decStruct names set "ExecutionRequest".

Definition value (r : t) : JSON.value :=
  JSON.Object
    [("code", JSON.Str (Code r)); ("silent", JSON.Bool (Silent r));
     ("store_history", JSON.Bool (StoreHistory r));
     ("user_expressions",
      match UserExpressions r with
      | None => JSON.Null
      | Some kv => JSON.Object (map (fun p => (p.1, JSON.Str p.2)) kv)
      end);
     ("allow_stdin", JSON.Bool (AllowStdin r));
     ("stop_on_error", JSON.Bool (StopOnError r))].
End ExecutionRequest.

Module DisplayData.
Record t := { Data : anymap; Metadata : anymap; Transient : anymap }.

Definition zero : t := {| Data := None; Metadata := None; Transient := None |}.

Definition names : list string := ["data"; "metadata"; "transient"].

Definition set (i : nat) (v : JSON.value) (r : t) : JSON.result t :=
  match i with
  | 0 => JSON.bind (anymap_dec v (Data r)) (fun x =>
           JSON.OK {| Data := x; Metadata := Metadata r; Transient := Transient r |})
  | 1 => JSON.bind (anymap_dec v (Metadata r)) (fun x =>
           JSON.OK {| Data := Data r; Metadata := x; Transient := Transient r |})
  | 2 => JSON.bind (anymap_dec v (Transient r)) (fun x =>
           JSON.OK {| Data := Data r; Metadata := Metadata r; Transient := x |})
  | _ => JSON.OK r
  end.

Definition dec : JSON.value -> t -> JSON.result t :=
  JSON.decStruct names set "DisplayData".

Definition value (r : t) : JSON.value :=
  JSON.Object
    [("data", anymap_value (Data r)); ("metadata", anymap_value (Metadata r));
     ("transient", anymap_value (Transient r))].
End DisplayData.

Definition printZ (z : Z) : string := NilZero.string_of_int (Z.to_int z).

Module ExecutionResult.
Record t := {
  Status : string;
  ExecutionCount : Z;
  Payload : option (list anymap);
  UserExpressions : JSON.gomap DisplayData.t
}.

Definition zero : t :=
  {| Status := EmptyString; ExecutionCount := 0; Payload := None; UserExpressions := None |}.

Definition names : list string :=
  ["status"; "execution_count"; "payload"; "user_expressions"].

Definition set (i : nat) (v : JSON.value) (r : t) : JSON.result t :=
  match i with
  | 0 => JSON.bind (JSON.decString v (Status r)) (fun x =>
           JSON.OK {| Status := x; ExecutionCount := ExecutionCount r;
                      Payload := Payload r; UserExpressions := UserExpressions r |})
  | 1 => JSON.bind (JSON.decInt v (ExecutionCount r)) (fun x =>
           JSON.OK {| Status := Status r; ExecutionCount := x;
                      Payload := Payload r; UserExpressions := UserExpressions r |})
  | 2 => JSON.bind
           (JSON.decSlice anymap_dec None "[]map[string]interface {}" v (Payload r))
           (fun x =>
           JSON.OK {| Status := Status r; ExecutionCount := ExecutionCount r;
                      Payload := x; UserExpressions := UserExpressions r |})
  | 3 => JSON.bind
           (JSON.decMap DisplayData.dec DisplayData.zero "map[string]DisplayData" v
              (UserExpressions r))
           (fun x =>
           JSON.OK {| Status := Status r; ExecutionCount := ExecutionCount r;
                      Payload := Payload r; UserExpressions := x |})
  | _ => JSON.OK r
  end.

Definition dec : JSON.value -> t -> JSON.result t :=
  JSON.decStruct names set "ExecutionResult".

(** The two last fields are tagged [omitempty]. *)
Definition value (r : t) : JSON.value :=
  JSON.Object
    ([("status", JSON.Str (Status r));
      ("execution_count", JSON.Number (printZ (ExecutionCount r)))]
     ++ match Payload r with
        | Some (x :: l) => [("payload", JSON.Array (map anymap_value (x :: l)))]
        | _ => []
        end
     ++ match UserExpressions r with
        | Some (x :: l) =>
            [("user_expressions",
              JSON.Object (map (fun p => (p.1, DisplayData.value p.2)) (x :: l)))]
        | _ => []
        end).
End ExecutionResult.

(** What an [interface{}] field [Content] holds in this package. *)
Inductive any :=
| CNil                                               (* the nil interface *)
| CValue (v : JSON.value)                            (* data as the generic decoder builds it *)
| CExecutionRequest (r : option ExecutionRequest.t)  (* a *ExecutionRequest, nil or not *)
| CExecutionResult (r : ExecutionResult.t)           (* the pointer recvReply is given *)
| CUnsupported.                                      (* a value json.Marshal refuses: a channel, a func *)

(** [v != nil] and [json.Marshal(v)] for the content: [None] is [v == nil]. *)
Definition any_marshal (c : any) : option (JSON.result bytes) :=
  match c with
  | CNil => None
  | CValue v => Some (JSON.OK (JSON.print v))
  | CExecutionRequest None => Some (JSON.OK "null")
  | CExecutionRequest (Some r) => Some (JSON.OK (JSON.print (ExecutionRequest.value r)))
  | CExecutionResult r => Some (JSON.OK (JSON.print (ExecutionResult.value r)))
  | CUnsupported => Some (JSON.Error JSON.UnsupportedTypeError)
  end.

(** [json.Unmarshal(data, &c)] for a [c] of type [interface{}]: a non-nil
    pointer in the interface is followed and its struct is filled, unless
    the text is [null], which sets the interface to nil; anything else in
    the interface is replaced by the generic value. *)
Definition any_dec (v : JSON.value) (c : any) : JSON.result any :=
  match v with
  | JSON.Null => JSON.OK CNil
  | _ =>
      match c with
      | CExecutionRequest (Some r) =>
          JSON.bind (ExecutionRequest.dec v r) (fun r' => JSON.OK (CExecutionRequest (Some r')))
      | CExecutionResult r =>
          JSON.bind (ExecutionResult.dec v r) (fun r' => JSON.OK (CExecutionResult r'))
      | _ => JSON.OK (CValue (JSON.generic v))
      end
  end.

(** ** The codec: Encode and Decode *)

Definition delimiter : string := "<IDS|MSG>".

(** [signMessage(parts, signKey, &signature)]: the new value of
    [*signature], a buffer of [hex.EncodedLen(mac.Size())] bytes that
    [hex.Encode] fills.  The error it returns is always nil. *)
Definition signMessage (parts : list slice) (signKey : bytes) : slice :=
  let mac := fold_left HMAC.Write parts (HMAC.New signKey EmptyString) in
  Some (Hex.Encode (HMAC.Sum mac)).

Fixpoint findIndexFrom (i : nat) (parts : list slice) (target : string) : outcome nat :=
  match parts with
  | [] => Err ErrTargetNotFound
  | part :: rest =>
      if String.eqb (slice_bytes part) target then Ok i
      else findIndexFrom (S i) rest target
  end.

Definition findIndex (parts : frames) (target : string) : outcome nat :=
  findIndexFrom 0 (elems parts) target.

Definition validateSignature (parts : frames) (index : nat) (signKey : slice) : outcome unit :=
  match signKey with
  | None => Ok tt
  | Some k =>
      sub ← reslice parts (index + 2) (index + 6);
      let mac := fold_left HMAC.Write (elems sub) (HMAC.New k EmptyString) in
      sig ← at_ parts (index + 1);
      let signature := Hex.DecodeBuf (slice_bytes sig) in
      if HMAC.Equal (HMAC.Sum mac) signature then Ok tt else Err ErrInvalidSignature
  end.

(** One of the pointers handed to [unmarshalParts]: [json.Unmarshal(data, v)]
    as a change of the struct [v] points into. *)
Definition target (T : Type) := bytes -> T -> JSON.result T.

(** The loop of [unmarshalParts], from [values[j]] on. *)
Fixpoint unmarshalPartsFrom {T} (parts : frames) (startIndex j : nat)
    (values : list (target T)) (s : T) : outcome T :=
  match values with
  | [] => Ok s
  | v :: rest =>
      part ← at_ parts (startIndex + j);
      match part with
      | Some data =>
          s' ← ofJSON (v data s);
          unmarshalPartsFrom parts startIndex (S j) rest s'
      | None => unmarshalPartsFrom parts startIndex (S j) rest s
      end
  end.

Definition unmarshalParts {T} (parts : frames) (startIndex : nat)
    (values : list (target T)) (s : T) : outcome T :=
  unmarshalPartsFrom parts startIndex 0 values s.

Module RawMessage.
Record t := {
  Header : Header.t;
  ParentHeader : Header.t;
  Metadata : anymap;
  Content : slice          (* json.RawMessage *)
}.

Definition zero : t :=
  {| Header := Header.zero; ParentHeader := Header.zero; Metadata := None; Content := None |}.

(** [&msg.Header], [&msg.ParentHeader], [&msg.Metadata], [&msg.Content]. *)
Definition pHeader : target t := fun data m =>
  JSON.bind (JSON.Unmarshal Header.dec data (Header m)) (fun h =>
    JSON.OK {| Header := h; ParentHeader := ParentHeader m;
               Metadata := Metadata m; Content := Content m |}).
Definition pParentHeader : target t := fun data m =>
  JSON.bind (JSON.Unmarshal Header.dec data (ParentHeader m)) (fun h =>
    JSON.OK {| Header := Header m; ParentHeader := h;
               Metadata := Metadata m; Content := Content m |}).
Definition pMetadata : target t := fun data m =>
  JSON.bind (JSON.Unmarshal anymap_dec data (Metadata m)) (fun x =>
    JSON.OK {| Header := Header m; ParentHeader := ParentHeader m;
               Metadata := x; Content := Content m |}).
Definition pContent : target t := fun data m =>
  JSON.bind (JSON.UnmarshalRaw data) (fun x =>
    JSON.OK {| Header := Header m; ParentHeader := ParentHeader m;
               Metadata := Metadata m; Content := x |}).

(** [msg.Decode(parts, signKey)]: the message after the call.  When an
    error is returned the source leaves [*msg] partly filled; no caller
    reads it then, and the model drops it. *)
Definition Decode (msg : t) (parts : frames) (signKey : slice) : outcome t :=
  index ← findIndex parts delimiter;
  _ ← validateSignature parts index signKey;
  unmarshalParts parts (index + 2) [pHeader; pParentHeader; pMetadata; pContent] msg.
End RawMessage.

Module Message.
Record t := {
  Header : Header.t;
  ParentHeader : Header.t;
  Metadata : anymap;
  Content : any
}.

Definition zero : t :=
  {| Header := Header.zero; ParentHeader := Header.zero; Metadata := None; Content := CNil |}.

(** [[]interface{}{msg.Header, msg.ParentHeader, msg.Metadata, msg.Content}]
    as the loop of Encode sees it: [None] where [v == nil], else what
    [json.Marshal(v)] returns.  A struct and a map in an interface are never
    the nil interface; a nil map is written as [null]. *)
Definition values (msg : t) : list (option (JSON.result bytes)) :=
  [ Some (JSON.OK (JSON.print (Header.value (Header msg))));
    Some (JSON.OK (JSON.print (Header.value (ParentHeader msg))));
    Some (JSON.OK (JSON.print (anymap_value (Metadata msg))));
    any_marshal (Content msg) ].

(** The loop of Encode, from index [i] on. *)
Fixpoint encodeLoop (i : nat) (vs : list (option (JSON.result bytes)))
    (parts : list slice) : outcome (list slice) :=
  match vs with
  | [] => Ok parts
  | None :: rest => encodeLoop (S i) rest parts
  | Some (JSON.OK b) :: rest => encodeLoop (S i) rest (<[1 + i := Some b]> parts)
  | Some (JSON.Error e) :: _ => Err (ErrJSON e)
  end.

(** [msg.Encode(signKey)]: [parts] is made with six nil elements. *)
Definition Encode (msg : t) (signKey : slice) : outcome (list slice) :=
  let parts := replicate 6 (None : slice) in
  parts ← encodeLoop 0 (values msg) parts;
  match signKey with
  | Some k => Ok (<[0 := signMessage (drop 1 parts) k]> parts)
  | None => Ok parts
  end.

(** [msg.Decode(parts, signKey)]: the message after the call. *)
Definition Decode (msg : t) (parts : frames) (signKey : slice) : outcome t :=
  raw ← RawMessage.Decode RawMessage.zero parts signKey;
  c ← ofJSON (JSON.Unmarshal any_dec (slice_bytes (RawMessage.Content raw)) (Content msg));
  Ok {| Header := Header msg; ParentHeader := ParentHeader msg;
        Metadata := Metadata msg; Content := c |}.
End Message.

(** The frames of a message as Encode writes them: the content frame, the
    four records, the signature frame. *)
Definition contentFrame (c : any) : slice :=
  match any_marshal c with
  | Some (JSON.OK b) => Some b
  | _ => None
  end.

Definition recordFrames (msg : Message.t) : list slice :=
  [Some (JSON.print (Header.value (Message.Header msg)));
   Some (JSON.print (Header.value (Message.ParentHeader msg)));
   Some (JSON.print (anymap_value (Message.Metadata msg)));
   contentFrame (Message.Content msg)].

Definition signatureFrame (msg : Message.t) (signKey : slice) : slice :=
  match signKey with
  | Some k => signMessage (recordFrames msg ++ [None]) k
  | None => None
  end.

(** ** The contents of the broadcast messages *)

Module StreamMessage.
Record t := { Name : string; Text : string }.
Definition zero : t := {| Name := EmptyString; Text := EmptyString |}.
Definition names : list string := ["name"; "text"].
Definition set (i : nat) (v : JSON.value) (r : t) : JSON.result t :=
  match i with
  | 0 => JSON.bind (JSON.decString v (Name r)) (fun x => JSON.OK {| Name := x; Text := Text r |})
  | 1 => JSON.bind (JSON.decString v (Text r)) (fun x => JSON.OK {| Name := Name r; Text := x |})
  | _ => JSON.OK r
  end.
Definition dec : JSON.value -> t -> JSON.result t :=
  JSON.decStruct names set "StreamMessage".
End StreamMessage.

(** [DisplayDataMessage] and [UpdateDisplayDataMessage] have the fields and
    the tags of [DisplayData]; the three share [DisplayData.t] here. *)

Module ClearOutputMessage.
Record t := { Wait : bool }.
Definition zero : t := {| Wait := false |}.
Definition names : list string := ["wait"].
Definition set (i : nat) (v : JSON.value) (r : t) : JSON.result t :=
  match i with
  | 0 => JSON.bind (JSON.decBool v (Wait r)) (fun x => JSON.OK {| Wait := x |})
  | _ => JSON.OK r
  end.
Definition dec : JSON.value -> t -> JSON.result t :=
  JSON.decStruct names set "ClearOutputMessage".
End ClearOutputMessage.

Module ExecuteInputMessage.
Record t := { Code : string; ExecutionCount : Z }.
Definition zero : t := {| Code := EmptyString; ExecutionCount := 0 |}.
Definition names : list string := ["code"; "execution_count"].
Definition set (i : nat) (v : JSON.value) (r : t) : JSON.result t :=
  match i with
  | 0 => JSON.bind (JSON.decString v (Code r)) (fun x =>
           JSON.OK {| Code := x; ExecutionCount := ExecutionCount r |})
  | 1 => JSON.bind (JSON.decInt v (ExecutionCount r)) (fun x =>
           JSON.OK {| Code := Code r; ExecutionCount := x |})
  | _ => JSON.OK r
  end.
Definition dec : JSON.value -> t -> JSON.result t :=
  JSON.decStruct names set "ExecuteInputMessage".
End ExecuteInputMessage.

Module ExecuteResultMessage.
Record t := { ExecutionCount : Z; Data : anymap; Metadata : anymap }.
Definition zero : t := {| ExecutionCount := 0; Data := None; Metadata := None |}.
Definition names : list string := ["execution_count"; "data"; "metadata"].
Definition set (i : nat) (v : JSON.value) (r : t) : JSON.result t :=
  match i with
  | 0 => JSON.bind (JSON.decInt v (ExecutionCount r)) (fun x =>
           JSON.OK {| ExecutionCount := x; Data := Data r; Metadata := Metadata r |})
  | 1 => JSON.bind (anymap_dec v (Data r)) (fun x =>
           JSON.OK {| ExecutionCount := ExecutionCount r; Data := x; Metadata := Metadata r |})
  | 2 => JSON.bind (anymap_dec v (Metadata r)) (fun x =>
           JSON.OK {| ExecutionCount := ExecutionCount r; Data := Data r; Metadata := x |})
  | _ => JSON.OK r
  end.
Definition dec : JSON.value -> t -> JSON.result t :=
  JSON.decStruct names set "ExecuteResultMessage".
End ExecuteResultMessage.

Module ErrorMessage.
Record t := { EName : string; EValue : string; Traceback : option (list string) }.
Definition zero : t := {| EName := EmptyString; EValue := EmptyString; Traceback := None |}.
Definition names : list string := ["ename"; "evalue"; "traceback"].
Definition set (i : nat) (v : JSON.value) (r : t) : JSON.result t :=
  match i with
  | 0 => JSON.bind (JSON.decString v (EName r)) (fun x =>
           JSON.OK {| EName := x; EValue := EValue r; Traceback := Traceback r |})
  | 1 => JSON.bind (JSON.decString v (EValue r)) (fun x =>
           JSON.OK {| EName := EName r; EValue := x; Traceback := Traceback r |})
  | 2 => JSON.bind (JSON.decSlice JSON.decString EmptyString "[]string" v (Traceback r)) (fun x =>
           JSON.OK {| EName := EName r; EValue := EValue r; Traceback := x |})
  | _ => JSON.OK r
  end.
Definition dec : JSON.value -> t -> JSON.result t :=
  JSON.decStruct names set "ErrorMessage".
End ErrorMessage.

(** [KernelState]. *)
Definition StateBusy : string := "busy".
Definition StateIdle : string := "idle".
Definition StateStarting : string := "starting".

Module StatusMessage.
Record t := { ExecutionState : string }.
Definition zero : t := {| ExecutionState := EmptyString |}.
Definition names : list string := ["execution_state"].
Definition set (i : nat) (v : JSON.value) (r : t) : JSON.result t :=
  match i with
  | 0 => JSON.bind (JSON.decString v (ExecutionState r)) (fun x =>
           JSON.OK {| ExecutionState := x |})
  | _ => JSON.OK r
  end.
Definition dec : JSON.value -> t -> JSON.result t :=
  JSON.decStruct names set "StatusMessage".
End StatusMessage.

(** What [createTarget] and [parseContent] return in their [interface{}]:
    a pointer to one of the eight content structs. *)
Inductive message :=
| PStream (m : StreamMessage.t)
| PDisplayData (m : DisplayData.t)
| PUpdateDisplayData (m : DisplayData.t)
| PClearOutput (m : ClearOutputMessage.t)
| PExecuteInput (m : ExecuteInputMessage.t)
| PExecuteResult (m : ExecuteResultMessage.t)
| PError (m : ErrorMessage.t)
| PStatus (m : StatusMessage.t).

Definition createTarget (msgType : string) : outcome message :=
  if String.eqb msgType "stream" then Ok (PStream StreamMessage.zero)
  else if String.eqb msgType "display_data" then Ok (PDisplayData DisplayData.zero)
  else if String.eqb msgType "update_display_data" then Ok (PUpdateDisplayData DisplayData.zero)
  else if String.eqb msgType "clear_output" then Ok (PClearOutput ClearOutputMessage.zero)
  else if String.eqb msgType "execute_input" then Ok (PExecuteInput ExecuteInputMessage.zero)
  else if String.eqb msgType "execute_result" then Ok (PExecuteResult ExecuteResultMessage.zero)
  else if String.eqb msgType "error" then Ok (PError ErrorMessage.zero)
  else if String.eqb msgType "status" then Ok (PStatus StatusMessage.zero)
  else Err (ErrUnknownMessageType msgType).

(** The case labels of [createTarget]. *)
Definition knownTags : list string :=
  ["stream"; "display_data"; "update_display_data"; "clear_output";
   "execute_input"; "execute_result"; "error"; "status"].

(** [json.Unmarshal(content, target)] for the pointer [target]. *)
Definition message_dec (v : JSON.value) (target : message) : JSON.result message :=
  match target with
  | PStream m => JSON.bind (StreamMessage.dec v m) (fun x => JSON.OK (PStream x))
  | PDisplayData m => JSON.bind (DisplayData.dec v m) (fun x => JSON.OK (PDisplayData x))
  | PUpdateDisplayData m => JSON.bind (DisplayData.dec v m) (fun x => JSON.OK (PUpdateDisplayData x))
  | PClearOutput m => JSON.bind (ClearOutputMessage.dec v m) (fun x => JSON.OK (PClearOutput x))
  | PExecuteInput m => JSON.bind (ExecuteInputMessage.dec v m) (fun x => JSON.OK (PExecuteInput x))
  | PExecuteResult m => JSON.bind (ExecuteResultMessage.dec v m) (fun x => JSON.OK (PExecuteResult x))
  | PError m => JSON.bind (ErrorMessage.dec v m) (fun x => JSON.OK (PError x))
  | PStatus m => JSON.bind (StatusMessage.dec v m) (fun x => JSON.OK (PStatus x))
  end.

Definition parseContent (msgType : string) (content : slice) : outcome message :=
  target ← createTarget msgType;
  ofJSON (JSON.Unmarshal message_dec (slice_bytes content) target).

(** ** The client

    The two sockets are outside the program.  A call of [Recv] returns what
    the run says it returns; a run of [pollIO] is given the results of its
    calls of [iopub.Recv] in order.

    A channel made by [addIOChannel] is unbuffered.  The model takes the
    reader of each channel to be ready whenever [pollIO] sends: a channel
    records what was sent on it, in order, and whether it is closed. *)

Inductive recv :=
| RecvErr (e : string)
| RecvMsg (body : frames).

Record chan := { sent : list message; closed : bool }.

Record Client := {
  signKey : slice;
  session : string;
  ioChannels : gmap string nat;     (* map[string]chan<- interface{}: a channel is its index in [chans] *)
  chans : list chan                 (* every channel made so far *)
}.

Definition withChans (client : Client) (m : gmap string nat) (h : list chan) : Client :=
  {| signKey := signKey client; session := session client; ioChannels := m; chans := h |}.

(** [ch <- content].  Every channel in the table was made by
    [addIOChannel], so its index is in [chans]; an index that is not leaves
    the client as it is. *)
Definition send (client : Client) (ch : nat) (content : message) : outcome Client :=
  match chans client !! ch with
  | Some c =>
      if closed c then Panic SendOnClosedChannel
      else Ok (withChans client (ioChannels client)
                 (<[ch := {| sent := sent c ++ [content]; closed := false |}]> (chans client)))
  | None => Ok client
  end.

(** [close(ch)]. *)
Definition close (client : Client) (ch : nat) : outcome Client :=
  match chans client !! ch with
  | Some c =>
      if closed c then Panic CloseOfClosedChannel
      else Ok (withChans client (ioChannels client)
                 (<[ch := {| sent := sent c; closed := true |}]> (chans client)))
  | None => Ok client
  end.

Definition addIOChannel (client : Client) (id : string) : Client * nat :=
  let ch := length (chans client) in
  (withChans client (<[id := ch]> (ioChannels client))
     (chans client ++ [{| sent := []; closed := false |}]),
   ch).

Definition getIOChannel (client : Client) (id : string) : option nat :=
  ioChannels client !! id.

Definition deleteIOChannel (client : Client) (id : string) : outcome Client :=
  client' ← match ioChannels client !! id with
            | Some ch => close client ch
            | None => Ok client
            end;
  Ok (withChans client' (delete id (ioChannels client')) (chans client')).

Definition maybeShouldListen (msgType : string) : bool :=
  if String.eqb msgType RequestExecute then true else false.

(** [status, ok := content.( *StatusMessage); ok && status.ExecutionState == StateIdle]. *)
Definition isIdleStatus (content : message) : bool :=
  match content with
  | PStatus status => String.eqb (StatusMessage.ExecutionState status) StateIdle
  | _ => false
  end.

(** One turn of the loop of [pollIO] after [iopub.Recv] has returned the
    frames [body]: the client after the turn, or the error the loop returns
    with.  Every [return] of the turn comes before the first change of the
    client. *)
Definition pollTurn (client : Client) (body : frames) : outcome Client :=
  match RawMessage.Decode RawMessage.zero body (signKey client) with
  | Panic p => Panic p
  | Err e => Err (ErrDecodingMessage e)
  | Ok msg =>
      let msgType := Header.MsgType (RawMessage.Header msg) in
      match parseContent msgType (RawMessage.Content msg) with
      | Panic p => Panic p
      | Err e => Err (ErrDecodingContent e msgType)
      | Ok content =>
          let parent := RawMessage.ParentHeader msg in
          client1 ← match getIOChannel client (Header.MsgID parent) with
                    | Some ch => send client ch content
                    | None =>
                        if maybeShouldListen (Header.MsgType parent)
                        then Err (ErrDropped (Header.MsgType parent))
                        else Ok client
                    end;
          if isIdleStatus content
          then deleteIOChannel client1 (Header.MsgID parent)
          else Ok client1
      end
  end.

(** How a run of [pollIO] over a finite input stands at its end. *)
Inductive poll :=
| Receiving (client : Client)                    (* in [iopub.Recv], the input used up *)
| Returned (client : Client) (err : option error)
| Panicked (p : panic).

(** [pollIO]: when [iopub.Recv] fails the loop is left by [break] and the
    named result, never assigned, is returned: nil. *)
Fixpoint pollIO (client : Client) (input : list recv) : poll :=
  match input with
  | [] => Receiving client
  | RecvErr _ :: _ => Returned client None
  | RecvMsg body :: rest =>
      match pollTurn client body with
      | Ok client' => pollIO client' rest
      | Err e => Returned client (Some e)
      | Panic p => Panicked p
      end
  end.

(** What one call of [Execute] takes from outside: the identifier and the
    time of [createHeader], and the shell socket. *)
Record world := {
  uuid : string;                              (* uuid.New().String() *)
  now : string;                               (* time.Now().UTC().Format(time.RFC3339) *)
  SendMulti : list slice -> option string;    (* the error of shell.SendMulti, if any *)
  Recv : recv                                 (* what shell.Recv returns *)
}.

Definition createHeader (client : Client) (w : world) (msgType : string) : Header.t :=
  {| Header.Version := Version; Header.Date := now w; Header.MsgID := uuid w;
     Header.MsgType := msgType; Header.Username := "go-jupyter";
     Header.Session := session client |}.

Definition createMessage (client : Client) (w : world) (msgType : string) (req : any)
    : Message.t :=
  {| Message.Header := createHeader client w msgType;
     Message.ParentHeader := Header.zero;
     Message.Metadata := Some [];
     Message.Content := req |}.

(** The frames [sendRequest] hands to [shell.SendMulti]. *)
Definition wire (client : Client) (msg : Message.t) : outcome (list slice) :=
  match Message.Encode msg (signKey client) with
  | Ok encoded => Ok ([Some delimiter] ++ encoded)
  | Err e => Err (ErrEncodingMessage e)
  | Panic p => Panic p
  end.

Definition sendRequest (client : Client) (w : world) (msg : Message.t) : outcome unit :=
  frames ← wire client msg;
  match SendMulti w frames with
  | Some e => Err (ErrSendingShell e)
  | None => Ok tt
  end.

(** [recvReply(content)]: the content of [reply] after the call. *)
Definition recvReply (client : Client) (w : world) (content : any) : outcome any :=
  let reply :=
    {| Message.Header := Header.zero; Message.ParentHeader := Header.zero;
       Message.Metadata := None; Message.Content := content |} in
  match Recv w with
  | RecvErr e => Err (ErrTransport e)
  | RecvMsg body =>
      reply' ← Message.Decode reply body (signKey client);
      Ok (Message.Content reply')
  end.

(** [request(req, &rep)] for a [rep] of type [ExecutionResult]: [rep] after
    the call.  A reply whose content is [null] leaves [rep] as it was. *)
Definition request (client : Client) (w : world) (req : Message.t) (rep : ExecutionResult.t)
    : outcome ExecutionResult.t :=
  _ ← sendRequest client w req;
  c ← recvReply client w (CExecutionResult rep);
  match c with
  | CExecutionResult rep' => Ok rep'
  | _ => Ok rep
  end.

(** [Execute(req)]: the client after the call, the channel [ch], and [rep]
    or the error or panic of [request]. *)
Definition Execute (client : Client) (w : world) (req : option ExecutionRequest.t)
    : Client * nat * outcome ExecutionResult.t :=
  let msg := createMessage client w RequestExecute (CExecutionRequest req) in
  let '(client', ch) := addIOChannel client (Header.MsgID (Message.Header msg)) in
  (client', ch, request client' w msg ExecutionResult.zero).

(** ** The routing table and the dispatch, read as a whole *)

(** The case label under which [createTarget] makes the struct of a
    content. *)
Definition tagOf (content : message) : string :=
  match content with
  | PStream _ => "stream"
  | PDisplayData _ => "display_data"
  | PUpdateDisplayData _ => "update_display_data"
  | PClearOutput _ => "clear_output"
  | PExecuteInput _ => "execute_input"
  | PExecuteResult _ => "execute_result"
  | PError _ => "error"
  | PStatus _ => "status"
  end.

(** The state of the table that [addIOChannel], [pollIO] and
    [deleteIOChannel] keep: every entry holds a channel that exists and is
    open, and no channel is held by two entries. *)
Definition wellFormed (client : Client) : Prop :=
  (forall id ch, ioChannels client !! id = Some ch ->
     exists c, chans client !! ch = Some c /\ closed c = false)
  /\ (forall id1 id2 ch,
        ioChannels client !! id1 = Some ch -> ioChannels client !! id2 = Some ch -> id1 = id2).

(** What [pollIO] asks of a broadcast message to route it to the command
    [A] and go on: it decodes under the key, its content is dispatched and
    is not the idle status, and its parent-id is [A]. *)
Definition routedTo (key : slice) (A : string) (body : frames) (content : message) : Prop :=
  exists msg,
    RawMessage.Decode RawMessage.zero body key = Ok msg
    /\ parseContent (Header.MsgType (RawMessage.Header msg)) (RawMessage.Content msg)
       = Ok content
    /\ Header.MsgID (RawMessage.ParentHeader msg) = A
    /\ isIdleStatus content = false.

(** ** Close

    [Close] closes the two sockets and then, in its deferred function,
    every channel of the table; the entries stay in the table.  The order
    in which a Go map is ranged over is not fixed: here it is the order of
    [map_to_list].  The errors of the two sockets are given from outside. *)

Fixpoint closeList (client : Client) (l : list nat) : outcome Client :=
  match l with
  | [] => Ok client
  | ch :: rest => client' ← close client ch; closeList client' rest
  end.

Definition closeAll (client : Client) : outcome Client :=
  closeList client (map_to_list (ioChannels client)).*2.

(** [client.Close()] with [err1] and [err2] the errors of [shell.Close()]
    and [iopub.Close()]: the client after the call and the error returned. *)
Definition Close (client : Client) (err1 err2 : option string)
    : outcome (Client * option error) :=
  let result :=
    match err1 with
    | Some e => Some (ErrTransport e)
    | None => ErrTransport <$> err2
    end in
  client' ← closeAll client;
  Ok (client', result).

(** ** NewClient

    The program of [NewClient] up to the start of the goroutine that runs
    [pollIO]: the two sockets are dialled, the broadcast socket subscribes
    to everything, and the client is made.  What the sockets answer is
    given from outside. *)

Record ConnectionInfo := {
  SignatureScheme : string;
  Transport : string;
  IP : string;
  Key : string;
  StdinPort : Z;
  ControlPort : Z;
  IoPubPort : Z;
  HeartBeatPort : Z;
  ShellPort : Z
}.

(** [fmt.Sprintf("%s://%s:%d", ...)]. *)
Definition ShellAddr (info : ConnectionInfo) : string :=
  Transport info +:+ "://" +:+ IP info +:+ ":" +:+ printZ (ShellPort info).

Definition IoPubAddr (info : ConnectionInfo) : string :=
  Transport info +:+ "://" +:+ IP info +:+ ":" +:+ printZ (IoPubPort info).

Record sockets := {
  dialShell : string -> option string;     (* the error of shell.Dial(addr), if any *)
  dialIoPub : string -> option string;     (* the error of iopub.Dial(addr), if any *)
  subscribe : option string;               (* the error of iopub.SetOption, if any *)
  newSession : string                      (* uuid.New() *)
}.

Inductive connectError :=
| ShellConnectionError (e : string)        (* Shell connection error: %v *)
| IoPubConnectionError (e : string)        (* IoPub connection error: %v *)
| SubscribeError (e : string).             (* the error of SetOption, as it is *)

(** [[]byte(info.Key)]: the conversion of a string, which is never nil. *)
Definition NewClient (net : sockets) (info : ConnectionInfo) : connectError + Client :=
  match dialShell net (ShellAddr info) with
  | Some e => inl (ShellConnectionError e)
  | None =>
      match dialIoPub net (IoPubAddr info) with
      | Some e => inl (IoPubConnectionError e)
      | None =>
          match subscribe net with
          | Some e => inl (SubscribeError e)
          | None =>
              inr {| signKey := Some (Key info); session := newSession net;
                     ioChannels := ∅; chans := [] |}
          end
      end
  end.

(** ** Messages that are read back

    The conditions under which what Encode writes is what Decode reads. *)

(** A string of ASCII characters.  [json.Marshal] writes a byte that is
    not part of valid UTF-8 as U+FFFD; the functions above copy it.  The
    statements about texts that are written and read again are made for
    ASCII strings, on which the two agree. *)
Definition asciiText (s : string) : bool :=
  forallb (fun c => (byteZ c <? 128)%Z) (list_ascii_of_string s).

(** A value whose text [json.Unmarshal] reads: its strings and keys are
    ASCII and the literal of each number is a JSON number. *)
Fixpoint readable (v : JSON.value) : bool :=
  match v with
  | JSON.Number lit =>
      match JSON.parseNumber lit with
      | Some (l, EmptyString) => String.eqb l lit
      | _ => false
      end
  | JSON.Str s => asciiText s
  | JSON.Array l => forallb readable l
  | JSON.Object kv => forallb (fun p => asciiText p.1 && readable p.2) kv
  | _ => true
  end.

(** [a < b] in the order of the bytes, the order in which [json.Marshal]
    writes the keys of a map. *)
Definition before (a b : string) : bool :=
  match String.compare a b with
  | Lt => true
  | _ => false
  end.

(** The entries of a Go map as the model keeps them: by increasing key,
    each key once. *)
Fixpoint ascending {T} (kv : list (string * T)) : bool :=
  match kv with
  | [] => true
  | p :: r => forallb (fun q => before p.1 q.1) r && ascending r
  end.

(** A value as an [interface{}] holds it: every object in it is such a
    map. *)
Fixpoint canonical (v : JSON.value) : bool :=
  match v with
  | JSON.Array l => forallb canonical l
  | JSON.Object kv => ascending kv && forallb (fun p => canonical p.2) kv
  | _ => true
  end.

(** The content of a message is written as a text that is read. *)
Definition readableContent (c : any) : bool :=
  match c with
  | CValue v => readable v
  | CExecutionRequest (Some r) => readable (ExecutionRequest.value r)
  | CExecutionResult r => readable (ExecutionResult.value r)
  | _ => true
  end.

(** A message whose four records are read back as they were written. *)
Definition sendable (msg : Message.t) : bool :=
  readable (Header.value (Message.Header msg))
  && readable (Header.value (Message.ParentHeader msg))
  && readable (anymap_value (Message.Metadata msg))
  && canonical (anymap_value (Message.Metadata msg))
  && readableContent (Message.Content msg).

(** The envelope [RawMessage.Decode] is to find in the frames of a
    message: the records, and the content as its text. *)
Definition rawOfMessage (msg : Message.t) : RawMessage.t :=
  {| RawMessage.Header := Message.Header msg;
     RawMessage.ParentHeader := Message.ParentHeader msg;
     RawMessage.Metadata := Message.Metadata msg;
     RawMessage.Content := contentFrame (Message.Content msg) |}.

(** ** The parser, part by part

    Names for the parts of the functions of [JSON], as the proofs follow
    them. *)

(** What may follow a value inside a document: nothing, or one of the
    characters that end an element or a member. *)
Definition closing (rest : string) : Prop :=
  match rest with
  | EmptyString => True
  | String c _ => c = ","%char \/ c = "]"%char \/ c = "}"%char
  end.

(** The result of [parseString] on the rest of a literal, with [f] applied
    to the characters decoded. *)
Definition andThen (o : option (string * string)) (f : string -> string) : option (string * string) :=
  match o with
  | Some (t, rest) => Some (f t, rest)
  | None => None
  end.

(** The parts of [JSON.parseNumber]: the sign, the fraction, the exponent,
    and the test on the integer part. *)
Definition signOf (s : string) : string * string :=
  match s with
  | String "-" r => ("-", r)
  | _ => (EmptyString, s)
  end.

Definition fracOf (s2 : string) : option (string * string) :=
  match s2 with
  | String "." r =>
      let '(d, t) := JSON.spanDigits r in
      match d with
      | EmptyString => None
      | _ => Some ("." +:+ d, t)
      end
  | _ => Some (EmptyString, s2)
  end.

Definition expOf (s3 : string) : option (string * string) :=
  match s3 with
  | String e r =>
      if (Ascii.eqb e "e" || Ascii.eqb e "E")%bool then
        let '(sg, r1) :=
          match r with
          | String "+" r' => ("+", r')
          | String "-" r' => ("-", r')
          | _ => (EmptyString, r)
          end in
        let '(d, t) := JSON.spanDigits r1 in
        match d with
        | EmptyString => None
        | _ => Some (String e (sg +:+ d), t)
        end
      else Some (EmptyString, s3)
  | EmptyString => Some (EmptyString, s3)
  end.

Definition intOK {A} (int : string) (x : option A) : option A :=
  match int with
  | EmptyString => None
  | String "0" (String _ _) => None
  | _ => x
  end.

(** The first character of the text of a value. *)
Definition valueHead (c : ascii) : bool :=
  JSON.isDigit c || existsb (Ascii.eqb c) ["n"; "t"; "f"; JSON.dq; "["; "{"; "-"]%char.

(** [JSON.parseValue] after an opening bracket and after an opening
    brace. *)
Definition arrayBody (f : nat) (r : string) : option (JSON.value * string) :=
  match JSON.skipSpace r with
  | String "]" r' => Some (JSON.Array [], r')
  | r' => JSON.parseElems f r' []
  end.

Definition objectBody (f : nat) (r : string) : option (JSON.value * string) :=
  match JSON.skipSpace r with
  | String "}" r' => Some (JSON.Object [], r')
  | r' => JSON.parseMembers f r' []
  end.

(** The parser finds a value at the head of its text, wherever the text
    stands in a document. *)
Definition readsBack (v : JSON.value) : Prop :=
  forall fuel rest, String.length (JSON.print v) < fuel -> closing rest ->
    JSON.parseValue fuel (JSON.print v +:+ rest) = Some (v, rest).

(** The text of a member of an object. *)
Definition member (p : string * JSON.value) : string :=
  JSON.quote p.1 +:+ ":" +:+ JSON.print p.2.

(** A text without blanks. *)
Fixpoint noSpace (s : string) : bool :=
  match s with
  | EmptyString => true
  | String c r => negb (JSON.isSpace c) && noSpace r
  end.

(** ** Replies that are read back *)




(** ** HistoryItem

    An item of a history reply, with its own [UnmarshalJSON] and
    [MarshalJSON].  [Output] is an [interface{}]: [None] is nil, and a value
    stands for what [json.Marshal] writes for it. *)
Module HistoryItem.
Record t := {
  Session : Z;
  LineNumber : Z;
  Input : string;
  Output : option JSON.value
}.

Definition zero : t :=
  {| Session := 0; LineNumber := 0; Input := EmptyString; Output := None |}.

Inductive error :=
| ErrUnmarshal (e : JSON.error)   (* the error of json.Unmarshal(data, &raw) *)
| ErrFormat.                      (* errors.New: invalid history item format *)





(** [item.MarshalJSON()]: the text of [raw].  [json.Marshal] does not fail
    on the values that stand for [Output] here. *)
Definition raw (item : t) : JSON.value :=
  JSON.Array
    [JSON.Number (printZ (Session item)); JSON.Number (printZ (LineNumber item));
     match Output item with
     | None => JSON.Str (Input item)
     | Some o => JSON.Array [JSON.Str (Input item); o]
     end].

End HistoryItem.

(** ** Fixtures: messages of a run *)

Module Fixtures.

Definition execHeader : Header.t :=
  {| Header.MsgID := "m1"; Header.Username := "go-jupyter"; Header.Session := "s1";
     Header.Date := "2024-01-01T00:00:00Z"; Header.MsgType := RequestExecute;
     Header.Version := Version |}.

(** The message [createMessage] builds for [execute("2+2")], with the
    request already in the form of data. *)
Definition execMessage : Message.t :=
  {| Message.Header := execHeader; Message.ParentHeader := Header.zero;
     Message.Metadata := Some [];
     Message.Content := CValue (JSON.Object [("code", JSON.Str "2+2")]) |}.

(** The frames [sendRequest] writes for it without a key, and what
    [Message.Decode] makes of them in a fresh message. *)
Definition execWire : list slice :=
  [Some delimiter; None] ++ recordFrames execMessage ++ [None].

Definition execDecoded : Message.t :=
  {| Message.Header := Header.zero; Message.ParentHeader := Header.zero;
     Message.Metadata := None;
     Message.Content := CValue (JSON.Object [("code", JSON.Str "2+2")]) |}.

Definition execRaw : RawMessage.t :=
  {| RawMessage.Header := execHeader; RawMessage.ParentHeader := Header.zero;
     RawMessage.Metadata := Some [];
     RawMessage.Content := contentFrame (Message.Content execMessage) |}.

Definition client0 (key : slice) : Client :=
  {| signKey := key; session := "s1"; ioChannels := ∅; chans := [] |}.

(** A client with the command [m1] registered and its channel open. *)
Definition client1 (key : slice) : Client := (addIOChannel (client0 key) "m1").1.

Definition kernelHeader (id msgType : string) : Header.t :=
  {| Header.MsgID := id; Header.Username := "kernel"; Header.Session := "k1";
     Header.Date := "2024-01-01T00:00:01Z"; Header.MsgType := msgType;
     Header.Version := Version |}.

(** The frames of a broadcast message as a kernel writes them: delimiter,
    signature, and the four records. *)
Definition broadcast (key : slice) (h parent : Header.t) (content : JSON.value) : frames :=
  let four :=
    [Some (JSON.print (Header.value h)); Some (JSON.print (Header.value parent));
     Some "{}"; Some (JSON.print content)] in
  exact ([Some delimiter;
          match key with
          | Some k => signMessage four k
          | None => Some EmptyString
          end] ++ four).

Definition statusOf (state : string) : JSON.value :=
  JSON.Object [("execution_state", JSON.Str state)].

Definition idleFor (key : slice) (parent : Header.t) : frames :=
  broadcast key (kernelHeader "k-idle" "status") parent (statusOf StateIdle).

Definition streamFor (key : slice) (parent : Header.t) : frames :=
  broadcast key (kernelHeader "k-out" "stream") parent
    (JSON.Object [("name", JSON.Str "stdout"); ("text", JSON.Str "4")]).

Definition unknownFor (key : slice) (parent : Header.t) : frames :=
  broadcast key (kernelHeader "k-comm" "comm_open") parent (JSON.Object []).

(** The three messages as [RawMessage.Decode] reads them. *)
Definition rawOf (h parent : Header.t) (content : JSON.value) : RawMessage.t :=
  {| RawMessage.Header := h; RawMessage.ParentHeader := parent;
     RawMessage.Metadata := Some []; RawMessage.Content := Some (JSON.print content) |}.

Definition idleRaw (parent : Header.t) : RawMessage.t :=
  rawOf (kernelHeader "k-idle" "status") parent (statusOf StateIdle).

Definition unknownRaw (parent : Header.t) : RawMessage.t :=
  rawOf (kernelHeader "k-comm" "comm_open") parent (JSON.Object []).

Definition idleStatus : StatusMessage.t := {| StatusMessage.ExecutionState := StateIdle |}.

Definition streamed : message :=
  PStream {| StreamMessage.Name := "stdout"; StreamMessage.Text := "4" |}.

(** [client1] after a stream message for [m1] was routed, and after the idle
    status for [m1] was routed as well. *)
Definition client1Streamed (key : slice) : Client :=
  withChans (client1 key) (ioChannels (client1 key)) [{| sent := [streamed]; closed := false |}].

Definition client1Idle (key : slice) : Client :=
  withChans (client1 key) ∅ [{| sent := [PStatus idleStatus]; closed := true |}].

(** A shell socket whose [SendMulti] fails. *)
Definition deadShell : world :=
  {| uuid := "m1"; now := "2024-01-01T00:00:00Z";
     SendMulti := fun _ => Some "EOF"; Recv := RecvErr "EOF" |}.

(** A shell socket that takes the command and then fails to answer. *)
Definition muteShell : world :=
  {| uuid := "m1"; now := "2024-01-01T00:00:00Z";
     SendMulti := fun _ => None; Recv := RecvErr "EOF" |}.

(** A connection file without a key, and sockets that connect. *)
Definition keyless : ConnectionInfo :=
  {| SignatureScheme := "hmac-sha256"; Transport := "tcp"; IP := "127.0.0.1";
     Key := EmptyString; StdinPort := 5001; ControlPort := 5002; IoPubPort := 5003;
     HeartBeatPort := 5004; ShellPort := 5005 |}.

Definition online : sockets :=
  {| dialShell := fun _ => None; dialIoPub := fun _ => None; subscribe := None;
     newSession := "s1" |}.

(** A request as the struct Execute is given, a message that carries it
    with a metadata entry, and a message to decode into whose content
    points to a request used before. *)
Definition execRequest : ExecutionRequest.t :=
  {| ExecutionRequest.Code := "print('<2+2> & more')"; ExecutionRequest.Silent := false;
     ExecutionRequest.StoreHistory := true;
     ExecutionRequest.UserExpressions := Some [("a", "1+1"); ("b", "x")];
     ExecutionRequest.AllowStdin := false; ExecutionRequest.StopOnError := true |}.








End Fixtures.

(** * Properties *)

(** The library code is run, never unfolded, by the proofs below. *)
Arguments SHA256.Sum256 : simpl never.
Arguments HMAC.Sum : simpl never.
Arguments HMAC.Equal : simpl never.
Arguments Hex.Encode : simpl never.
Arguments Hex.DecodeBuf : simpl never.
Arguments JSON.parse : simpl never.
Arguments JSON.print : simpl never.
Arguments signMessage : simpl never.

(** ** The library models *)

Section Library.

(** The constants and two published digests: FIPS 180-4 and RFC 4231. *)
Example sha256_constants :
  length SHA256.K = 64 /\ length SHA256.H0 = 8
  /\ SHA256.K !! 0 = Some 0x428a2f98%Z /\ SHA256.K !! 63 = Some 0xc67178f2%Z
  /\ SHA256.H0 !! 0 = Some 0x6a09e667%Z /\ SHA256.H0 !! 7 = Some 0x5be0cd19%Z.
Proof. repeat split. Qed.

Example sha256_abc :
  Hex.Encode (SHA256.Sum256 "abc")
  = "ba7816bf8f01cfea414140de5dae2223b00361a396177a9cb410ff61f20015ad".
Proof. vm_compute. reflexivity. Qed.

Example hmac_rfc4231_2 :
  Hex.Encode (HMAC.Sum (HMAC.Write (HMAC.New "Jefe" EmptyString) (Some "what do ya want for nothing?")))
  = "5bdcc146bf60754e6a042426089575c75a003f089d2739839dec58b964ec3843".
Proof. vm_compute. reflexivity. Qed.

Lemma length_zeros n : String.length (zeros n) = n.
Proof. induction n as [|n IH]; [reflexivity|]. cbn [zeros String.length]. now rewrite IH. Qed.

Lemma append_cons c (s t : string) : String c s +:+ t = String c (s +:+ t).
Proof. reflexivity. Qed.

Lemma append_empty (s : string) : s +:+ EmptyString = s.
Proof. induction s as [|c s IH]; [reflexivity|]. now rewrite append_cons, IH. Qed.

Lemma byteZ_inj a b : byteZ a = byteZ b -> a = b.
Proof.
  unfold byteZ. intros H. apply N2Z.inj in H.
  rewrite <- (ascii_N_embedding a), <- (ascii_N_embedding b). congruence.
Qed.

(** Each byte is read back from its two digits. *)
Lemma hex_byte c :
  Hex.fromHexChar (Hex.digit (Z.shiftr (byteZ c) 4)) = Some (Z.shiftr (byteZ c) 4)
  /\ Hex.fromHexChar (Hex.digit (Z.land (byteZ c) 15)) = Some (Z.land (byteZ c) 15)
  /\ Zbyte (Z.lor (Z.shiftl (Z.shiftr (byteZ c) 4) 4) (Z.land (byteZ c) 15)) = c.
Proof.
  destruct c as [[] [] [] [] [] [] [] []]; vm_compute; auto.
Qed.

Lemma Encode_cons c b :
  Hex.Encode (String c b) =
  String (Hex.digit (Z.shiftr (byteZ c) 4))
    (String (Hex.digit (Z.land (byteZ c) 15)) (Hex.Encode b)).
Proof. reflexivity. Qed.

Lemma decodePairs_Encode b : Hex.decodePairs (Hex.Encode b) = b.
Proof.
  induction b as [|c b IH]; [reflexivity|].
  rewrite Encode_cons. cbn [Hex.decodePairs].
  destruct (hex_byte c) as (-> & -> & ->). now rewrite IH.
Qed.

Lemma length_Encode b : String.length (Hex.Encode b) = Hex.EncodedLen (String.length b).
Proof.
  unfold Hex.EncodedLen. induction b as [|c b IH]; [reflexivity|].
  rewrite Encode_cons. cbn [String.length]. rewrite IH. lia.
Qed.

(** What [hex.Encode] wrote, [hex.Decode] reads back. *)
Lemma DecodeBuf_Encode b : Hex.DecodeBuf (Hex.Encode b) = b.
Proof.
  unfold Hex.DecodeBuf. rewrite decodePairs_Encode, length_Encode.
  unfold Hex.DecodedLen, Hex.EncodedLen.
  rewrite Nat.div_mul by lia. rewrite Nat.sub_diag. apply append_empty.
Qed.

Lemma xorAcc_same x v : HMAC.xorAcc x x v = v.
Proof.
  revert v; induction x as [|a x IH]; intros v; [reflexivity|].
  cbn [HMAC.xorAcc]. rewrite IH, Z.lxor_nilpotent. apply Z.lor_0_r.
Qed.

Lemma xorAcc_zero x y v :
  String.length x = String.length y -> HMAC.xorAcc x y v = 0%Z -> v = 0%Z /\ x = y.
Proof.
  revert y v; induction x as [|a x IH]; intros [|b y] v Hl H; simpl in Hl; try discriminate.
  - auto.
  - cbn [HMAC.xorAcc] in H. apply IH in H as [H ->]; [|lia].
    apply Z.lor_eq_0_iff in H as [-> H]. apply Z.lxor_eq in H.
    apply byteZ_inj in H. now subst.
Qed.

(** [hmac.Equal] is equality of the byte strings. *)
Lemma Equal_iff x y : HMAC.Equal x y = true <-> x = y.
Proof.
  unfold HMAC.Equal. split.
  - destruct (decide _) as [Hl|]; [|discriminate].
    intros H. apply Z.eqb_eq in H. now apply xorAcc_zero in H.
  - intros ->. destruct (decide _) as [_|]; [|congruence].
    rewrite xorAcc_same. reflexivity.
Qed.

(** Writing a nil or an empty slice to a MAC changes nothing. *)
Lemma Write_nil m : HMAC.Write m None = m.
Proof. destruct m. unfold HMAC.Write. simpl. now rewrite append_empty. Qed.

Lemma fold_Write_app l1 l2 m :
  fold_left HMAC.Write (l1 ++ l2) m = fold_left HMAC.Write l2 (fold_left HMAC.Write l1 m).
Proof. apply fold_left_app. Qed.

End Library.

(** ** findIndex, validateSignature, unmarshalParts *)

Section Codec.

Lemma findIndexFrom_absent i parts target :
  (forall p, p ∈ parts -> slice_bytes p <> target) ->
  findIndexFrom i parts target = Err ErrTargetNotFound.
Proof.
  revert i. induction parts as [|p parts IH]; intros i H; [reflexivity|].
  cbn [findIndexFrom].
  destruct (String.eqb_spec (slice_bytes p) target) as [E|_].
  - exfalso. apply (H p); [left|exact E].
  - apply IH. intros q Hq. apply H. now right.
Qed.

Lemma findIndexFrom_found i parts target k :
  findIndexFrom i parts target = Ok k ->
  i <= k /\ exists p, parts !! (k - i) = Some p /\ slice_bytes p = target.
Proof.
  revert i. induction parts as [|p parts IH]; intros i H; [discriminate|].
  cbn [findIndexFrom] in H.
  destruct (String.eqb_spec (slice_bytes p) target) as [E|_].
  - injection H as <-. split; [lia|]. exists p. now rewrite Nat.sub_diag.
  - apply IH in H as (Hle & q & Hq & E). split; [lia|]. exists q. split; [|exact E].
    replace (k - i) with (S (k - S i)) by lia. exact Hq.
Qed.

(** The index [findIndex] returns is inside the sequence. *)
Lemma findIndex_lt parts target k : findIndex parts target = Ok k -> k < len parts.
Proof.
  unfold findIndex, len. intros H.
  apply findIndexFrom_found in H as (_ & p & Hp & _).
  apply lookup_lt_Some in Hp. lia.
Qed.

Lemma findIndexFrom_err i parts target e :
  findIndexFrom i parts target = Err e -> e = ErrTargetNotFound.
Proof.
  revert i. induction parts as [|p parts IH]; intros i H; cbn [findIndexFrom] in H.
  - congruence.
  - destruct (String.eqb _ _); [discriminate|]. eauto.
Qed.

Lemma findIndexFrom_no_panic i parts target p : findIndexFrom i parts target <> Panic p.
Proof.
  revert i. induction parts as [|q parts IH]; intros i; cbn [findIndexFrom]; [discriminate|].
  destruct (String.eqb _ _); [discriminate|]. apply IH.
Qed.

Lemma at_Ok parts i f : at_ parts i = Ok f <-> elems parts !! i = Some f.
Proof. unfold at_. destruct (elems parts !! i); split; congruence. Qed.

Lemma at_out parts i : len parts <= i -> at_ parts i = Panic IndexOutOfRange.
Proof.
  unfold at_, len. intros H. now rewrite (lookup_ge_None_2 (elems parts) i H).
Qed.

(** Without a key nothing of the frames is looked at. *)
Lemma validateSignature_nil parts index : validateSignature parts index None = Ok tt.
Proof. reflexivity. Qed.

Lemma validateSignature_bounds parts index k :
  cap parts < index + 6 ->
  validateSignature parts index (Some k) = Panic SliceBoundsOutOfRange.
Proof.
  intros H. unfold validateSignature, reslice.
  destruct (decide _) as [[_ ?]|_]; [lia|reflexivity].
Qed.

(** What the check of a key comes to when the four frames and the
    signature frame are there. *)
Lemma validateSignature_keyed parts index k sub sig :
  reslice parts (index + 2) (index + 6) = Ok sub ->
  at_ parts (index + 1) = Ok sig ->
  validateSignature parts index (Some k) =
    if HMAC.Equal (HMAC.Sum (fold_left HMAC.Write (elems sub) (HMAC.New k EmptyString)))
         (Hex.DecodeBuf (slice_bytes sig))
    then Ok tt else Err ErrInvalidSignature.
Proof. intros H1 H2. unfold validateSignature. now rewrite H1, H2. Qed.

Lemma validateSignature_err parts index key e :
  validateSignature parts index key = Err e ->
  e = ErrInvalidSignature /\ is_Some key /\ index + 6 <= cap parts.
Proof.
  destruct key as [k|]; [|discriminate].
  unfold validateSignature, reslice.
  destruct (decide _) as [[_ Hc]|_]; [|discriminate].
  cbn [mbind outcome_bind]. unfold at_.
  destruct (elems parts !! (index + 1)); cbn; [|discriminate].
  destruct (HMAC.Equal _ _); [discriminate|].
  intros [= <-]. eauto.
Qed.

Section Unmarshal.
Context {T : Type}.
Implicit Types (values : list (target T)) (s : T).

(** With too few frames the loop never comes to its end. *)
Lemma unmarshalPartsFrom_short parts start j values s :
  values <> [] ->
  len parts < start + j + length values ->
  forall s', unmarshalPartsFrom parts start j values s <> Ok s'.
Proof.
  revert j s. induction values as [|v values IH]; intros j s Hne H s'; [congruence|].
  cbn [unmarshalPartsFrom]. unfold at_.
  destruct (elems parts !! (start + j)) as [part|] eqn:E; cbn; [|discriminate].
  apply lookup_lt_Some in E. fold (len parts) in E. simpl in H.
  assert (values <> []) by (intros ->; simpl in H; lia).
  assert (len parts < start + S j + length values) by lia.
  destruct part as [data|]; [|now apply IH].
  destruct (v data s); cbn; [now apply IH|discriminate].
Qed.

(** The only errors of the loop are those of [json.Unmarshal], and such an
    error comes from a frame that is not nil. *)
Lemma unmarshalPartsFrom_err parts start j values s e :
  unmarshalPartsFrom parts start j values s = Err e ->
  exists je k data, e = ErrJSON je /\ start + j <= k /\ elems parts !! k = Some (Some data).
Proof.
  revert j s. induction values as [|v values IH]; intros j s; cbn [unmarshalPartsFrom].
  - discriminate.
  - unfold at_. destruct (elems parts !! (start + j)) as [part|] eqn:E; cbn; [|discriminate].
    destruct part as [data|].
    + destruct (v data s); cbn.
      * intros H. apply IH in H as (je & k & d & -> & Hk & Hd).
        exists je, k, d. repeat split; [lia|exact Hd].
      * intros [= <-]. exists e0, (start + j), data. repeat split; [lia|exact E].
    + intros H. apply IH in H as (je & k & d & -> & Hk & Hd).
      exists je, k, d. repeat split; [lia|exact Hd].
Qed.

(** Frames that are nil are skipped: when every frame from [start + j] on
    is nil the loop changes nothing, and it panics where the frames end. *)
Lemma unmarshalPartsFrom_nil parts start j values s :
  (forall k f, start + j <= k -> elems parts !! k = Some f -> f = None) ->
  unmarshalPartsFrom parts start j values s =
    if decide (values = [] \/ start + j + length values <= len parts) then Ok s
    else Panic IndexOutOfRange.
Proof.
  revert j. induction values as [|v values IH]; intros j H; cbn [unmarshalPartsFrom].
  - destruct (decide _) as [|N]; [reflexivity|]. exfalso. apply N. now left.
  - unfold at_. destruct (elems parts !! (start + j)) as [part|] eqn:E; cbn.
    + rewrite (H _ _ (Nat.le_refl _) E).
      rewrite IH by (intros k f Hk; apply H; lia).
      apply lookup_lt_Some in E. fold (len parts) in E. simpl.
      destruct (decide _) as [[->|]|N1]; destruct (decide _) as [[|]|N2];
        try reflexivity; try discriminate; exfalso.
      * apply N2. right. simpl. lia.
      * apply N2. right. lia.
      * apply N1. destruct values; [now left|right; simpl in *; lia].
    + apply lookup_ge_None_1 in E. fold (len parts) in E.
      destruct (decide _) as [[|]|]; [discriminate| simpl in *; lia | reflexivity].
Qed.

(** What holds of the value before the loop and is kept by every target
    that is given a frame holds of the value after it. *)
Lemma unmarshalPartsFrom_inv (P : T -> Prop) parts start j values s s' :
  (forall k v data x y,
      values !! k = Some v -> elems parts !! (start + j + k) = Some (Some data) ->
      v data x = JSON.OK y -> P x -> P y) ->
  P s -> unmarshalPartsFrom parts start j values s = Ok s' -> P s'.
Proof.
  revert j s. induction values as [|v values IH]; intros j s Hv Hs; cbn [unmarshalPartsFrom].
  - now intros [= <-].
  - unfold at_. destruct (elems parts !! (start + j)) as [part|] eqn:E; cbn; [|discriminate].
    assert (Hv' : forall k v0 data x y,
               values !! k = Some v0 -> elems parts !! (start + S j + k) = Some (Some data) ->
               v0 data x = JSON.OK y -> P x -> P y).
    { intros k v0 data x y Hk Hd. apply (Hv (S k) v0 data x y Hk).
      now replace (start + j + S k) with (start + S j + k) by lia. }
    destruct part as [data|]; [|now apply IH].
    destruct (v data s) as [s1|] eqn:Ev; cbn; [|discriminate].
    apply IH; [exact Hv'|].
    apply (Hv 0 v data s s1); [reflexivity| now rewrite Nat.add_0_r | exact Ev | exact Hs].
Qed.

End Unmarshal.

(** [RawMessage.Decode] once the delimiter is found. *)
Lemma Decode_found msg parts key i :
  findIndex parts delimiter = Ok i ->
  RawMessage.Decode msg parts key =
    (validateSignature parts i key ≫= fun _ =>
     unmarshalPartsFrom parts (i + 2) 0
       [RawMessage.pHeader; RawMessage.pParentHeader; RawMessage.pMetadata; RawMessage.pContent]
       msg).
Proof. intros H. unfold RawMessage.Decode. now rewrite H. Qed.

Lemma Decode_absent msg parts key :
  (forall p, p ∈ elems parts -> slice_bytes p <> delimiter) ->
  RawMessage.Decode msg parts key = Err ErrTargetNotFound.
Proof.
  intros H. unfold RawMessage.Decode, findIndex.
  now rewrite (findIndexFrom_absent 0 (elems parts) delimiter H).
Qed.

(** The errors [RawMessage.Decode] can return. *)
Lemma Decode_err msg parts key e :
  RawMessage.Decode msg parts key = Err e ->
  e = ErrTargetNotFound
  \/ (e = ErrInvalidSignature /\ is_Some key)
  \/ (exists je, e = ErrJSON je).
Proof.
  unfold RawMessage.Decode.
  destruct (findIndex parts delimiter) as [i|e0|p] eqn:Ef; cbn [mbind outcome_bind].
  - destruct (validateSignature parts i key) as [[]|e1|p] eqn:Ev; cbn [mbind outcome_bind].
    + intros H. apply unmarshalPartsFrom_err in H as (je & _ & _ & -> & _). eauto.
    + intros [= <-]. apply validateSignature_err in Ev as (-> & Hk & _). eauto.
    + discriminate.
  - intros [= <-]. apply findIndexFrom_err in Ef. auto.
  - discriminate.
Qed.

(** Only the fourth target writes the raw content. *)
Lemma Decode_nil_content_frame msg parts key i raw :
  findIndex parts delimiter = Ok i ->
  elems parts !! (i + 5) = Some None ->
  RawMessage.Decode msg parts key = Ok raw ->
  RawMessage.Content raw = RawMessage.Content msg.
Proof.
  intros Hi H5. rewrite (Decode_found _ _ _ _ Hi).
  destruct (validateSignature parts i key) as [[]|e1|p]; cbn [mbind outcome_bind];
    [|discriminate..].
  apply (unmarshalPartsFrom_inv (fun m => RawMessage.Content m = RawMessage.Content msg));
    [|reflexivity].
  intros k v data x y Hk Hd Hv Hx.
  destruct k as [|[|[|[|k]]]]; cbn in Hk; try discriminate; injection Hk as <-.
  - unfold RawMessage.pHeader in Hv. destruct (JSON.Unmarshal _ _ _); [|discriminate].
    cbn in Hv. injection Hv as <-. exact Hx.
  - unfold RawMessage.pParentHeader in Hv. destruct (JSON.Unmarshal _ _ _); [|discriminate].
    cbn in Hv. injection Hv as <-. exact Hx.
  - unfold RawMessage.pMetadata in Hv. destruct (JSON.Unmarshal _ _ _); [|discriminate].
    cbn in Hv. injection Hv as <-. exact Hx.
  - replace (i + 2 + 0 + 3) with (i + 5) in Hd by lia. congruence.
Qed.

(** The frames [Message.Encode] returns: six, of which the last is never
    written. *)
Lemma Encode_eq msg signKey :
  Message.Encode msg signKey =
    match any_marshal (Message.Content msg) with
    | Some (JSON.Error e) => Err (ErrJSON e)
    | _ => Ok ([signatureFrame msg signKey] ++ recordFrames msg ++ [None])
    end.
Proof.
  unfold Message.Encode, Message.values, signatureFrame, recordFrames, contentFrame.
  destruct (any_marshal (Message.Content msg)) as [[b|e]|]; destruct signKey; reflexivity.
Qed.

Lemma Encode_Ok msg signKey parts :
  Message.Encode msg signKey = Ok parts ->
  parts = [signatureFrame msg signKey] ++ recordFrames msg ++ [None].
Proof.
  rewrite Encode_eq. destruct (any_marshal _) as [[b|e]|]; congruence.
Qed.

(** The signature [signMessage] writes over the records is the one
    [validateSignature] accepts for them, whatever follows them in the
    sequence. *)
Lemma validateSignature_signed k (four rest spare_ : list slice) :
  length four = 4 ->
  validateSignature
    (Frames ([Some delimiter; signMessage (four ++ [None]) k] ++ four ++ rest) spare_)
    0 (Some k) = Ok tt.
Proof.
  intros H4.
  destruct four as [|a [|b [|c [|d [|? ?]]]]]; try discriminate.
  unfold validateSignature, reslice. cbn [cap elems spare].
  destruct (decide _) as [_|N]; [|exfalso; apply N; cbn; lia].
  cbn. unfold signMessage. rewrite take_0. cbn [fold_left].
  match goal with |- context [slice_bytes (Some ?x)] => change (slice_bytes (Some x)) with x end.
  rewrite Write_nil, DecodeBuf_Encode.
  now rewrite (proj2 (Equal_iff _ _) eq_refl).
Qed.

(** The frames [sendRequest] hands to the socket: the delimiter and what
    Encode returned. *)
Lemma wire_Ok client msg frames :
  wire client msg = Ok frames ->
  frames = [Some delimiter; signatureFrame msg (signKey client)] ++ recordFrames msg ++ [None].
Proof.
  unfold wire. destruct (Message.Encode msg (signKey client)) as [parts|e|p] eqn:E;
    [|discriminate..].
  apply Encode_Ok in E as ->. now intros [= <-].
Qed.

End Codec.

(** ** The wire codec: the claims *)

Section CodecClaims.

(** C8.  For every frame sequence in which the delimiter token does not
    occur, decoding returns the not-found error of [findIndex]: it does not
    panic and it does not return an envelope with a nil error.  This holds
    for [RawMessage.Decode] and for [Message.Decode], for every receiver and
    every key. *)
Theorem Decode_without_delimiter parts key :
  (forall p, p ∈ elems parts -> slice_bytes p <> delimiter) ->
  (forall msg, RawMessage.Decode msg parts key = Err ErrTargetNotFound)
  /\ (forall msg, Message.Decode msg parts key = Err ErrTargetNotFound).
Proof.
  intros H. split; intros msg.
  - now apply Decode_absent.
  - unfold Message.Decode. now rewrite (Decode_absent RawMessage.zero parts key H).
Qed.

Lemma Decode_without_delimiter_witness :
  RawMessage.Decode RawMessage.zero (exact [Some "IDS"; None; Some "{}"]) (Some "secret")
    = Err ErrTargetNotFound
  /\ Message.Decode Message.zero (exact [Some "IDS"; None; Some "{}"]) (Some "secret")
    = Err ErrTargetNotFound.
Proof.
  destruct (Decode_without_delimiter (exact [Some "IDS"; None; Some "{}"]) (Some "secret"))
    as [H1 H2].
  - intros p Hp. apply list_elem_of_In in Hp.
    destruct Hp as [<-|[<-|[<-|[]]]]; vm_compute; discriminate.
  - split; [apply H1 | apply H2].
Defined.

(** C10, as the code has it.  When the delimiter is at index [i] and fewer
    than five frames follow it, [RawMessage.Decode] never succeeds, but it
    does not always panic.  It panics on the slice expression when a key is
    configured and the capacity of the sequence is below [i + 6], and on the
    index expression of [unmarshalParts] when no key is configured and every
    frame from [i + 2] on is nil.  It returns an error, without a panic,
    only in two ways: the invalid-signature error, when a key is configured
    and the capacity reaches [i + 6]; or an error of [json.Unmarshal] for a
    frame at [i + 2] or later that is not nil. *)
Theorem Decode_short_frames msg parts key i :
  findIndex parts delimiter = Ok i ->
  len parts < i + 6 ->
  (forall m, RawMessage.Decode msg parts key <> Ok m)
  /\ (forall e, RawMessage.Decode msg parts key = Err e ->
        (e = ErrInvalidSignature /\ is_Some key /\ i + 6 <= cap parts)
        \/ (exists je k data,
              e = ErrJSON je /\ i + 2 <= k /\ elems parts !! k = Some (Some data)))
  /\ (is_Some key -> cap parts < i + 6 ->
        RawMessage.Decode msg parts key = Panic SliceBoundsOutOfRange)
  /\ (key = None ->
        (forall k f, i + 2 <= k -> elems parts !! k = Some f -> f = None) ->
        RawMessage.Decode msg parts key = Panic IndexOutOfRange).
Proof.
  intros Hi Hlen. rewrite (Decode_found _ _ _ _ Hi). repeat split.
  - intros m. destruct (validateSignature parts i key) as [[]|e|p];
      cbn [mbind outcome_bind]; [|discriminate..].
    apply unmarshalPartsFrom_short; [discriminate|simpl; lia].
  - intros e. destruct (validateSignature parts i key) as [[]|e'|p] eqn:Ev;
      cbn [mbind outcome_bind]; [| |discriminate].
    + intros H. apply unmarshalPartsFrom_err in H as (je & k & d & -> & Hk & Hd).
      right. exists je, k, d. repeat split; [lia|exact Hd].
    + intros [= <-]. left. now apply validateSignature_err in Ev.
  - intros [k ->] Hcap. now rewrite validateSignature_bounds.
  - intros -> Hnil. cbn [validateSignature mbind outcome_bind].
    rewrite unmarshalPartsFrom_nil by (intros k f Hk; apply Hnil; lia).
    destruct (decide _) as [[|]|]; [discriminate|simpl in *; lia|reflexivity].
Qed.

Lemma Decode_short_frames_witness :
  RawMessage.Decode RawMessage.zero (exact [Some delimiter; None; None]) None
    = Panic IndexOutOfRange.
Proof.
  destruct (Decode_short_frames RawMessage.zero (exact [Some delimiter; None; None]) None 0)
    as (_ & _ & _ & H).
  - reflexivity.
  - cbn. lia.
  - apply H; [reflexivity|].
    intros [|[|[|k]]] f Hk Hf; cbn in Hf; try lia; by inversion Hf.
Defined.

(** C10, as the claim states it, fails: three frames, no key, and a third
    frame that is no JSON.  The delimiter is at index 0, fewer than five
    frames follow it, and [RawMessage.Decode] returns the error of
    [json.Unmarshal] normally.  With a key and spare capacity the slice
    expression is in bounds and the invalid-signature error is returned. *)
Lemma Decode_short_frames_error :
  findIndex (exact [Some delimiter; None; Some "x"]) delimiter = Ok 0
  /\ len (exact [Some delimiter; None; Some "x"]) = 3
  /\ RawMessage.Decode RawMessage.zero (exact [Some delimiter; None; Some "x"]) None
     = Err (ErrJSON JSON.SyntaxError)
  /\ RawMessage.Decode RawMessage.zero
       (Frames [Some delimiter; None; None] [None; None; None]) (Some "secret")
     = Err ErrInvalidSignature.
Proof. repeat split; vm_compute; reflexivity. Qed.

(** C9: the failing input.  With the content frame nil, [Message.Decode]
    hands the empty raw content to [json.Unmarshal] and never succeeds: when
    [RawMessage.Decode] accepts the frames, the error is the syntax error of
    the empty text. *)
Theorem Message_Decode_nil_content msg parts key i :
  findIndex parts delimiter = Ok i ->
  elems parts !! (i + 5) = Some None ->
  (forall m, Message.Decode msg parts key <> Ok m)
  /\ (forall raw, RawMessage.Decode RawMessage.zero parts key = Ok raw ->
        Message.Decode msg parts key = Err (ErrJSON JSON.SyntaxError)).
Proof.
  intros Hi H5.
  assert (Hraw : forall raw, RawMessage.Decode RawMessage.zero parts key = Ok raw ->
                   Message.Decode msg parts key = Err (ErrJSON JSON.SyntaxError)).
  { intros raw Hr. unfold Message.Decode. rewrite Hr. cbn [mbind outcome_bind].
    rewrite (Decode_nil_content_frame _ _ _ _ _ Hi H5 Hr). reflexivity. }
  split; [|exact Hraw].
  intros m. destruct (RawMessage.Decode RawMessage.zero parts key) as [raw|e|p] eqn:Hr.
  - rewrite (Hraw raw eq_refl). discriminate.
  - unfold Message.Decode. rewrite Hr. discriminate.
  - unfold Message.Decode. rewrite Hr. discriminate.
Qed.

Lemma Message_Decode_nil_content_witness :
  RawMessage.Decode RawMessage.zero
    (exact [Some delimiter; None; None; None; None; None]) None = Ok RawMessage.zero
  /\ Message.Decode Message.zero
       (exact [Some delimiter; None; None; None; None; None]) None
     = Err (ErrJSON JSON.SyntaxError).
Proof.
  split; [reflexivity|].
  destruct (Message_Decode_nil_content Message.zero
              (exact [Some delimiter; None; None; None; None; None]) None 0) as [_ H].
  - reflexivity.
  - reflexivity.
  - exact (H RawMessage.zero eq_refl).
Defined.

(** What does hold for absent frames: [unmarshalParts] skips a nil frame,
    so [RawMessage.Decode] without a key leaves the receiver as it was when
    the four frames are nil. *)
Lemma RawMessage_Decode_nil_frames msg parts i :
  findIndex parts delimiter = Ok i ->
  i + 6 <= len parts ->
  (forall k f, i + 2 <= k -> elems parts !! k = Some f -> f = None) ->
  RawMessage.Decode msg parts None = Ok msg.
Proof.
  intros Hi Hlen Hnil. rewrite (Decode_found _ _ _ _ Hi).
  cbn [validateSignature mbind outcome_bind].
  rewrite unmarshalPartsFrom_nil by (intros k f Hk; apply Hnil; lia).
  destruct (decide _) as [|N]; [reflexivity|]. exfalso. apply N. right. simpl. lia.
Qed.

(** A frame that is empty and not nil is not skipped: the test of
    [unmarshalParts] is [parts[i] != nil]. *)
Example RawMessage_Decode_empty_frame :
  RawMessage.Decode RawMessage.zero
    (exact [Some delimiter; None; Some EmptyString; None; None; None]) None
  = Err (ErrJSON JSON.SyntaxError).
Proof. reflexivity. Qed.

(** C7: what the code does.  The frames handed to [shell.SendMulti] are
    seven: the delimiter, the signature frame, the four records, and the
    sixth element of the slice Encode makes, which is never written and
    stays nil. *)
Theorem wire_seven_frames client msg frames :
  wire client msg = Ok frames ->
  length frames = 7
  /\ frames
     = [Some delimiter; signatureFrame msg (signKey client)] ++ recordFrames msg ++ [None].
Proof.
  unfold wire. destruct (Message.Encode msg (signKey client)) as [parts|e|p] eqn:E;
    [|discriminate..].
  apply Encode_Ok in E as ->. intros [= <-]. split; reflexivity.
Qed.

Lemma wire_seven_frames_witness :
  wire (Fixtures.client0 None) Fixtures.execMessage = Ok Fixtures.execWire
  /\ length Fixtures.execWire = 7
  /\ Fixtures.execWire !! 6 = Some None.
Proof.
  assert (H : wire (Fixtures.client0 None) Fixtures.execMessage = Ok Fixtures.execWire)
    by reflexivity.
  destruct (wire_seven_frames _ _ _ H) as [H7 _].
  split; [exact H|]. split; [exact H7|reflexivity].
Defined.

(** C5, as the code has it.  The test is [signKey == nil]: with the nil
    key Encode leaves the signature frame nil, [validateSignature] returns
    nil before it looks at a frame, and no decoding ends in the
    invalid-signature error, whatever the frames are. *)
Theorem nil_key_unsigned msg parts frames index raw reply :
  Message.Encode msg None = Ok parts ->
  parts !! 0 = Some None
  /\ validateSignature frames index None = Ok tt
  /\ RawMessage.Decode raw frames None <> Err ErrInvalidSignature
  /\ Message.Decode reply frames None <> Err ErrInvalidSignature.
Proof.
  intros E. apply Encode_Ok in E as ->.
  assert (Hraw : forall r, RawMessage.Decode r frames None <> Err ErrInvalidSignature).
  { intros r H. apply Decode_err in H as [H|[[_ [k Hk]]|[je H]]]; discriminate. }
  split; [reflexivity|]. split; [reflexivity|]. split; [apply Hraw|].
  unfold Message.Decode.
  destruct (RawMessage.Decode RawMessage.zero frames None) as [r|e|p] eqn:Er;
    cbn [mbind outcome_bind].
  - destruct (JSON.Unmarshal _ _ _); cbn; discriminate.
  - intros [= ->]. now apply (Hraw RawMessage.zero).
  - discriminate.
Qed.

Lemma nil_key_unsigned_witness :
  Message.Encode Fixtures.execMessage None = Ok (drop 1 Fixtures.execWire)
  /\ drop 1 Fixtures.execWire !! 0 = Some None
  /\ validateSignature (exact [Some delimiter]) 0 None = Ok tt.
Proof.
  assert (H : Message.Encode Fixtures.execMessage None = Ok (drop 1 Fixtures.execWire))
    by reflexivity.
  destruct (nil_key_unsigned _ _ (exact [Some delimiter]) 0 RawMessage.zero Message.zero H)
    as (H0 & Hv & _).
  split; [exact H|]. split; [exact H0|exact Hv].
Defined.

(** C5, as the claim states it, fails for the key that is empty and not
    nil (the key [NewClient] makes of an empty [Key] string): Encode writes
    a signature of 64 digits, and a message whose signature frame is empty
    is refused with the invalid-signature error. *)
Lemma empty_key_signs :
  slice_len (Some EmptyString) = 0
  /\ (Message.Encode Fixtures.execMessage (Some EmptyString) ≫= fun parts => Ok (parts !! 0))
     = Ok (Some (Some "94e06d8a7dc6ba0efafb0e8dea02d88bc3b82ed3d9338d8493f84b93778c978b"))
  /\ RawMessage.Decode RawMessage.zero
       (Fixtures.streamFor None Fixtures.execHeader) (Some EmptyString)
     = Err ErrInvalidSignature
  /\ RawMessage.Decode RawMessage.zero
       (Fixtures.streamFor None Fixtures.execHeader) None
     <> Err ErrInvalidSignature.
Proof. repeat split; vm_compute; first [reflexivity | discriminate]. Qed.

(** C1: what the code does.  [Message.Decode] decodes into a local
    [RawMessage] and copies its content only: the header, the parent header
    and the metadata of the receiver are those it had before the call. *)
Theorem Message_Decode_keeps_receiver msg parts key msg' :
  Message.Decode msg parts key = Ok msg' ->
  Message.Header msg' = Message.Header msg
  /\ Message.ParentHeader msg' = Message.ParentHeader msg
  /\ Message.Metadata msg' = Message.Metadata msg.
Proof.
  unfold Message.Decode.
  destruct (RawMessage.Decode RawMessage.zero parts key); cbn [mbind outcome_bind];
    [|discriminate..].
  destruct (JSON.Unmarshal _ _ _); cbn; [|discriminate].
  intros [= <-]. repeat split.
Qed.

(** The round trip of the message of [execute("2+2")] through Encode, the
    wire and [Message.Decode]: the header that comes back is the zero
    header of the fresh receiver, not the header that was sent. *)
Lemma Message_Decode_keeps_receiver_witness :
  wire (Fixtures.client0 None) Fixtures.execMessage = Ok Fixtures.execWire
  /\ Message.Decode Message.zero (exact Fixtures.execWire) None = Ok Fixtures.execDecoded
  /\ Message.Header Fixtures.execDecoded = Header.zero
  /\ Message.Header Fixtures.execDecoded <> Message.Header Fixtures.execMessage
  /\ Message.Metadata Fixtures.execDecoded <> Message.Metadata Fixtures.execMessage.
Proof.
  assert (H : Message.Decode Message.zero (exact Fixtures.execWire) None
              = Ok Fixtures.execDecoded) by reflexivity.
  destruct (Message_Decode_keeps_receiver _ _ _ _ H) as (Hh & _ & _).
  split; [reflexivity|]. split; [exact H|]. split; [exact Hh|]. split; discriminate.
Defined.

(** What the frames do carry: [RawMessage.Decode] reads the records back, with
    a key as without one, and the signature Encode wrote is accepted. *)
Example RawMessage_roundtrip :
  RawMessage.Decode RawMessage.zero (exact Fixtures.execWire) None = Ok Fixtures.execRaw
  /\ (wire (Fixtures.client0 (Some "secret")) Fixtures.execMessage ≫= fun frames =>
      RawMessage.Decode RawMessage.zero (exact frames) (Some "secret"))
     = Ok Fixtures.execRaw.
Proof. split; vm_compute; reflexivity. Qed.

Lemma wire_signed_accepted client k msg frames spare_ :
  signKey client = Some k ->
  wire client msg = Ok frames ->
  validateSignature (Frames frames spare_) 0 (Some k) = Ok tt.
Proof.
  intros Hk H. apply wire_Ok in H as ->. rewrite Hk.
  apply (validateSignature_signed k (recordFrames msg) [None] spare_). reflexivity.
Qed.

(** C4 comes to a statement about HMAC-SHA256.  For frames signed by
    [signMessage] with the key [k], a sequence in which other records
    [four'] stand in the place of the signed records [four] is refused with
    the invalid-signature error exactly when the two MACs differ. *)
Lemma tampered_refused_iff raw k (four four' rest spare_ : list slice) :
  length four = 4 -> length four' = 4 ->
  RawMessage.Decode raw
    (Frames ([Some delimiter; signMessage (four ++ [None]) k] ++ four' ++ rest) spare_)
    (Some k) = Err ErrInvalidSignature
  <-> HMAC.Sum (fold_left HMAC.Write four' (HMAC.New k EmptyString))
      <> HMAC.Sum (fold_left HMAC.Write four (HMAC.New k EmptyString)).
Proof.
  intros H4 H4'.
  destruct four as [|a [|b [|c [|d [|? ?]]]]]; try discriminate.
  destruct four' as [|a' [|b' [|c' [|d' [|? ?]]]]]; try discriminate.
  rewrite (Decode_found _ _ _ 0) by reflexivity.
  unfold validateSignature, reslice. cbn [cap elems spare].
  destruct (decide _) as [_|N]; [|exfalso; apply N; cbn; lia].
  cbn [mbind outcome_bind at_ elems lookup list_lookup Nat.add Nat.sub drop take app].
  unfold signMessage. rewrite take_0. cbn [fold_left].
  match goal with |- context [slice_bytes (Some ?x)] => change (slice_bytes (Some x)) with x end.
  rewrite Write_nil, DecodeBuf_Encode.
  destruct (HMAC.Equal _ _) eqn:E.
  - apply Equal_iff in E. split; [|congruence].
    intros H. apply unmarshalPartsFrom_err in H as (je & _ & _ & H & _). discriminate.
  - split; [|reflexivity]. intros _ H. apply Equal_iff in H. congruence.
Qed.

End CodecClaims.

(** ** The client: lemmas *)

Section ClientLemmas.

Lemma createTarget_unknown msgType :
  msgType ∉ knownTags -> createTarget msgType = Err (ErrUnknownMessageType msgType).
Proof.
  intros H. unfold createTarget.
  repeat match goal with
  | |- context [String.eqb msgType ?t] =>
      destruct (String.eqb_spec msgType t) as [->|_];
      [exfalso; apply H; unfold knownTags; set_solver|]
  end.
  reflexivity.
Qed.

Lemma createTarget_known msgType :
  msgType ∈ knownTags -> exists target, createTarget msgType = Ok target.
Proof.
  unfold knownTags. intros H.
  repeat (apply elem_of_cons in H as [->|H]; [eexists; reflexivity|]).
  now apply elem_of_nil in H.
Qed.

Lemma parseContent_unknown msgType content :
  msgType ∉ knownTags -> parseContent msgType content = Err (ErrUnknownMessageType msgType).
Proof. intros H. unfold parseContent. now rewrite createTarget_unknown. Qed.

Lemma withChans_same client : withChans client (ioChannels client) (chans client) = client.
Proof. now destruct client. Qed.

(** A turn of the loop whose message was decoded and dispatched. *)
Lemma pollTurn_decoded client body msg content :
  RawMessage.Decode RawMessage.zero body (signKey client) = Ok msg ->
  parseContent (Header.MsgType (RawMessage.Header msg)) (RawMessage.Content msg) = Ok content ->
  pollTurn client body =
    (match getIOChannel client (Header.MsgID (RawMessage.ParentHeader msg)) with
     | Some ch => send client ch content
     | None =>
         if maybeShouldListen (Header.MsgType (RawMessage.ParentHeader msg))
         then Err (ErrDropped (Header.MsgType (RawMessage.ParentHeader msg)))
         else Ok client
     end ≫= fun client1 =>
     if isIdleStatus content
     then deleteIOChannel client1 (Header.MsgID (RawMessage.ParentHeader msg))
     else Ok client1).
Proof. intros Hd Hp. unfold pollTurn. now rewrite Hd, Hp. Qed.

(** Deleting an identifier that has no entry closes nothing. *)
Lemma deleteIOChannel_absent client id :
  ioChannels client !! id = None -> deleteIOChannel client id = Ok client.
Proof.
  intros H. unfold deleteIOChannel. rewrite H. cbn [mbind outcome_bind].
  rewrite (delete_id _ _ H). now rewrite withChans_same.
Qed.

(** A message whose parent has no entry: the turn ends in the error of a
    dropped message when the parent is an execute request, and changes
    nothing otherwise. *)
Lemma pollTurn_unrouted client body msg content :
  RawMessage.Decode RawMessage.zero body (signKey client) = Ok msg ->
  parseContent (Header.MsgType (RawMessage.Header msg)) (RawMessage.Content msg) = Ok content ->
  ioChannels client !! Header.MsgID (RawMessage.ParentHeader msg) = None ->
  pollTurn client body =
    if maybeShouldListen (Header.MsgType (RawMessage.ParentHeader msg))
    then Err (ErrDropped (Header.MsgType (RawMessage.ParentHeader msg)))
    else Ok client.
Proof.
  intros Hd Hp Hn. rewrite (pollTurn_decoded _ _ _ _ Hd Hp).
  unfold getIOChannel. rewrite Hn.
  destruct (maybeShouldListen _); [reflexivity|]. cbn [mbind outcome_bind].
  destruct (isIdleStatus content); [|reflexivity].
  now apply deleteIOChannel_absent.
Qed.

End ClientLemmas.

(** ** The client: the claims *)

Section ClientClaims.

(** C2, as the code has it.  When [pollIO] receives a message that decodes
    and whose message-type tag is none of the known tags, content dispatch
    fails with the unknown-message-type error, and [pollIO] returns that
    error, wrapped, at once: the client is left as it was and the messages
    that follow are not received. *)
Theorem pollIO_unknown_tag client body rest msg :
  RawMessage.Decode RawMessage.zero body (signKey client) = Ok msg ->
  Header.MsgType (RawMessage.Header msg) ∉ knownTags ->
  pollIO client (RecvMsg body :: rest)
  = Returned client
      (Some (ErrDecodingContent
               (ErrUnknownMessageType (Header.MsgType (RawMessage.Header msg)))
               (Header.MsgType (RawMessage.Header msg)))).
Proof.
  intros Hd Hu. cbn [pollIO]. unfold pollTurn.
  now rewrite Hd, (parseContent_unknown _ _ Hu).
Qed.

Lemma pollIO_unknown_tag_witness :
  pollIO (Fixtures.client1 (Some "secret"))
    [RecvMsg (Fixtures.unknownFor (Some "secret") Fixtures.execHeader);
     RecvMsg (Fixtures.streamFor (Some "secret") Fixtures.execHeader)]
  = Returned (Fixtures.client1 (Some "secret"))
      (Some (ErrDecodingContent (ErrUnknownMessageType "comm_open") "comm_open")).
Proof.
  apply (pollIO_unknown_tag (Fixtures.client1 (Some "secret")) _ _
           (Fixtures.unknownRaw Fixtures.execHeader)).
  - vm_compute. reflexivity.
  - intros H. repeat (apply elem_of_cons in H as [H|H]; [discriminate|]).
    now apply elem_of_nil in H.
Defined.

(** C2, as the claim states it, fails.  A message of type [comm_open] is
    followed by a stream message for the registered command [m1]: the loop
    returns with the error of the first and the second is never routed,
    though alone it is routed to the channel of [m1]. *)
Lemma unknown_tag_ends_loop :
  pollIO (Fixtures.client1 None)
    [RecvMsg (Fixtures.unknownFor None Fixtures.execHeader);
     RecvMsg (Fixtures.streamFor None Fixtures.execHeader)]
  = Returned (Fixtures.client1 None)
      (Some (ErrDecodingContent (ErrUnknownMessageType "comm_open") "comm_open"))
  /\ pollIO (Fixtures.client1 None)
       [RecvMsg (Fixtures.streamFor None Fixtures.execHeader)]
     = Receiving (Fixtures.client1Streamed None).
Proof. split; vm_compute; reflexivity. Qed.

(** C3, as the code has it.  [Execute] registers the entry and never
    removes it: when the send or the receive of the command fails, the
    error is returned together with the channel, the routing table still
    maps the message-id to that channel, and the channel is open. *)
Theorem Execute_keeps_entry client w req client' ch e :
  Execute client w req = (client', ch, Err e) ->
  ioChannels client' !! uuid w = Some ch
  /\ chans client' !! ch = Some {| sent := []; closed := false |}.
Proof.
  unfold Execute, addIOChannel. cbn. intros [= <- <- _]. cbn. split.
  - apply lookup_insert_eq.
  - now apply list_lookup_middle.
Qed.

Lemma Execute_keeps_entry_witness :
  Execute (Fixtures.client0 None) Fixtures.muteShell None
    = (Fixtures.client1 None, 0, Err (ErrTransport "EOF"))
  /\ ioChannels (Fixtures.client1 None) !! "m1" = Some 0
  /\ chans (Fixtures.client1 None) !! 0 = Some {| sent := []; closed := false |}.
Proof.
  assert (H : Execute (Fixtures.client0 None) Fixtures.muteShell None
              = (Fixtures.client1 None, 0, Err (ErrTransport "EOF")))
    by (vm_compute; reflexivity).
  split; [exact H|]. exact (Execute_keeps_entry _ _ _ _ _ _ H).
Defined.

(** C3, as the claim states it, fails.  The send fails, [Execute] returns
    the error, and the table of the client holds the entry of [m1]; the
    same when the send succeeds and the receive fails. *)
Lemma Execute_leaves_entry :
  Execute (Fixtures.client0 None) Fixtures.deadShell None
    = (Fixtures.client1 None, 0, Err (ErrSendingShell "EOF"))
  /\ Execute (Fixtures.client0 None) Fixtures.muteShell None
     = (Fixtures.client1 None, 0, Err (ErrTransport "EOF"))
  /\ ioChannels (Fixtures.client1 None) !! "m1" = Some 0
  /\ ioChannels (Fixtures.client0 None) !! "m1" = None.
Proof. repeat split; vm_compute; reflexivity. Qed.

(** C6, as the code has it.  A status notification with the idle state
    whose parent-id [A] has an open entry is sent on the channel of [A];
    the channel is then closed, once, and the entry removed.  A later
    notification with parent-id [A] finds no entry: it is dropped without
    an error only when the message type of its parent header is not
    [execute_request]; when it is, the turn ends in the error of a dropped
    message, with which [pollIO] returns. *)
Theorem idle_closes_and_removes client body msg status A ch c :
  RawMessage.Decode RawMessage.zero body (signKey client) = Ok msg ->
  parseContent (Header.MsgType (RawMessage.Header msg)) (RawMessage.Content msg)
    = Ok (PStatus status) ->
  StatusMessage.ExecutionState status = StateIdle ->
  Header.MsgID (RawMessage.ParentHeader msg) = A ->
  ioChannels client !! A = Some ch ->
  chans client !! ch = Some c ->
  closed c = false ->
  exists client',
    pollTurn client body = Ok client'
    /\ ioChannels client' = delete A (ioChannels client)
    /\ chans client'
       = <[ch := {| sent := sent c ++ [PStatus status]; closed := true |}]> (chans client)
    /\ chans client' !! ch = Some {| sent := sent c ++ [PStatus status]; closed := true |}
    /\ forall body2 msg2 content2,
         RawMessage.Decode RawMessage.zero body2 (signKey client') = Ok msg2 ->
         parseContent (Header.MsgType (RawMessage.Header msg2)) (RawMessage.Content msg2)
           = Ok content2 ->
         Header.MsgID (RawMessage.ParentHeader msg2) = A ->
         pollTurn client' body2 =
           if String.eqb (Header.MsgType (RawMessage.ParentHeader msg2)) RequestExecute
           then Err (ErrDropped (Header.MsgType (RawMessage.ParentHeader msg2)))
           else Ok client'.
Proof.
  intros Hd Hp Hidle HA Hch Hc Hopen.
  pose proof (lookup_lt_Some _ _ _ Hc) as Hlt.
  eexists. split; [|split; [|split; [|split]]].
  - rewrite (pollTurn_decoded _ _ _ _ Hd Hp). rewrite HA.
    unfold getIOChannel. rewrite Hch. unfold send. rewrite Hc, Hopen.
    cbn [mbind outcome_bind isIdleStatus]. rewrite Hidle. cbn [String.eqb].
    change (String.eqb StateIdle StateIdle) with true. cbn iota.
    unfold deleteIOChannel. cbn [ioChannels withChans]. rewrite Hch.
    unfold close. cbn [chans withChans].
    rewrite list_lookup_insert_eq by exact Hlt. cbn [closed sent mbind outcome_bind].
    rewrite list_insert_insert_eq. reflexivity.
  - reflexivity.
  - reflexivity.
  - cbn [chans withChans]. now apply list_lookup_insert_eq.
  - intros body2 msg2 content2 Hd2 Hp2 HA2.
    rewrite (pollTurn_unrouted _ _ _ _ Hd2 Hp2).
    + unfold maybeShouldListen. now destruct (String.eqb _ _).
    + rewrite HA2. cbn [ioChannels withChans]. apply lookup_delete_eq.
Qed.

Lemma idle_closes_and_removes_witness :
  pollTurn (Fixtures.client1 None) (Fixtures.idleFor None Fixtures.execHeader)
    = Ok (Fixtures.client1Idle None)
  /\ pollTurn (Fixtures.client1Idle None) (Fixtures.streamFor None Fixtures.execHeader)
     = Err (ErrDropped RequestExecute).
Proof.
  destruct (idle_closes_and_removes (Fixtures.client1 None)
              (Fixtures.idleFor None Fixtures.execHeader)
              (Fixtures.idleRaw Fixtures.execHeader) Fixtures.idleStatus "m1" 0
              {| sent := []; closed := false |})
    as (client' & Hturn & _ & _ & _ & Hlater); try (vm_compute; reflexivity).
  assert (E : client' = Fixtures.client1Idle None).
  { assert (H : pollTurn (Fixtures.client1 None) (Fixtures.idleFor None Fixtures.execHeader)
                = Ok (Fixtures.client1Idle None)) by (vm_compute; reflexivity).
    rewrite H in Hturn. now injection Hturn. }
  subst client'. split; [exact Hturn|].
  exact (Hlater (Fixtures.streamFor None Fixtures.execHeader)
           (Fixtures.rawOf (Fixtures.kernelHeader "k-out" "stream") Fixtures.execHeader
              (JSON.Object [("name", JSON.Str "stdout"); ("text", JSON.Str "4")]))
           Fixtures.streamed eq_refl eq_refl eq_refl).
Defined.

(** C6, as the claim states it, fails in its last part.  The command [m1]
    is registered; the kernel sends the idle status and then one more
    stream message, both with the header of the execute request as parent.
    The idle status closes the channel and removes the entry; the stream
    message is not dropped in silence: [pollIO] returns the error of a
    dropped message. *)
Lemma late_notification_is_an_error :
  pollIO (Fixtures.client1 None)
    [RecvMsg (Fixtures.idleFor None Fixtures.execHeader)]
  = Receiving (Fixtures.client1Idle None)
  /\ pollIO (Fixtures.client1 None)
       [RecvMsg (Fixtures.idleFor None Fixtures.execHeader);
        RecvMsg (Fixtures.streamFor None Fixtures.execHeader)]
     = Returned (Fixtures.client1Idle None) (Some (ErrDropped RequestExecute)).
Proof. split; vm_compute; reflexivity. Qed.

End ClientClaims.

(** * More of the code *)

(** ** findIndex and the signature *)

Section MoreCodec.

Lemma findIndexFrom_first i parts target k :
  findIndexFrom i parts target = Ok k ->
  forall j p, j < k - i -> parts !! j = Some p -> slice_bytes p <> target.
Proof.
  revert i. induction parts as [|q parts IH]; intros i H j p Hj Hp; [discriminate|].
  cbn [findIndexFrom] in H.
  destruct (String.eqb_spec (slice_bytes q) target) as [E|N].
  - injection H as <-. lia.
  - destruct j as [|j]; cbn in Hp.
    + now injection Hp as <-.
    + apply (IH (S i) H j p); [|exact Hp].
      apply findIndexFrom_found in H as [Hle _]. lia.
Qed.

(** X1.  [findIndex] returns the index of the first frame equal to the
    target; it returns its error exactly when no frame of the sequence (the
    spare capacity does not count) equals the target; it never panics. *)
Theorem findIndex_first parts target :
  match findIndex parts target with
  | Ok i =>
      (exists p, elems parts !! i = Some p /\ slice_bytes p = target)
      /\ (forall j p, j < i -> elems parts !! j = Some p -> slice_bytes p <> target)
  | Err e =>
      e = ErrTargetNotFound /\ (forall p, p ∈ elems parts -> slice_bytes p <> target)
  | Panic _ => False
  end.
Proof.
  unfold findIndex.
  destruct (findIndexFrom 0 (elems parts) target) as [i|e|p] eqn:E.
  - split.
    + apply findIndexFrom_found in E as (_ & q & Hq & Ht).
      rewrite Nat.sub_0_r in Hq. eauto.
    + intros j q Hj. apply (findIndexFrom_first _ _ _ _ E). lia.
  - split; [now apply findIndexFrom_err in E|].
    intros q Hq Ht. apply list_elem_of_lookup in Hq as [j Hj].
    assert (G : forall l n j, l !! j = Some q ->
              exists k, findIndexFrom n l target = Ok k).
    { clear -Ht. induction l as [|a l IH]; intros n j Hj; [discriminate|].
      cbn [findIndexFrom]. destruct (String.eqb_spec (slice_bytes a) target); [eauto|].
      destruct j as [|j]; cbn in Hj; [injection Hj as ->; contradiction|]. eauto. }
    destruct (G _ 0 _ Hj) as [k Hk]. congruence.
  - now apply findIndexFrom_no_panic in E.
Qed.

(** X2.  What [sendRequest] writes under a key is what [validateSignature]
    accepts under that key: the delimiter is found at index 0 and the check
    returns nil, whatever the spare capacity of the received slice holds. *)
Theorem sent_frames_verify client k msg frames spare_ :
  signKey client = Some k ->
  wire client msg = Ok frames ->
  findIndex (Frames frames spare_) delimiter = Ok 0
  /\ validateSignature (Frames frames spare_) 0 (Some k) = Ok tt.
Proof.
  intros Hk H. split.
  - apply wire_Ok in H as ->. reflexivity.
  - now apply (wire_signed_accepted client k msg).
Qed.

Lemma sent_frames_verify_witness :
  wire (Fixtures.client0 (Some "secret")) Fixtures.execMessage
    = Ok ([Some delimiter; signatureFrame Fixtures.execMessage (Some "secret")]
          ++ recordFrames Fixtures.execMessage ++ [None])
  /\ validateSignature
       (Frames ([Some delimiter; signatureFrame Fixtures.execMessage (Some "secret")]
                ++ recordFrames Fixtures.execMessage ++ [None]) [Some "stale"])
       0 (Some "secret") = Ok tt.
Proof.
  assert (H : wire (Fixtures.client0 (Some "secret")) Fixtures.execMessage
              = Ok ([Some delimiter; signatureFrame Fixtures.execMessage (Some "secret")]
                    ++ recordFrames Fixtures.execMessage ++ [None])) by reflexivity.
  split; [exact H|].
  exact (proj2 (sent_frames_verify (Fixtures.client0 (Some "secret")) "secret" _ _
                  [Some "stale"] eq_refl H)).
Defined.

(** X3.  Under a key, frames signed by [signMessage] in which other
    records stand in the place of the signed ones are refused with the
    invalid-signature error exactly when the HMAC of the records that are
    there differs from the HMAC of the records that were signed; nothing
    else of the frames enters the verdict. *)
Theorem tampering_refused raw k (four four' rest spare_ : list slice) :
  length four = 4 -> length four' = 4 ->
  RawMessage.Decode raw
    (Frames ([Some delimiter; signMessage (four ++ [None]) k] ++ four' ++ rest) spare_)
    (Some k) = Err ErrInvalidSignature
  <-> HMAC.Sum (fold_left HMAC.Write four' (HMAC.New k EmptyString))
      <> HMAC.Sum (fold_left HMAC.Write four (HMAC.New k EmptyString)).
Proof. apply tampered_refused_iff. Qed.

Lemma tampering_refused_witness :
  RawMessage.Decode RawMessage.zero
    (Frames ([Some delimiter;
              signMessage ([Some "{}"; Some "{}"; Some "{}"; Some "{}"] ++ [None]) "secret"]
             ++ [Some "{}"; Some "{}"; Some "{}"; Some "[]"] ++ []) [])
    (Some "secret") = Err ErrInvalidSignature.
Proof.
  apply (tampering_refused RawMessage.zero "secret"
           [Some "{}"; Some "{}"; Some "{}"; Some "{}"]
           [Some "{}"; Some "{}"; Some "{}"; Some "[]"] [] []); [reflexivity..|].
  vm_compute. discriminate.
Defined.

(** X4.  The errors [RawMessage.Decode] returns are of three kinds and no
    other: the not-found error of [findIndex], the invalid-signature error,
    which needs a key, and an error of [json.Unmarshal]. *)
Theorem Decode_errors msg parts key e :
  RawMessage.Decode msg parts key = Err e ->
  e = ErrTargetNotFound
  \/ (e = ErrInvalidSignature /\ is_Some key)
  \/ (exists je, e = ErrJSON je).
Proof. apply Decode_err. Qed.

Lemma Decode_errors_witness :
  RawMessage.Decode RawMessage.zero (exact [Some delimiter; None; Some "x"; None; None; None])
    (Some "secret") = Err ErrInvalidSignature
  /\ (ErrInvalidSignature = ErrTargetNotFound
      \/ (ErrInvalidSignature = ErrInvalidSignature /\ is_Some (Some "secret"))
      \/ (exists je, ErrInvalidSignature = ErrJSON je)).
Proof.
  assert (H : RawMessage.Decode RawMessage.zero
                (exact [Some delimiter; None; Some "x"; None; None; None]) (Some "secret")
              = Err ErrInvalidSignature) by (vm_compute; reflexivity).
  split; [exact H|]. exact (Decode_errors _ _ _ _ H).
Defined.

End MoreCodec.

(** ** The length of the MAC, and signatures that are too short *)

Section Lengths.

Lemma length_bytes_of_Zs l : String.length (bytes_of_Zs l) = length l.
Proof.
  unfold bytes_of_Zs. induction l as [|z l IH]; [reflexivity|].
  cbn [map string_of_list_ascii String.length]. now rewrite IH.
Qed.

Lemma length_round s kw : length (SHA256.round s kw) = length s.
Proof.
  destruct s as [|a [|b [|c [|d [|e [|f [|g [|h [|i s]]]]]]]]]; reflexivity.
Qed.

Lemma length_rounds l s : length (fold_left SHA256.round l s) = length s.
Proof.
  revert s. induction l as [|kw l IH]; intros s; [reflexivity|].
  cbn [fold_left]. now rewrite IH, length_round.
Qed.

Lemma length_compress h block : length (SHA256.compress h block) = length h.
Proof.
  unfold SHA256.compress. rewrite length_zip_with, length_rounds. lia.
Qed.

Lemma length_blocks n h m : length (SHA256.blocks n h m) = length h.
Proof.
  revert h m. induction n as [|n IH]; intros h m; [reflexivity|].
  cbn [SHA256.blocks]. now rewrite IH, length_compress.
Qed.

Lemma length_be4_concat l : length (concat (map (SHA256.be 4) l)) = 4 * length l.
Proof.
  induction l as [|x l IH]; [reflexivity|].
  cbn [map concat]. rewrite length_app, IH. cbn [SHA256.be length]. lia.
Qed.

(** A SHA-256 digest has 32 bytes. *)
Lemma length_Sum256 m : String.length (SHA256.Sum256 m) = 32.
Proof.
  unfold SHA256.Sum256.
  rewrite length_bytes_of_Zs, length_be4_concat, length_blocks. reflexivity.
Qed.

Lemma length_Sum mac : String.length (HMAC.Sum mac) = 32.
Proof. unfold HMAC.Sum. apply length_Sum256. Qed.

Lemma length_append (a b : string) :
  String.length (a +:+ b) = String.length a + String.length b.
Proof.
  induction a as [|c a IH]; [reflexivity|].
  rewrite append_cons. cbn [String.length]. now rewrite IH.
Qed.

Lemma length_decodePairs_le n : forall src,
  String.length src <= n -> 2 * String.length (Hex.decodePairs src) <= String.length src.
Proof.
  induction n as [|n IH]; intros src Hn.
  - destruct src; [cbn; lia|cbn in Hn; lia].
  - destruct src as [|p [|q rest]]; cbn [Hex.decodePairs String.length]; try lia.
    destruct (Hex.fromHexChar p), (Hex.fromHexChar q); cbn [String.length]; try lia.
    assert (String.length rest <= n) by (cbn in Hn; lia).
    specialize (IH rest H). lia.
Qed.

(** The buffer [validateSignature] compares has half the length of the
    signature frame, whatever the frame holds. *)
Lemma length_DecodeBuf src :
  String.length (Hex.DecodeBuf src) = Hex.DecodedLen (String.length src).
Proof.
  unfold Hex.DecodeBuf, Hex.DecodedLen.
  rewrite length_append, length_zeros.
  pose proof (length_decodePairs_le _ src (Nat.le_refl _)).
  assert (String.length (Hex.decodePairs src) <= String.length src / 2)
    by (apply Nat.div_le_lower_bound; lia).
  lia.
Qed.

Lemma Equal_length x y : String.length x <> String.length y -> HMAC.Equal x y = false.
Proof. intros H. unfold HMAC.Equal. destruct (decide _); [contradiction|reflexivity]. Qed.

Lemma validateSignature_short parts index k sig :
  index + 6 <= cap parts ->
  elems parts !! (index + 1) = Some sig ->
  Hex.DecodedLen (slice_len sig) <> 32 ->
  validateSignature parts index (Some k) = Err ErrInvalidSignature.
Proof.
  intros Hcap Hsig Hlen. unfold validateSignature, reslice.
  destruct (decide _) as [_|N]; [|exfalso; apply N; lia].
  cbn [mbind outcome_bind]. unfold at_. rewrite Hsig. cbn [mbind outcome_bind].
  rewrite Equal_length; [reflexivity|].
  rewrite length_Sum, length_DecodeBuf. unfold slice_len in Hlen. congruence.
Qed.

(** X5.  Under a key, a signature frame that does not hold 64 or 65 bytes
    (a nil or empty frame, a truncated signature, one that is too long) is
    refused with the invalid-signature error, whatever the records are: the
    buffer the hexadecimal digits are decoded into has not the 32 bytes of
    the MAC.  (The four frames after it have to be within the capacity;
    else the slice expression panics first.) *)
Theorem signature_length_checked msg parts index k sig :
  findIndex parts delimiter = Ok index ->
  index + 6 <= cap parts ->
  elems parts !! (index + 1) = Some sig ->
  Hex.DecodedLen (slice_len sig) <> 32 ->
  validateSignature parts index (Some k) = Err ErrInvalidSignature
  /\ RawMessage.Decode msg parts (Some k) = Err ErrInvalidSignature.
Proof.
  intros Hi Hcap Hsig Hlen.
  pose proof (validateSignature_short _ _ k _ Hcap Hsig Hlen) as Hv.
  split; [exact Hv|]. rewrite (Decode_found _ _ _ _ Hi), Hv. reflexivity.
Qed.

Lemma signature_length_checked_witness :
  RawMessage.Decode RawMessage.zero
    (exact ([Some delimiter; Some "94e06d8a7dc6ba0e"] ++ recordFrames Fixtures.execMessage))
    (Some EmptyString) = Err ErrInvalidSignature.
Proof.
  apply (signature_length_checked RawMessage.zero
           (exact ([Some delimiter; Some "94e06d8a7dc6ba0e"]
                   ++ recordFrames Fixtures.execMessage))
           0 EmptyString (Some "94e06d8a7dc6ba0e")).
  - reflexivity.
  - cbn. lia.
  - reflexivity.
  - cbn. lia.
Defined.

(** X6.  A client made by [NewClient] has a key that is not nil, whatever
    the connection file says, an empty table, and signs every message: the
    second frame [sendRequest] writes holds 64 hexadecimal digits, also when
    [Key] is the empty string. *)
Theorem NewClient_signs net info client msg frames :
  NewClient net info = inr client ->
  wire client msg = Ok frames ->
  signKey client = Some (Key info)
  /\ ioChannels client = ∅
  /\ exists sig, frames !! 1 = Some (Some sig) /\ String.length sig = 64.
Proof.
  unfold NewClient.
  destruct (dialShell net _); [discriminate|].
  destruct (dialIoPub net _); [discriminate|].
  destruct (subscribe net); [discriminate|].
  intros [= <-] H. apply wire_Ok in H as ->. cbn [signKey ioChannels].
  split; [reflexivity|]. split; [reflexivity|].
  eexists. split; [reflexivity|].
  rewrite length_Encode, length_Sum. reflexivity.
Qed.

Lemma NewClient_signs_witness :
  NewClient Fixtures.online Fixtures.keyless = inr (Fixtures.client0 (Some EmptyString))
  /\ signKey (Fixtures.client0 (Some EmptyString)) = Some EmptyString
  /\ exists sig,
       ([Some delimiter; signatureFrame Fixtures.execMessage (Some EmptyString)]
        ++ recordFrames Fixtures.execMessage ++ [None]) !! 1 = Some (Some sig)
       /\ String.length sig = 64.
Proof.
  assert (H : NewClient Fixtures.online Fixtures.keyless
              = inr (Fixtures.client0 (Some EmptyString))) by reflexivity.
  split; [exact H|].
  destruct (NewClient_signs Fixtures.online Fixtures.keyless _ Fixtures.execMessage
              ([Some delimiter; signatureFrame Fixtures.execMessage (Some EmptyString)]
               ++ recordFrames Fixtures.execMessage ++ [None]) H eq_refl)
    as (Hk & _ & Hs).
  split; [exact Hk|exact Hs].
Defined.

(** X7.  Such a client, when the connection file has no key, does not read
    what a kernel without a key sends: a broadcast message whose signature
    frame is empty ends [pollIO] with the invalid-signature error. *)
Theorem keyless_client_refuses_unsigned net info client body index rest :
  NewClient net info = inr client ->
  findIndex body delimiter = Ok index ->
  index + 6 <= cap body ->
  elems body !! (index + 1) = Some (Some EmptyString) ->
  pollIO client (RecvMsg body :: rest)
  = Returned client (Some (ErrDecodingMessage ErrInvalidSignature)).
Proof.
  intros Hn Hi Hcap Hsig.
  assert (Hk : signKey client = Some (Key info)).
  { unfold NewClient in Hn.
    destruct (dialShell net _); [discriminate|].
    destruct (dialIoPub net _); [discriminate|].
    destruct (subscribe net); [discriminate|]. now injection Hn as <-. }
  assert (Hv : validateSignature body index (signKey client) = Err ErrInvalidSignature).
  { rewrite Hk. apply (validateSignature_short body index _ (Some EmptyString) Hcap Hsig).
    cbn. lia. }
  cbn [pollIO]. unfold pollTurn.
  rewrite (Decode_found _ _ _ _ Hi), Hv. reflexivity.
Qed.

Lemma keyless_client_refuses_unsigned_witness :
  pollIO (Fixtures.client0 (Some EmptyString))
    [RecvMsg (Fixtures.streamFor None Fixtures.execHeader)]
  = Returned (Fixtures.client0 (Some EmptyString))
      (Some (ErrDecodingMessage ErrInvalidSignature)).
Proof.
  apply (keyless_client_refuses_unsigned Fixtures.online Fixtures.keyless _ _ 0 []).
  - reflexivity.
  - reflexivity.
  - cbn. lia.
  - reflexivity.
Defined.

End Lengths.

(** ** The frames Decode reads *)

Section Window.

Lemma unmarshalPartsFrom_ext {T} (P Q : frames) s s' j (values : list (target T)) x :
  (forall k, k < length values -> elems P !! (s + j + k) = elems Q !! (s' + j + k)) ->
  unmarshalPartsFrom P s j values x = unmarshalPartsFrom Q s' j values x.
Proof.
  revert j x. induction values as [|v values IH]; intros j x H; [reflexivity|].
  cbn [unmarshalPartsFrom]. unfold at_.
  pose proof (H 0 ltac:(simpl; lia)) as H0. rewrite !Nat.add_0_r in H0. rewrite H0.
  assert (Hnext : forall y, unmarshalPartsFrom P s (S j) values y
                            = unmarshalPartsFrom Q s' (S j) values y).
  { intros y. apply IH. intros k Hk.
    replace (s + S j + k) with (s + j + S k) by lia.
    replace (s' + S j + k) with (s' + j + S k) by lia.
    apply H. simpl. lia. }
  destruct (elems Q !! (s' + j)) as [[data|]|]; cbn [mbind outcome_bind]; [|apply Hnext|reflexivity].
  destruct (v data x); cbn [ofJSON mbind outcome_bind]; [apply Hnext|reflexivity].
Qed.

(** [RawMessage.Decode] reads the signature frame and the four frames
    after it, and nothing else: two sequences in which the delimiter is
    found and these five frames are the same, and which agree on whether
    the four are within the capacity, decode alike. *)
Lemma Decode_window msg (P Q : frames) key i i' :
  findIndex P delimiter = Ok i ->
  findIndex Q delimiter = Ok i' ->
  (i + 6 <= cap P <-> i' + 6 <= cap Q) ->
  take 4 (drop (i + 2) (elems P ++ spare P)) = take 4 (drop (i' + 2) (elems Q ++ spare Q)) ->
  (forall k, k < 5 -> elems P !! (i + 1 + k) = elems Q !! (i' + 1 + k)) ->
  RawMessage.Decode msg P key = RawMessage.Decode msg Q key.
Proof.
  intros HP HQ Hcap Hsub Hel.
  rewrite (Decode_found _ _ _ _ HP), (Decode_found _ _ _ _ HQ).
  assert (Hv : validateSignature P i key = validateSignature Q i' key).
  { destruct key as [k|]; [|reflexivity].
    unfold validateSignature, reslice.
    replace (i + 6 - (i + 2)) with 4 by lia. replace (i' + 6 - (i' + 2)) with 4 by lia.
    destruct (decide (i + 2 <= i + 6 <= cap P)) as [[_ H1]|N1];
      destruct (decide (i' + 2 <= i' + 6 <= cap Q)) as [[_ H2]|N2];
      try (exfalso; first [apply N1 | apply N2]; split; [lia | tauto]); [|reflexivity].
    cbn [mbind outcome_bind elems]. rewrite Hsub. unfold at_.
    pose proof (Hel 0 ltac:(lia)) as H0. rewrite !Nat.add_0_r in H0. now rewrite H0. }
  rewrite Hv. destruct (validateSignature Q i' key) as [[]|e|p]; cbn [mbind outcome_bind];
    [|reflexivity..].
  apply unmarshalPartsFrom_ext. intros k Hk. cbn [length] in Hk.
  rewrite !Nat.add_0_r.
  replace (i + 2 + k) with (i + 1 + S k) by lia.
  replace (i' + 2 + k) with (i' + 1 + S k) by lia. apply Hel. lia.
Qed.

Lemma findIndexFrom_shift n m parts target :
  findIndexFrom (n + m) parts target =
    match findIndexFrom n parts target with
    | Ok i => Ok (i + m)
    | r => r
    end.
Proof.
  revert n. induction parts as [|p parts IH]; intros n; [reflexivity|].
  cbn [findIndexFrom]. destruct (String.eqb _ _); [reflexivity|].
  apply (IH (S n)).
Qed.

Lemma findIndexFrom_prefix n pre parts target :
  (forall p, p ∈ pre -> slice_bytes p <> target) ->
  findIndexFrom n (pre ++ parts) target = findIndexFrom (n + length pre) parts target.
Proof.
  revert n. induction pre as [|q pre IH]; intros n H.
  - now rewrite Nat.add_0_r.
  - cbn [app findIndexFrom length].
    destruct (String.eqb_spec (slice_bytes q) target) as [E|_].
    + exfalso. apply (H q); [left|exact E].
    + rewrite IH by (intros p Hp; apply H; now right). f_equal. lia.
Qed.

Lemma findIndexFrom_suffix n parts extra target i :
  findIndexFrom n parts target = Ok i ->
  findIndexFrom n (parts ++ extra) target = Ok i.
Proof.
  revert n. induction parts as [|p parts IH]; intros n H; [discriminate|].
  cbn [app findIndexFrom] in *. destruct (String.eqb _ _); [exact H|]. now apply IH.
Qed.

(** X8.  Frames before the delimiter (the routing identities of the
    transport) do not enter the decoding: as long as none of them equals the
    delimiter, the message decodes as it does without them. *)
Theorem Decode_skips_prefix msg pre parts spare_ key :
  (forall p, p ∈ pre -> slice_bytes p <> delimiter) ->
  RawMessage.Decode msg (Frames (pre ++ parts) spare_) key
  = RawMessage.Decode msg (Frames parts spare_) key.
Proof.
  intros Hpre.
  assert (Hf : findIndex (Frames (pre ++ parts) spare_) delimiter =
               match findIndex (Frames parts spare_) delimiter with
               | Ok i => Ok (i + length pre)
               | r => r
               end).
  { unfold findIndex. cbn [elems].
    rewrite (findIndexFrom_prefix 0 pre parts delimiter Hpre).
    apply (findIndexFrom_shift 0). }
  destruct (findIndex (Frames parts spare_) delimiter) as [i|e|p] eqn:Ei.
  - apply (Decode_window msg _ _ key (i + length pre) i Hf Ei).
    + unfold cap. cbn [elems spare]. rewrite length_app. lia.
    + cbn [elems spare]. rewrite <- app_assoc.
      replace (i + length pre + 2) with (length pre + (i + 2)) by lia.
      now rewrite drop_app_add.
    + intros k _. cbn [elems]. rewrite lookup_app_r by lia. f_equal. lia.
  - unfold RawMessage.Decode. now rewrite Hf, Ei.
  - unfold RawMessage.Decode. now rewrite Hf, Ei.
Qed.

Lemma Decode_skips_prefix_witness :
  RawMessage.Decode RawMessage.zero
    (Frames ([Some "kernel.1234.status"; Some "id"] ++ Fixtures.execWire) []) None
  = Ok Fixtures.execRaw.
Proof.
  transitivity (RawMessage.Decode RawMessage.zero (Frames Fixtures.execWire []) None);
    [|reflexivity].
  apply (Decode_skips_prefix RawMessage.zero [Some "kernel.1234.status"; Some "id"]
           Fixtures.execWire [] None).
  intros p Hp. apply list_elem_of_In in Hp.
  destruct Hp as [<-|[<-|[]]]; vm_compute; discriminate.
Defined.

(** X9.  Frames after the four records (the buffers of the protocol, and
    the nil frame Encode leaves at the end) do not enter the decoding, nor
    does the spare capacity, once the four records are within the length. *)
Theorem Decode_skips_suffix msg parts extra spare_ spare' key i :
  findIndex (Frames parts spare_) delimiter = Ok i ->
  i + 6 <= length parts ->
  RawMessage.Decode msg (Frames (parts ++ extra) spare') key
  = RawMessage.Decode msg (Frames parts spare_) key.
Proof.
  intros Hi Hlen.
  assert (Hf : findIndex (Frames (parts ++ extra) spare') delimiter = Ok i).
  { unfold findIndex in *. cbn [elems] in *. now apply findIndexFrom_suffix. }
  apply (Decode_window msg _ _ key i i Hf Hi).
  - unfold cap. cbn [elems spare]. rewrite length_app. lia.
  - cbn [elems spare]. rewrite <- app_assoc.
    rewrite !drop_app_le by lia. rewrite !take_app_le; [reflexivity|..];
      rewrite length_drop; lia.
  - intros k Hk. cbn [elems]. apply lookup_app_l. lia.
Qed.

Lemma Decode_skips_suffix_witness :
  RawMessage.Decode RawMessage.zero
    (Frames (take 6 Fixtures.execWire ++ [None; Some "buffer"]) [Some "stale"]) None
  = Ok Fixtures.execRaw.
Proof.
  transitivity (RawMessage.Decode RawMessage.zero (Frames (take 6 Fixtures.execWire) []) None);
    [|reflexivity].
  apply (Decode_skips_suffix RawMessage.zero (take 6 Fixtures.execWire)
           [None; Some "buffer"] [] [Some "stale"] None 0).
  - reflexivity.
  - cbn. lia.
Defined.

End Window.

(** ** Dispatch and routing *)

Section Routing.

Lemma message_dec_tag v target m :
  message_dec v target = JSON.OK m -> tagOf m = tagOf target.
Proof.
  destruct target; cbn [message_dec];
    match goal with |- JSON.bind ?r _ = _ -> _ => destruct r end;
    cbn [JSON.bind]; intros [= <-]; reflexivity.
Qed.

Lemma createTarget_tag msgType target :
  createTarget msgType = Ok target -> msgType ∈ knownTags /\ tagOf target = msgType.
Proof.
  destruct (decide (msgType ∈ knownTags)) as [H|H].
  - intros E. split; [exact H|]. unfold knownTags in H.
    repeat (apply elem_of_cons in H as [->|H];
            [cbn in E; injection E as <-; reflexivity|]).
    now apply elem_of_nil in H.
  - now rewrite (createTarget_unknown _ H).
Qed.

Lemma parseContent_cases msgType content :
  match parseContent msgType content with
  | Ok m => (msgType ∈ knownTags) /\ tagOf m = msgType
  | Err e =>
      ((msgType ∉ knownTags) /\ e = ErrUnknownMessageType msgType)
      \/ ((msgType ∈ knownTags) /\ exists je, e = ErrJSON je)
  | Panic _ => False
  end.
Proof.
  unfold parseContent.
  destruct (createTarget msgType) as [target|e|p] eqn:E; cbn [mbind outcome_bind].
  - apply createTarget_tag in E as [Hk Ht].
    unfold JSON.Unmarshal. destruct (JSON.parse _) as [v|je]; cbn [JSON.bind ofJSON].
    + destruct (message_dec v target) as [m|je] eqn:Em; cbn [ofJSON].
      * split; [exact Hk|]. apply message_dec_tag in Em. congruence.
      * right. eauto.
    + right. eauto.
  - destruct (decide (msgType ∈ knownTags)) as [H|H].
    + apply createTarget_known in H as [t Ht]. congruence.
    + left. split; [exact H|]. rewrite (createTarget_unknown _ H) in E. congruence.
  - destruct (decide (msgType ∈ knownTags)) as [H|H].
    + apply createTarget_known in H as [t Ht]. congruence.
    + rewrite (createTarget_unknown _ H) in E. discriminate.
Qed.

(** X10.  Content dispatch returns the struct of the tag and no other: a
    success means the tag is one of the eight known tags and the content is
    of that kind; the only errors are the unknown-message-type error, for
    the tags that are not known, and an error of [json.Unmarshal], for the
    tags that are; it never panics. *)
Theorem parseContent_dispatch msgType content :
  match parseContent msgType content with
  | Ok m => (msgType ∈ knownTags) /\ tagOf m = msgType
  | Err e =>
      ((msgType ∉ knownTags) /\ e = ErrUnknownMessageType msgType)
      \/ ((msgType ∈ knownTags) /\ exists je, e = ErrJSON je)
  | Panic _ => False
  end.
Proof. apply parseContent_cases. Qed.

(** X11.  A broadcast message whose content frame is nil cannot be
    dispatched: when it decodes and its tag is known, [pollIO] returns with
    the syntax error of the empty text, and the client is left as it was. *)
Theorem pollIO_nil_content client body rest i msg :
  findIndex body delimiter = Ok i ->
  elems body !! (i + 5) = Some None ->
  RawMessage.Decode RawMessage.zero body (signKey client) = Ok msg ->
  Header.MsgType (RawMessage.Header msg) ∈ knownTags ->
  pollIO client (RecvMsg body :: rest)
  = Returned client
      (Some (ErrDecodingContent (ErrJSON JSON.SyntaxError)
               (Header.MsgType (RawMessage.Header msg)))).
Proof.
  intros Hi H5 Hd Hk. cbn [pollIO]. unfold pollTurn. rewrite Hd.
  rewrite (Decode_nil_content_frame _ _ _ _ _ Hi H5 Hd). cbn [RawMessage.Content RawMessage.zero].
  unfold parseContent. apply createTarget_known in Hk as [t ->].
  reflexivity.
Qed.

Lemma pollIO_nil_content_witness :
  pollIO (Fixtures.client1 None)
    [RecvMsg (exact [Some delimiter; None;
                     Some (JSON.print (Header.value (Fixtures.kernelHeader "k-idle" "status")));
                     None; None; None])]
  = Returned (Fixtures.client1 None)
      (Some (ErrDecodingContent (ErrJSON JSON.SyntaxError) "status")).
Proof.
  apply (pollIO_nil_content (Fixtures.client1 None) _ [] 0
           {| RawMessage.Header := Fixtures.kernelHeader "k-idle" "status";
              RawMessage.ParentHeader := Header.zero; RawMessage.Metadata := None;
              RawMessage.Content := None |}).
  - reflexivity.
  - reflexivity.
  - vm_compute. reflexivity.
  - vm_compute. set_solver.
Defined.

(** A turn of the loop whose message has an open entry: the content is
    appended to what was sent on the channel of the entry; when it is the
    idle status the channel is closed and the entry removed. *)
Lemma pollTurn_routed client body msg content ch c :
  RawMessage.Decode RawMessage.zero body (signKey client) = Ok msg ->
  parseContent (Header.MsgType (RawMessage.Header msg)) (RawMessage.Content msg) = Ok content ->
  ioChannels client !! Header.MsgID (RawMessage.ParentHeader msg) = Some ch ->
  chans client !! ch = Some c ->
  closed c = false ->
  pollTurn client body =
    Ok (withChans client
          (if isIdleStatus content
           then delete (Header.MsgID (RawMessage.ParentHeader msg)) (ioChannels client)
           else ioChannels client)
          (<[ch := {| sent := sent c ++ [content]; closed := isIdleStatus content |}]>
             (chans client))).
Proof.
  intros Hd Hp Hch Hc Hopen.
  pose proof (lookup_lt_Some _ _ _ Hc) as Hlt.
  rewrite (pollTurn_decoded _ _ _ _ Hd Hp).
  unfold getIOChannel. rewrite Hch. unfold send. rewrite Hc, Hopen.
  cbn [mbind outcome_bind]. destruct (isIdleStatus content); [|reflexivity].
  unfold deleteIOChannel. cbn [ioChannels withChans]. rewrite Hch.
  unfold close. cbn [chans withChans].
  rewrite list_lookup_insert_eq by exact Hlt. cbn [closed sent mbind outcome_bind].
  now rewrite list_insert_insert_eq.
Qed.

(** X12.  Routing.  A decoded message whose parent-id has an open entry is
    delivered on the channel of that entry, after everything sent on it
    before; no other channel changes.  The entry stays, and the channel
    stays open, unless the content is the idle status: then the channel is
    closed and the entry removed, and no other entry changes. *)
Theorem pollTurn_delivers client body msg content ch c :
  RawMessage.Decode RawMessage.zero body (signKey client) = Ok msg ->
  parseContent (Header.MsgType (RawMessage.Header msg)) (RawMessage.Content msg) = Ok content ->
  ioChannels client !! Header.MsgID (RawMessage.ParentHeader msg) = Some ch ->
  chans client !! ch = Some c ->
  closed c = false ->
  exists client',
    pollTurn client body = Ok client'
    /\ chans client' !! ch
       = Some {| sent := sent c ++ [content]; closed := isIdleStatus content |}
    /\ (forall ch', ch' <> ch -> chans client' !! ch' = chans client !! ch')
    /\ ioChannels client' !! Header.MsgID (RawMessage.ParentHeader msg)
       = (if isIdleStatus content then None else Some ch)
    /\ (forall id, id <> Header.MsgID (RawMessage.ParentHeader msg) ->
          ioChannels client' !! id = ioChannels client !! id).
Proof.
  intros Hd Hp Hch Hc Hopen.
  pose proof (lookup_lt_Some _ _ _ Hc) as Hlt.
  eexists. split; [apply (pollTurn_routed _ _ _ _ _ _ Hd Hp Hch Hc Hopen)|].
  cbn [chans ioChannels withChans]. split; [|split; [|split]].
  - now apply list_lookup_insert_eq.
  - intros ch' Hne. now apply list_lookup_insert_ne.
  - destruct (isIdleStatus content); [apply lookup_delete_eq|exact Hch].
  - intros id Hne. destruct (isIdleStatus content); [|reflexivity].
    now apply lookup_delete_ne.
Qed.

Lemma pollTurn_delivers_witness :
  pollTurn (Fixtures.client1 None) (Fixtures.streamFor None Fixtures.execHeader)
    = Ok (Fixtures.client1Streamed None)
  /\ chans (Fixtures.client1Streamed None) !! 0
     = Some {| sent := [] ++ [Fixtures.streamed]; closed := isIdleStatus Fixtures.streamed |}.
Proof.
  destruct (pollTurn_delivers (Fixtures.client1 None)
              (Fixtures.streamFor None Fixtures.execHeader)
              (Fixtures.rawOf (Fixtures.kernelHeader "k-out" "stream") Fixtures.execHeader
                 (JSON.Object [("name", JSON.Str "stdout"); ("text", JSON.Str "4")]))
              Fixtures.streamed 0 {| sent := []; closed := false |})
    as (client' & Hturn & Hsent & _); try (vm_compute; reflexivity).
  assert (E : client' = Fixtures.client1Streamed None).
  { assert (H : pollTurn (Fixtures.client1 None) (Fixtures.streamFor None Fixtures.execHeader)
                = Ok (Fixtures.client1Streamed None)) by (vm_compute; reflexivity).
    rewrite H in Hturn. now injection Hturn. }
  subst client'. split; [exact Hturn|exact Hsent].
Defined.

(** X13.  Unsolicited traffic.  A decoded message whose parent-id has no
    entry and whose parent is not an execute request changes nothing,
    whatever its content is, the idle status included. *)
Theorem pollTurn_unsolicited client body msg content :
  RawMessage.Decode RawMessage.zero body (signKey client) = Ok msg ->
  parseContent (Header.MsgType (RawMessage.Header msg)) (RawMessage.Content msg) = Ok content ->
  ioChannels client !! Header.MsgID (RawMessage.ParentHeader msg) = None ->
  Header.MsgType (RawMessage.ParentHeader msg) <> RequestExecute ->
  pollTurn client body = Ok client.
Proof.
  intros Hd Hp Hn Ht. rewrite (pollTurn_unrouted _ _ _ _ Hd Hp Hn).
  unfold maybeShouldListen.
  destruct (String.eqb_spec (Header.MsgType (RawMessage.ParentHeader msg)) RequestExecute);
    [contradiction|reflexivity].
Qed.

Lemma pollTurn_unsolicited_witness :
  pollTurn (Fixtures.client1 None) (Fixtures.idleFor None Header.zero)
  = Ok (Fixtures.client1 None).
Proof.
  apply (pollTurn_unsolicited (Fixtures.client1 None) _
           (Fixtures.idleRaw Header.zero) (PStatus Fixtures.idleStatus)).
  - vm_compute. reflexivity.
  - vm_compute. reflexivity.
  - vm_compute. reflexivity.
  - vm_compute. discriminate.
Defined.


End Routing.

(** ** The table as the client keeps it *)

Section Table.

Lemma wellFormed_routed client id ch c content (idle : bool) :
  wellFormed client ->
  ioChannels client !! id = Some ch ->
  chans client !! ch = Some c ->
  wellFormed
    (withChans client
       (if idle then delete id (ioChannels client) else ioChannels client)
       (<[ch := {| sent := sent c ++ [content]; closed := idle |}]> (chans client))).
Proof.
  intros [Hopen Hinj] Hch Hc. pose proof (lookup_lt_Some _ _ _ Hc) as Hlt.
  split; cbn [ioChannels chans withChans].
  - intros id0 ch0 H0. destruct idle.
    + apply lookup_delete_Some in H0 as [Hne H0].
      assert (ch0 <> ch) by (intros ->; apply Hne; now apply (Hinj id id0 ch)).
      rewrite list_lookup_insert_ne by congruence. now apply (Hopen id0).
    + destruct (decide (ch0 = ch)) as [->|Hne].
      * rewrite list_lookup_insert_eq by exact Hlt. eauto.
      * rewrite list_lookup_insert_ne by congruence. now apply (Hopen id0).
  - intros id1 id2 ch0 H1 H2. destruct idle.
    + apply lookup_delete_Some in H1 as [_ H1]. apply lookup_delete_Some in H2 as [_ H2].
      now apply (Hinj id1 id2 ch0).
    + now apply (Hinj id1 id2 ch0).
Qed.

Lemma addIOChannel_spec client id client' ch :
  addIOChannel client id = (client', ch) ->
  wellFormed client ->
  wellFormed client'
  /\ getIOChannel client' id = Some ch
  /\ chans client !! ch = None
  /\ chans client' !! ch = Some {| sent := []; closed := false |}
  /\ (forall id', id' <> id -> getIOChannel client' id' = getIOChannel client id')
  /\ (forall i c, chans client !! i = Some c -> chans client' !! i = Some c).
Proof.
  unfold addIOChannel, getIOChannel. intros [= <- <-] [Hopen Hinj].
  cbn [ioChannels chans withChans].
  assert (Hold : forall i c, chans client !! i = Some c ->
                   (chans client ++ [{| sent := []; closed := false |}]) !! i = Some c).
  { intros i c Hi. rewrite lookup_app_l; [exact Hi|]. now apply lookup_lt_Some in Hi. }
  split; [split|split; [|split; [|split; [|split]]]]; cbn [ioChannels chans withChans].
  - intros id0 ch0 H0. apply lookup_insert_Some in H0 as [[_ <-]|[_ H0]].
    + exists {| sent := []; closed := false |}. split; [|reflexivity].
      now apply list_lookup_middle.
    + destruct (Hopen _ _ H0) as (c & Hc & Ho). exists c. split; [now apply Hold|exact Ho].
  - intros id1 id2 ch0 H1 H2.
    apply lookup_insert_Some in H1 as [[E1 <-]|[N1 H1]];
      apply lookup_insert_Some in H2 as [[E2 E]|[N2 H2]].
    + congruence.
    + destruct (Hopen _ _ H2) as (c & Hc & _). apply lookup_lt_Some in Hc. lia.
    + subst ch0. destruct (Hopen _ _ H1) as (c & Hc & _). apply lookup_lt_Some in Hc. lia.
    + now apply (Hinj id1 id2 ch0).
  - apply lookup_insert_eq.
  - now apply lookup_ge_None_2.
  - now apply list_lookup_middle.
  - intros id' Hne. now apply lookup_insert_ne.
  - exact Hold.
Qed.

(** X15.  [addIOChannel] keeps the table well formed: the identifier is
    mapped to a channel that did not exist before and is open and empty, the
    entries of the other identifiers and every channel made before are as
    they were.  (An identifier that was registered already now names the
    new channel.) *)
Theorem addIOChannel_registers client id client' ch :
  addIOChannel client id = (client', ch) ->
  wellFormed client ->
  wellFormed client'
  /\ getIOChannel client' id = Some ch
  /\ chans client !! ch = None
  /\ chans client' !! ch = Some {| sent := []; closed := false |}
  /\ (forall id', id' <> id -> getIOChannel client' id' = getIOChannel client id')
  /\ (forall i c, chans client !! i = Some c -> chans client' !! i = Some c).
Proof. apply addIOChannel_spec. Qed.

Lemma wellFormed_empty key sess :
  wellFormed {| signKey := key; session := sess; ioChannels := ∅; chans := [] |}.
Proof. split; cbn [ioChannels]; intros *; rewrite lookup_empty; discriminate. Qed.

Lemma addIOChannel_registers_witness :
  addIOChannel (Fixtures.client0 None) "m1" = (Fixtures.client1 None, 0)
  /\ wellFormed (Fixtures.client1 None)
  /\ getIOChannel (Fixtures.client1 None) "m1" = Some 0.
Proof.
  assert (H : addIOChannel (Fixtures.client0 None) "m1" = (Fixtures.client1 None, 0))
    by reflexivity.
  destruct (addIOChannel_registers _ _ _ _ H (wellFormed_empty None "s1")) as (Hw & Hg & _).
  split; [exact H|]. split; [exact Hw|exact Hg].
Defined.

Lemma pollTurn_keeps client body :
  wellFormed client ->
  match pollTurn client body with
  | Ok client' => wellFormed client'
  | Err _ => True
  | Panic p => RawMessage.Decode RawMessage.zero body (signKey client) = Panic p
  end.
Proof.
  intros Hw.
  destruct (RawMessage.Decode RawMessage.zero body (signKey client)) as [msg|e|p] eqn:Hd.
  - destruct (parseContent (Header.MsgType (RawMessage.Header msg)) (RawMessage.Content msg))
      as [content|e|p] eqn:Hp.
    + destruct (ioChannels client !! Header.MsgID (RawMessage.ParentHeader msg))
        as [ch|] eqn:Hch.
      * destruct (proj1 Hw _ _ Hch) as (c & Hc & Ho).
        rewrite (pollTurn_routed _ _ _ _ _ _ Hd Hp Hch Hc Ho).
        now apply wellFormed_routed.
      * rewrite (pollTurn_unrouted _ _ _ _ Hd Hp Hch).
        now destruct (maybeShouldListen _).
    + unfold pollTurn. now rewrite Hd, Hp.
    + pose proof (parseContent_cases (Header.MsgType (RawMessage.Header msg))
                    (RawMessage.Content msg)) as H. now rewrite Hp in H.
  - unfold pollTurn. now rewrite Hd.
  - unfold pollTurn. now rewrite Hd.
Qed.

(** X16.  A turn of [pollIO] keeps the table well formed, and on a well
    formed table it never sends on a closed channel and never closes a
    channel twice: its only panic is the panic of [RawMessage.Decode] on
    frames that are too few. *)
Theorem pollTurn_wellFormed client body :
  wellFormed client ->
  match pollTurn client body with
  | Ok client' => wellFormed client'
  | Err _ => True
  | Panic p => RawMessage.Decode RawMessage.zero body (signKey client) = Panic p
  end.
Proof. apply pollTurn_keeps. Qed.

Lemma pollTurn_wellFormed_witness :
  pollTurn (Fixtures.client1 None) (Fixtures.idleFor None Fixtures.execHeader)
    = Ok (Fixtures.client1Idle None)
  /\ wellFormed (Fixtures.client1Idle None).
Proof.
  assert (H : pollTurn (Fixtures.client1 None) (Fixtures.idleFor None Fixtures.execHeader)
              = Ok (Fixtures.client1Idle None)) by (vm_compute; reflexivity).
  split; [exact H|].
  assert (Hw : wellFormed (Fixtures.client1 None)).
  { apply (addIOChannel_spec (Fixtures.client0 None) "m1" _ 0 eq_refl
             (wellFormed_empty None "s1")). }
  pose proof (pollTurn_wellFormed _ (Fixtures.idleFor None Fixtures.execHeader) Hw) as G.
  rewrite H in G. exact G.
Defined.

End Table.

(** ** Order of delivery, and the end of a channel *)

Section Delivery.

(** X17.  Delivery is in order.  When the messages of an input all belong
    to one registered command and none is the idle status, [pollIO] sends
    their contents on the channel of the command in the order of arrival,
    after what was sent before; the channel stays open, the table is as it
    was, no other channel changes, and the loop goes on receiving. *)
Theorem pollIO_in_order bodies : forall client contents A ch c,
  ioChannels client !! A = Some ch ->
  chans client !! ch = Some c ->
  closed c = false ->
  Forall2 (routedTo (signKey client) A) bodies contents ->
  exists client',
    pollIO client (RecvMsg <$> bodies) = Receiving client'
    /\ chans client' !! ch = Some {| sent := sent c ++ contents; closed := false |}
    /\ ioChannels client' = ioChannels client
    /\ (forall ch', ch' <> ch -> chans client' !! ch' = chans client !! ch').
Proof.
  induction bodies as [|body bodies IH]; intros client contents A ch c Hch Hc Ho HF.
  - apply Forall2_nil_inv_l in HF as ->. exists client.
    rewrite app_nil_r. destruct c as [s cl]. cbn in Ho. subst cl. auto.
  - apply Forall2_cons_inv_l in HF as (content & contents' & Hr & HF & ->).
    destruct Hr as (msg & Hd & Hp & HA & Hidle). subst A.
    pose proof (lookup_lt_Some _ _ _ Hc) as Hlt.
    pose proof (pollTurn_routed _ _ _ _ _ _ Hd Hp Hch Hc Ho) as Hturn.
    rewrite Hidle in Hturn.
    set (client1 := withChans client (ioChannels client)
                      (<[ch := {| sent := sent c ++ [content]; closed := false |}]>
                         (chans client))) in *.
    destruct (IH client1 contents' (Header.MsgID (RawMessage.ParentHeader msg)) ch
                {| sent := sent c ++ [content]; closed := false |})
      as (client' & Hrun & Hsent & Htbl & Hoth).
    + exact Hch.
    + unfold client1. cbn [chans withChans]. now apply list_lookup_insert_eq.
    + reflexivity.
    + exact HF.
    + exists client'. cbn [fmap list_fmap pollIO]. rewrite Hturn.
      split; [exact Hrun|]. split; [|split].
      * rewrite Hsent. cbn [sent]. now rewrite <- app_assoc.
      * exact Htbl.
      * intros ch' Hne. rewrite (Hoth ch' Hne). unfold client1. cbn [chans withChans].
        now apply list_lookup_insert_ne.
Qed.

Lemma pollIO_in_order_witness :
  exists client',
    pollIO (Fixtures.client1 None)
      (RecvMsg <$> [Fixtures.streamFor None Fixtures.execHeader;
                    Fixtures.streamFor None Fixtures.execHeader])
    = Receiving client'
    /\ chans client' !! 0
       = Some {| sent := [] ++ [Fixtures.streamed; Fixtures.streamed]; closed := false |}.
Proof.
  destruct (pollIO_in_order
              [Fixtures.streamFor None Fixtures.execHeader;
               Fixtures.streamFor None Fixtures.execHeader]
              (Fixtures.client1 None) [Fixtures.streamed; Fixtures.streamed] "m1" 0
              {| sent := []; closed := false |})
    as (client' & Hrun & Hsent & _); try reflexivity.
  - repeat constructor;
      exists (Fixtures.rawOf (Fixtures.kernelHeader "k-out" "stream") Fixtures.execHeader
                (JSON.Object [("name", JSON.Str "stdout"); ("text", JSON.Str "4")]));
      repeat split; vm_compute; reflexivity.
  - exists client'. split; [exact Hrun|exact Hsent].
Defined.

Lemma deleteIOChannel_removes client id client' :
  deleteIOChannel client id = Ok client' -> ioChannels client' !! id = None.
Proof.
  unfold deleteIOChannel.
  destruct (ioChannels client !! id) as [ch|]; cbn [mbind outcome_bind].
  - unfold close. destruct (chans client !! ch) as [c|]; [destruct (closed c)|];
      cbn [mbind outcome_bind]; try discriminate;
      intros [= <-]; cbn [ioChannels withChans]; apply lookup_delete_eq.
  - intros [= <-]. cbn [ioChannels withChans]. apply lookup_delete_eq.
Qed.

(** X18.  [deleteIOChannel] can be repeated: once it has returned, the
    identifier has no entry, and a second call for it closes nothing and
    leaves the client as it is. *)
Theorem deleteIOChannel_twice client id client' :
  deleteIOChannel client id = Ok client' ->
  ioChannels client' !! id = None
  /\ deleteIOChannel client' id = Ok client'.
Proof.
  intros H. apply deleteIOChannel_removes in H.
  split; [exact H|]. now apply deleteIOChannel_absent.
Qed.

Lemma deleteIOChannel_twice_witness :
  deleteIOChannel (Fixtures.client1 None) "m1"
    = Ok (withChans (Fixtures.client1 None) ∅ [{| sent := []; closed := true |}])
  /\ deleteIOChannel (withChans (Fixtures.client1 None) ∅ [{| sent := []; closed := true |}])
       "m1"
     = Ok (withChans (Fixtures.client1 None) ∅ [{| sent := []; closed := true |}]).
Proof.
  assert (H : deleteIOChannel (Fixtures.client1 None) "m1"
              = Ok (withChans (Fixtures.client1 None) ∅ [{| sent := []; closed := true |}]))
    by (vm_compute; reflexivity).
  split; [exact H|]. exact (proj2 (deleteIOChannel_twice _ _ _ H)).
Defined.

End Delivery.

(** ** Close *)

Section Closing.

Lemma close_other client ch client' :
  close client ch = Ok client' ->
  ioChannels client' = ioChannels client
  /\ signKey client' = signKey client
  /\ (forall ch', ch' <> ch -> chans client' !! ch' = chans client !! ch').
Proof.
  unfold close. destruct (chans client !! ch) as [c|]; [destruct (closed c)|];
    try discriminate; intros [= <-]; cbn [ioChannels signKey chans withChans];
    repeat split; try reflexivity.
  intros ch' Hne. now apply list_lookup_insert_ne.
Qed.

(** Closing the channels of a list without repetition, all of them open:
    every one of them is closed, with what was sent on it kept, and nothing
    else changes. *)
Lemma closeList_open l : forall client,
  NoDup l ->
  (forall ch, ch ∈ l -> exists c, chans client !! ch = Some c /\ closed c = false) ->
  exists client',
    closeList client l = Ok client'
    /\ ioChannels client' = ioChannels client
    /\ signKey client' = signKey client
    /\ (forall ch c, ch ∈ l -> chans client !! ch = Some c ->
          chans client' !! ch = Some {| sent := sent c; closed := true |})
    /\ (forall ch, ch ∉ l -> chans client' !! ch = chans client !! ch).
Proof.
  induction l as [|h l IH]; intros client Hnd Hopen.
  - exists client. repeat split; auto. intros ch c Hin. now apply elem_of_nil in Hin.
  - apply NoDup_cons in Hnd as [Hh Hnd].
    destruct (Hopen h ltac:(left)) as (c & Hc & Ho).
    pose proof (lookup_lt_Some _ _ _ Hc) as Hlt.
    assert (Hclose : close client h
                     = Ok (withChans client (ioChannels client)
                             (<[h := {| sent := sent c; closed := true |}]> (chans client)))).
    { unfold close. now rewrite Hc, Ho. }
    set (client1 := withChans client (ioChannels client)
                      (<[h := {| sent := sent c; closed := true |}]> (chans client))) in *.
    destruct (IH client1 Hnd) as (client' & Hrun & Htbl & Hkey & Hin & Hout).
    { intros ch Hch. unfold client1. cbn [chans withChans].
      rewrite list_lookup_insert_ne by (intros ->; contradiction).
      apply Hopen. now right. }
    exists client'. cbn [closeList]. rewrite Hclose. cbn [mbind outcome_bind].
    split; [exact Hrun|]. split; [exact Htbl|]. split; [exact Hkey|]. split.
    + intros ch c0 Hch Hc0. apply elem_of_cons in Hch as [->|Hch].
      * rewrite (Hout h Hh). unfold client1. cbn [chans withChans].
        rewrite list_lookup_insert_eq by exact Hlt. congruence.
      * apply Hin; [exact Hch|]. unfold client1. cbn [chans withChans].
        rewrite list_lookup_insert_ne by (intros ->; contradiction). exact Hc0.
    + intros ch Hch. apply not_elem_of_cons in Hch as [Hne Hch].
      rewrite (Hout ch Hch). unfold client1. cbn [chans withChans].
      now apply list_lookup_insert_ne.
Qed.

(** Closing a list of channels of which one is closed already panics. *)
Lemma closeList_closed l : forall client ch c,
  ch ∈ l -> chans client !! ch = Some c -> closed c = true ->
  closeList client l = Panic CloseOfClosedChannel.
Proof.
  induction l as [|h l IH]; intros client ch c Hin Hc Hcl.
  - now apply elem_of_nil in Hin.
  - cbn [closeList]. destruct (close client h) as [client1|e|p] eqn:E.
    + cbn [mbind outcome_bind].
      assert (h <> ch).
      { intros ->. unfold close in E. rewrite Hc, Hcl in E. discriminate. }
      apply elem_of_cons in Hin as [->|Hin]; [congruence|].
      apply (IH client1 ch c Hin); [|exact Hcl].
      apply close_other in E as (_ & _ & Hoth). rewrite Hoth by congruence. exact Hc.
    + unfold close in E. destruct (chans client !! h) as [c0|]; [destruct (closed c0)|];
        discriminate.
    + unfold close in E. destruct (chans client !! h) as [c0|]; [destruct (closed c0)|];
        try discriminate. now injection E as <-.
Qed.

Lemma wellFormed_NoDup client :
  wellFormed client -> NoDup (map_to_list (ioChannels client)).*2.
Proof.
  intros [_ Hinj]. apply NoDup_fmap_2_strong; [|apply NoDup_map_to_list].
  intros [id1 ch1] [id2 ch2] H1 H2 E. cbn in E. subst ch2.
  apply elem_of_map_to_list in H1, H2. f_equal. now apply (Hinj id1 id2 ch1).
Qed.

Lemma closeAll_spec client :
  wellFormed client ->
  exists client',
    closeAll client = Ok client'
    /\ ioChannels client' = ioChannels client
    /\ signKey client' = signKey client
    /\ (forall id ch, ioChannels client !! id = Some ch ->
          exists c, chans client !! ch = Some c
                    /\ chans client' !! ch = Some {| sent := sent c; closed := true |})
    /\ (forall ch, (forall id, ioChannels client !! id <> Some ch) ->
          chans client' !! ch = chans client !! ch).
Proof.
  intros Hw. unfold closeAll.
  destruct (closeList_open (map_to_list (ioChannels client)).*2 client
              (wellFormed_NoDup _ Hw)) as (client' & Hrun & Htbl & Hkey & Hin & Hout).
  { intros ch Hch. apply list_elem_of_fmap in Hch as ([id ch0] & -> & Hch).
    apply elem_of_map_to_list in Hch. now apply (proj1 Hw id). }
  exists client'. split; [exact Hrun|]. split; [exact Htbl|]. split; [exact Hkey|]. split.
  - intros id ch Hch. destruct (proj1 Hw _ _ Hch) as (c & Hc & _).
    exists c. split; [exact Hc|]. apply Hin; [|exact Hc].
    apply list_elem_of_fmap. exists (id, ch). split; [reflexivity|].
    now apply elem_of_map_to_list.
  - intros ch Hno. apply Hout. intros Hch.
    apply list_elem_of_fmap in Hch as ([id ch0] & -> & Hch).
    apply elem_of_map_to_list in Hch. now apply (Hno id).
Qed.

(** X19.  On a well formed table [Close] closes the channel of every
    entry, with what was sent on it kept, and changes no other channel; it
    removes no entry.  It returns the error of the shell socket when there
    is one, and else that of the broadcast socket. *)
Theorem Close_closes_all client err1 err2 :
  wellFormed client ->
  exists client',
    Close client err1 err2
    = Ok (client', match err1 with
                   | Some e => Some (ErrTransport e)
                   | None => ErrTransport <$> err2
                   end)
    /\ ioChannels client' = ioChannels client
    /\ (forall id ch, ioChannels client !! id = Some ch ->
          exists c, chans client !! ch = Some c
                    /\ chans client' !! ch = Some {| sent := sent c; closed := true |})
    /\ (forall ch, (forall id, ioChannels client !! id <> Some ch) ->
          chans client' !! ch = chans client !! ch).
Proof.
  intros Hw. destruct (closeAll_spec client Hw) as (client' & Hrun & Htbl & _ & Hin & Hout).
  exists client'. unfold Close. rewrite Hrun. cbn [mbind outcome_bind]. auto.
Qed.

Lemma wellFormed_client1 key : wellFormed (Fixtures.client1 key).
Proof.
  apply (addIOChannel_spec (Fixtures.client0 key) "m1" _ 0 eq_refl (wellFormed_empty key "s1")).
Qed.

Lemma Close_closes_all_witness :
  exists client',
    Close (Fixtures.client1 None) None (Some "EOF") = Ok (client', Some (ErrTransport "EOF"))
    /\ ioChannels client' = ioChannels (Fixtures.client1 None).
Proof.
  destruct (Close_closes_all (Fixtures.client1 None) None (Some "EOF")
              (wellFormed_client1 None)) as (client' & H & Ht & _).
  exists client'. split; [exact H|exact Ht].
Defined.

(** X20.  After [Close] the entries are still in the table and their
    channels are closed: a second [Close] panics as soon as one command is
    registered, and so does the loop of [pollIO] when a message for a
    registered command decodes after the [Close]. *)
Theorem Close_then_panics client err1 err2 client' r id ch :
  wellFormed client ->
  Close client err1 err2 = Ok (client', r) ->
  ioChannels client !! id = Some ch ->
  (forall e1 e2, Close client' e1 e2 = Panic CloseOfClosedChannel)
  /\ (forall body msg content rest,
        RawMessage.Decode RawMessage.zero body (signKey client') = Ok msg ->
        parseContent (Header.MsgType (RawMessage.Header msg)) (RawMessage.Content msg)
          = Ok content ->
        Header.MsgID (RawMessage.ParentHeader msg) = id ->
        pollIO client' (RecvMsg body :: rest) = Panicked SendOnClosedChannel).
Proof.
  intros Hw HC Hid.
  destruct (closeAll_spec client Hw) as (c1 & Hrun & Htbl & _ & Hin & _).
  unfold Close in HC. rewrite Hrun in HC. cbn [mbind outcome_bind] in HC.
  injection HC as <- _.
  destruct (Hin _ _ Hid) as (c & Hc & Hc').
  split.
  - intros e1 e2. unfold Close, closeAll.
    rewrite (closeList_closed _ c1 ch {| sent := sent c; closed := true |});
      [reflexivity| |exact Hc'|reflexivity].
    apply list_elem_of_fmap. exists (id, ch). split; [reflexivity|].
    apply elem_of_map_to_list. now rewrite Htbl.
  - intros body msg content rest Hd Hp HA.
    cbn [pollIO]. rewrite (pollTurn_decoded _ _ _ _ Hd Hp). rewrite HA.
    unfold getIOChannel. rewrite Htbl, Hid. unfold send. rewrite Hc'. reflexivity.
Qed.

Lemma Close_then_panics_witness :
  Close (Fixtures.client1 None) None None
    = Ok (withChans (Fixtures.client1 None) (ioChannels (Fixtures.client1 None))
            [{| sent := []; closed := true |}], None)
  /\ Close (withChans (Fixtures.client1 None) (ioChannels (Fixtures.client1 None))
              [{| sent := []; closed := true |}]) None None
     = Panic CloseOfClosedChannel.
Proof.
  assert (H : Close (Fixtures.client1 None) None None
              = Ok (withChans (Fixtures.client1 None) (ioChannels (Fixtures.client1 None))
                      [{| sent := []; closed := true |}], None))
    by (vm_compute; reflexivity).
  split; [exact H|].
  apply (Close_then_panics _ _ _ _ _ "m1" 0 (wellFormed_client1 None) H).
  vm_compute. reflexivity.
Defined.

End Closing.

(** ** Strings: what [JSON.escape] writes, [JSON.parseString] reads *)

(** Case analysis on a character: bit by bit, as a pattern on a character
    tests them, leaving a branch as soon as [tac] closes it. *)
Ltac ascii_path c tac :=
  let b0 := fresh "b0" in let b1 := fresh "b1" in let b2 := fresh "b2" in
  let b3 := fresh "b3" in let b4 := fresh "b4" in let b5 := fresh "b5" in
  let b6 := fresh "b6" in let b7 := fresh "b7" in
  destruct c as [b0 b1 b2 b3 b4 b5 b6 b7];
  destruct b0; try (solve [tac]); destruct b1; try (solve [tac]);
  destruct b2; try (solve [tac]); destruct b3; try (solve [tac]);
  destruct b4; try (solve [tac]); destruct b5; try (solve [tac]);
  destruct b6; try (solve [tac]); destruct b7; try (solve [tac]).

(** A list of characters in a hypothesis, one at a time. *)
Ltac each_char H := cbn [In] in H; repeat (destruct H as [<-|H]); [..|destruct H].

Section Strings.
#[local] Arguments String.append : simpl nomatch.

Lemma append_assoc (a b c : string) : (a +:+ b) +:+ c = a +:+ (b +:+ c).
Proof. induction a as [|x a IH]; [reflexivity|]. cbn. now rewrite IH. Qed.

Lemma byteZ_range c : (0 <= byteZ c < 256)%Z.
Proof. unfold byteZ. pose proof (N_ascii_bounded c). lia. Qed.

Lemma Zbyte_byteZ c : Zbyte (byteZ c) = c.
Proof.
  unfold Zbyte. change 255%Z with (Z.ones 8). rewrite Z.land_ones by lia.
  rewrite Z.mod_small by (change (2 ^ 8)%Z with 256%Z; apply byteZ_range).
  unfold byteZ. rewrite N2Z.id. apply ascii_N_embedding.
Qed.

Lemma digit_cases c :
  JSON.isDigit c = true -> In c ["0"; "1"; "2"; "3"; "4"; "5"; "6"; "7"; "8"; "9"]%char.
Proof.
  unfold JSON.isDigit. intros H. apply andb_true_iff in H as [H1 H2].
  apply Z.leb_le in H1, H2. rewrite <- (Zbyte_byteZ c).
  assert (byteZ c = 48 \/ byteZ c = 49 \/ byteZ c = 50 \/ byteZ c = 51 \/ byteZ c = 52
          \/ byteZ c = 53 \/ byteZ c = 54 \/ byteZ c = 55 \/ byteZ c = 56
          \/ byteZ c = 57)%Z as Hc by lia.
  repeat destruct Hc as [->|Hc]; [..|rewrite Hc]; vm_compute; auto 12.
Qed.

Lemma byteZ_eq c z : byteZ c = z -> c = Zbyte z.
Proof. intros <-. now rewrite Zbyte_byteZ. Qed.

Lemma hex4_u00 c rest :
  JSON.hex4 (String "0" (String "0" (String (Hex.digit (Z.shiftr (byteZ c) 4))
      (String (Hex.digit (Z.land (byteZ c) 15)) rest))))
  = Some (byteZ c, rest).
Proof.
  unfold JSON.hex4. destruct (hex_byte c) as (-> & -> & _).
  change (Hex.fromHexChar "0") with (Some 0%Z). cbn iota. f_equal. f_equal.
  pose proof (byteZ_range c) as Hr.
  rewrite Z.shiftr_div_pow2 by lia. change 15%Z with (Z.ones 4).
  rewrite Z.land_ones by lia. change (2 ^ 4)%Z with 16%Z.
  pose proof (Z.div_mod (byteZ c) 16 ltac:(lia)). lia.
Qed.

Lemma utf8_ascii c : (byteZ c < 128)%Z -> JSON.utf8 (byteZ c) = String c EmptyString.
Proof.
  intros H. unfold JSON.utf8. destruct (Z.ltb_spec (byteZ c) 128); [|lia].
  unfold bytes_of_Zs. cbn [map string_of_list_ascii]. now rewrite Zbyte_byteZ.
Qed.

Lemma ps_quote f r : JSON.parseString (S f) (String JSON.dq r) = Some (EmptyString, r).
Proof. reflexivity. Qed.

Lemma ps_simple f e b r :
  e <> "u"%char -> JSON.simpleEscape e = Some b ->
  JSON.parseString (S f) (String JSON.backslash (String e r))
  = andThen (JSON.parseString f r) (String b).
Proof.
  intros Hu Hb. cbn [JSON.parseString].
  change (Ascii.eqb JSON.backslash JSON.dq) with false.
  change (Ascii.eqb JSON.backslash JSON.backslash) with true. cbn iota.
  ascii_path e ltac:(first [congruence | rewrite Hb; reflexivity]).
Qed.

Lemma ps_unicode f r1 u r2 :
  JSON.hex4 r1 = Some (u, r2) -> JSON.isSurrogate u = false ->
  JSON.parseString (S f) (String JSON.backslash (String "u" r1))
  = andThen (JSON.parseString f r2) (fun t => JSON.utf8 u +:+ t).
Proof.
  intros H Hs. cbn [JSON.parseString].
  change (Ascii.eqb JSON.backslash JSON.dq) with false.
  change (Ascii.eqb JSON.backslash JSON.backslash) with true. cbn iota.
  rewrite H, Hs. reflexivity.
Qed.

Lemma ps_plain f c r :
  Ascii.eqb c JSON.dq = false -> Ascii.eqb c JSON.backslash = false ->
  (byteZ c <? 32)%Z = false ->
  JSON.parseString (S f) (String c r) = andThen (JSON.parseString f r) (String c).
Proof. intros H1 H2 H3. cbn [JSON.parseString]. now rewrite H1, H2, H3. Qed.

Lemma parseString_escape n : forall s fuel rest,
  String.length s <= n ->
  String.length (JSON.escape s) < fuel ->
  JSON.parseString fuel (JSON.escape s +:+ String JSON.dq rest) = Some (s, rest).
Proof.
  induction n as [|n IH]; intros s fuel rest Hn Hf.
  - destruct s; [|cbn in Hn; lia]. destruct fuel; [cbn in Hf; lia|]. reflexivity.
  - destruct s as [|c r]; [destruct fuel; [cbn in Hf; lia|]; reflexivity|].
    assert (Hr : String.length r <= n) by (cbn in Hn; lia).
    destruct fuel as [|fuel]; [lia|].
    cbn [JSON.escape] in *.
    destruct (Ascii.eqb c JSON.dq || Ascii.eqb c JSON.backslash)%bool eqn:E1.
    { cbn [String.length String.append] in Hf |- *.
      apply orb_true_iff in E1 as [E|E]; apply Ascii.eqb_eq in E; subst c.
      - rewrite (ps_simple fuel JSON.dq JSON.dq _ ltac:(discriminate) eq_refl).
        rewrite (IH r fuel rest Hr ltac:(lia)); reflexivity.
      - rewrite (ps_simple fuel JSON.backslash JSON.backslash _ ltac:(discriminate) eq_refl).
        rewrite (IH r fuel rest Hr ltac:(lia)); reflexivity. }
    apply orb_false_iff in E1 as [Edq Ebs].
    destruct (byteZ c =? 10)%Z eqn:E10.
    { apply Z.eqb_eq, byteZ_eq in E10. subst c.
      cbn [String.length String.append] in Hf |- *.
      rewrite (ps_simple fuel "n" "010" _ ltac:(discriminate) eq_refl).
      rewrite (IH r fuel rest Hr ltac:(lia)); reflexivity. }
    destruct (byteZ c =? 13)%Z eqn:E13.
    { apply Z.eqb_eq, byteZ_eq in E13. subst c.
      cbn [String.length String.append] in Hf |- *.
      rewrite (ps_simple fuel "r" "013" _ ltac:(discriminate) eq_refl).
      rewrite (IH r fuel rest Hr ltac:(lia)); reflexivity. }
    destruct (byteZ c =? 9)%Z eqn:E9.
    { apply Z.eqb_eq, byteZ_eq in E9. subst c.
      cbn [String.length String.append] in Hf |- *.
      rewrite (ps_simple fuel "t" "009" _ ltac:(discriminate) eq_refl).
      rewrite (IH r fuel rest Hr ltac:(lia)); reflexivity. }
    destruct ((byteZ c <? 32)%Z || Ascii.eqb c "<" || Ascii.eqb c ">" || Ascii.eqb c "&")%bool eqn:E5.
    { assert (Hlow : (byteZ c < 128)%Z).
      { repeat (apply orb_true_iff in E5 as [E5|E5]);
          [apply Z.ltb_lt in E5; lia| | |]; apply Ascii.eqb_eq in E5; subst c; reflexivity. }
      unfold JSON.u00 in *. cbn [String.append String.length] in Hf |- *.
      rewrite (ps_unicode fuel _ (byteZ c) _ (hex4_u00 c _)).
      2:{ unfold JSON.isSurrogate. destruct (Z.leb_spec 0xD800 (byteZ c)); [lia|reflexivity]. }
      rewrite (IH r fuel rest Hr ltac:(lia)). cbn [andThen].
      now rewrite (utf8_ascii c Hlow). }
    apply orb_false_iff in E5 as [E5 _]. apply orb_false_iff in E5 as [E5 _].
    apply orb_false_iff in E5 as [E5 _].
    assert (Hplain : forall t, String.length (JSON.escape t) < fuel -> String.length t <= n ->
              JSON.parseString (S fuel) (String c (JSON.escape t) +:+ String JSON.dq rest)
              = Some (String c t, rest)).
    { intros t Ht Hl. cbn [String.append]. rewrite (ps_plain fuel c _ Edq Ebs E5).
      now rewrite (IH t fuel rest Hl Ht). }
    destruct r as [|a [|b r']]; try (apply Hplain; [cbn [String.length] in Hf; lia|exact Hr]).
    destruct ((byteZ c =? 226) && (byteZ a =? 128) && ((byteZ b =? 168) || (byteZ b =? 169)))%Z%bool eqn:E6;
      [|apply Hplain; [cbn [String.length] in Hf; lia|exact Hr]].
    apply andb_true_iff in E6 as [E6 Eb]. apply andb_true_iff in E6 as [Ec Ea].
    apply Z.eqb_eq, byteZ_eq in Ec, Ea. subst c a.
    assert (Hr' : String.length r' <= n) by (cbn in Hr; lia).
    cbn [String.append String.length] in Hf |- *.
    apply orb_true_iff in Eb as [Eb|Eb]; apply Z.eqb_eq, byteZ_eq in Eb; subst b.
    + rewrite (ps_unicode fuel _ 0x2028%Z (JSON.escape r' +:+ String JSON.dq rest)); [|reflexivity..].
      rewrite (IH r' fuel rest Hr' ltac:(lia)). reflexivity.
    + rewrite (ps_unicode fuel _ 0x2029%Z (JSON.escape r' +:+ String JSON.dq rest)); [|reflexivity..].
      rewrite (IH r' fuel rest Hr' ltac:(lia)). reflexivity.
Qed.

End Strings.

(** ** Numbers: a literal is read where it stands *)

Section Numbers.
#[local] Arguments String.append : simpl nomatch.

Lemma spanDigits_app s rest d t :
  closing rest -> JSON.spanDigits s = (d, t) -> JSON.spanDigits (s +:+ rest) = (d, t +:+ rest).
Proof.
  intros Hc. revert d t. induction s as [|c r IH]; intros d t H.
  - injection H as <- <-. cbn [String.append].
    destruct rest as [|c r]; [reflexivity|].
    cbn in Hc. destruct Hc as [->|[->| ->]]; reflexivity.
  - cbn [JSON.spanDigits String.append] in *. destruct (JSON.isDigit c).
    + destruct (JSON.spanDigits r) as [d' t'] eqn:E. injection H as <- <-.
      now rewrite (IH _ _ eq_refl).
    + now injection H as <- <-.
Qed.

Lemma parseNumber_eq s :
  JSON.parseNumber s =
  let '(sign, s1) := signOf s in
  let '(int, s2) := JSON.spanDigits s1 in
  intOK int
    match fracOf s2 with
    | None => None
    | Some (fr, s3) =>
      match expOf s3 with
      | None => None
      | Some (ex, s4) => Some (sign +:+ int +:+ fr +:+ ex, s4)
      end
    end.
Proof. reflexivity. Qed.

Lemma signOf_app s rest sg s1 :
  closing rest -> signOf s = (sg, s1) -> signOf (s +:+ rest) = (sg, s1 +:+ rest).
Proof.
  intros Hc. destruct s as [|c r].
  - intros [= <- <-]. destruct rest as [|c r]; [reflexivity|].
    cbn in Hc. destruct Hc as [->|[->| ->]]; reflexivity.
  - ascii_path c ltac:(intros [= <- <-]; reflexivity).
Qed.

Lemma fracOf_app s rest fr s3 :
  closing rest -> fracOf s = Some (fr, s3) -> fracOf (s +:+ rest) = Some (fr, s3 +:+ rest).
Proof.
  intros Hc. destruct s as [|c r].
  - intros [= <- <-]. destruct rest as [|c r]; [reflexivity|].
    cbn in Hc. destruct Hc as [->|[->| ->]]; reflexivity.
  - ascii_path c ltac:(intros [= <- <-]; reflexivity).
    cbn [fracOf String.append]. destruct (JSON.spanDigits r) as [d t] eqn:E.
    rewrite (spanDigits_app _ _ _ _ Hc E). destruct d; [discriminate|].
    now intros [= <- <-].
Qed.

Lemma expSign_app r rest :
  closing rest -> r <> EmptyString ->
  (match r +:+ rest with
   | String "+" r' => ("+", r')
   | String "-" r' => ("-", r')
   | _ => (EmptyString, r +:+ rest)
   end)
  = (let '(sg, r1) :=
       match r with
       | String "+" r' => ("+", r')
       | String "-" r' => ("-", r')
       | _ => (EmptyString, r)
       end in (sg, r1 +:+ rest)).
Proof.
  intros Hc Hr. destruct r as [|c r]; [done|].
  ascii_path c ltac:(reflexivity).
Qed.

Lemma expOf_app s rest ex s4 :
  closing rest -> expOf s = Some (ex, s4) -> expOf (s +:+ rest) = Some (ex, s4 +:+ rest).
Proof.
  intros Hc. destruct s as [|e r].
  - intros [= <- <-]. destruct rest as [|c r]; [reflexivity|].
    cbn in Hc. destruct Hc as [->|[->| ->]]; reflexivity.
  - cbn [expOf String.append].
    destruct (Ascii.eqb e "e" || Ascii.eqb e "E")%bool; [|now intros [= <- <-]].
    destruct r as [|c r].
    + cbn. discriminate.
    + change (String c (r +:+ rest)) with (String c r +:+ rest).
      rewrite (expSign_app (String c r) rest Hc ltac:(discriminate)).
      destruct (match String c r with
                | String "+" r' => ("+", r')
                | String "-" r' => ("-", r')
                | _ => (EmptyString, String c r)
                end) as [sg r1].
      destruct (JSON.spanDigits r1) as [d t] eqn:E.
      rewrite (spanDigits_app _ _ _ _ Hc E). destruct d; [discriminate|].
      now intros [= <- <-].
Qed.

Lemma intOK_Some {A} int (x : option A) a : intOK int x = Some a -> x = Some a /\ intOK int x = x.
Proof.
  destruct int as [|c [|c' r]]; [discriminate| |].
  - ascii_path c ltac:(auto).
  - ascii_path c ltac:(first [discriminate | auto]).
Qed.

Lemma intOK_same {A B} int (x : option A) (y : option B) :
  intOK int x = x -> x <> None -> intOK int y = y.
Proof.
  destruct int as [|c [|c' r]]; [cbn; congruence| |].
  - ascii_path c ltac:(auto).
  - ascii_path c ltac:(first [cbn; congruence | auto]).
Qed.

Lemma parseNumber_app s rest lit t :
  closing rest -> JSON.parseNumber s = Some (lit, t) ->
  JSON.parseNumber (s +:+ rest) = Some (lit, t +:+ rest).
Proof.
  intros Hc. rewrite !parseNumber_eq.
  destruct (signOf s) as [sg s1] eqn:Es. rewrite (signOf_app _ _ _ _ Hc Es).
  destruct (JSON.spanDigits s1) as [int s2] eqn:Ei. rewrite (spanDigits_app _ _ _ _ Hc Ei).
  intros H. apply intOK_Some in H as [H Hi].
  rewrite (intOK_same int _ _ Hi ltac:(congruence)).
  destruct (fracOf s2) as [[fr s3]|] eqn:Ef; [|discriminate].
  rewrite (fracOf_app _ _ _ _ Hc Ef).
  destruct (expOf s3) as [[ex s4]|] eqn:Ee; [|discriminate].
  rewrite (expOf_app _ _ _ _ Hc Ee). now injection H as <- <-.
Qed.

Lemma parseNumber_head c r lit t :
  JSON.parseNumber (String c r) = Some (lit, t) -> c = "-"%char \/ JSON.isDigit c = true.
Proof.
  rewrite parseNumber_eq. destruct (ascii_dec c "-") as [->|Hn]; [auto|].
  assert (signOf (String c r) = (EmptyString, String c r)) as ->.
  { ascii_path c ltac:(first [reflexivity | congruence]). }
  cbn [JSON.spanDigits]. destruct (JSON.isDigit c); [auto|]. discriminate.
Qed.

Lemma noSpace_app a b : noSpace (a +:+ b) = noSpace a && noSpace b.
Proof. induction a as [|c a IH]; [reflexivity|]. cbn. now rewrite IH, andb_assoc. Qed.

Lemma digit_noSpace c : JSON.isDigit c = true -> JSON.isSpace c = false.
Proof. intros H. apply digit_cases in H. each_char H; reflexivity. Qed.

Lemma spanDigits_noSpace s d t : JSON.spanDigits s = (d, t) -> noSpace d = true.
Proof.
  revert d t. induction s as [|c r IH]; intros d t; cbn [JSON.spanDigits].
  - now intros [= <- <-].
  - destruct (JSON.isDigit c) eqn:E; [|now intros [= <- <-]].
    destruct (JSON.spanDigits r) as [d' t'] eqn:E'. intros [= <- <-].
    cbn. rewrite (digit_noSpace c E). exact (IH _ _ eq_refl).
Qed.

Lemma signOf_noSpace s sg s1 : signOf s = (sg, s1) -> noSpace sg = true.
Proof.
  destruct s as [|c r]; [now intros [= <- <-]|].
  ascii_path c ltac:(intros [= <- <-]; reflexivity).
Qed.

Lemma fracOf_noSpace s fr s3 : fracOf s = Some (fr, s3) -> noSpace fr = true.
Proof.
  destruct s as [|c r]; [now intros [= <- <-]|].
  ascii_path c ltac:(intros [= <- <-]; reflexivity).
  cbn [fracOf]. destruct (JSON.spanDigits r) as [d t] eqn:E.
  apply spanDigits_noSpace in E. destruct d; [discriminate|]. intros [= <- <-]. exact E.
Qed.

Lemma expOf_noSpace s ex s4 : expOf s = Some (ex, s4) -> noSpace ex = true.
Proof.
  destruct s as [|e r]; [now intros [= <- <-]|]. cbn [expOf].
  destruct (Ascii.eqb e "e" || Ascii.eqb e "E")%bool eqn:He; [|now intros [= <- <-]].
  assert (JSON.isSpace e = false) as Hs.
  { apply orb_true_iff in He as [He|He]; apply Ascii.eqb_eq in He; now subst e. }
  assert (exists sg r1, (match r with
                         | String "+" r' => ("+", r')
                         | String "-" r' => ("-", r')
                         | _ => (EmptyString, r)
                         end) = (sg, r1) /\ noSpace sg = true) as (sg & r1 & -> & Hsg).
  { destruct r as [|c r]; [eauto|].
    ascii_path c ltac:(eauto). }
  destruct (JSON.spanDigits r1) as [d t] eqn:E. apply spanDigits_noSpace in E.
  destruct d; [discriminate|].
  intros [= <- <-]. change (negb (JSON.isSpace e) && noSpace (sg +:+ String a d) = true).
  now rewrite Hs, noSpace_app, Hsg, E.
Qed.

Lemma parseNumber_noSpace s lit t : JSON.parseNumber s = Some (lit, t) -> noSpace lit = true.
Proof.
  rewrite parseNumber_eq.
  destruct (signOf s) as [sg s1] eqn:Es. destruct (JSON.spanDigits s1) as [int s2] eqn:Ei.
  intros H. apply intOK_Some in H as [H _].
  destruct (fracOf s2) as [[fr s3]|] eqn:Ef; [|discriminate].
  destruct (expOf s3) as [[ex s4]|] eqn:Ee; [|discriminate].
  injection H as <- <-. rewrite !noSpace_app.
  now rewrite (signOf_noSpace _ _ _ Es), (spanDigits_noSpace _ _ _ Ei),
    (fracOf_noSpace _ _ _ Ef), (expOf_noSpace _ _ _ Ee).
Qed.

End Numbers.

(** ** Values: [JSON.parse] reads what [JSON.print] writes *)

Section Values.
#[local] Arguments String.append : simpl nomatch.

Lemma value_ind' (P : JSON.value -> Prop) :
  P JSON.Null -> (forall b, P (JSON.Bool b)) -> (forall lit, P (JSON.Number lit)) ->
  (forall s, P (JSON.Str s)) ->
  (forall l, Forall P l -> P (JSON.Array l)) ->
  (forall kv, Forall (fun p => P p.2) kv -> P (JSON.Object kv)) ->
  forall v, P v.
Proof.
  intros HN HB Hn HS HA HO. fix IH 1.
  intros [| b | lit | s | l | kv]; [exact HN|apply HB|apply Hn|apply HS| |].
  - apply HA. induction l as [|x l IHl]; constructor; [apply IH|exact IHl].
  - apply HO. induction kv as [|[k x] kv IHkv]; constructor; [apply IH|exact IHkv].
Qed.

Lemma substring_all s : String.substring 0 (String.length s) s = s.
Proof. induction s as [|c s IH]; [reflexivity|]. cbn. now rewrite IH. Qed.

Lemma valueHead_cases c :
  valueHead c = true ->
  In c ["0"; "1"; "2"; "3"; "4"; "5"; "6"; "7"; "8"; "9";
        "n"; "t"; "f"; JSON.dq; "["; "{"; "-"]%char.
Proof.
  unfold valueHead. intros H. apply orb_true_iff in H as [H|H].
  - apply digit_cases in H. each_char H; cbn [In]; auto 20.
  - cbn [existsb] in H.
    repeat (apply orb_true_iff in H as [H|H]; [apply Ascii.eqb_eq in H; subst c; cbn [In]; auto 20|]).
    discriminate.
Qed.

Lemma print_head v :
  readable v = true -> exists c t, JSON.print v = String c t /\ valueHead c = true.
Proof.
  destruct v as [| [] | lit | s | l | kv]; cbn [JSON.print readable]; intros H;
    try (eexists _, _; split; [reflexivity|reflexivity]).
  destruct lit as [|c r]; [discriminate|].
  destruct (JSON.parseNumber (String c r)) as [[l t]|] eqn:E; [|discriminate].
  apply parseNumber_head in E. exists c, r. split; [reflexivity|].
  unfold valueHead. destruct E as [->|E]; [reflexivity|]. now rewrite E.
Qed.

Lemma pv_array f r : JSON.parseValue (S f) (String "[" r) = arrayBody f r.
Proof. reflexivity. Qed.

Lemma pv_object f r : JSON.parseValue (S f) (String "{" r) = objectBody f r.
Proof. reflexivity. Qed.

Lemma arrayBody_head f c t :
  valueHead c = true -> arrayBody f (String c t) = JSON.parseElems f (String c t) [].
Proof.
  intros H. apply valueHead_cases in H. each_char H; reflexivity.
Qed.

Lemma objectBody_quote f t :
  objectBody f (String JSON.dq t) = JSON.parseMembers f (String JSON.dq t) [].
Proof. reflexivity. Qed.

Lemma pv_number f c r lit rest :
  valueHead c = true -> (c = "-"%char \/ JSON.isDigit c = true) ->
  JSON.parseNumber (String c r) = Some (lit, rest) ->
  JSON.parseValue (S f) (String c r) = Some (JSON.Number lit, rest).
Proof.
  intros _ Hc H. cbn [JSON.parseValue].
  assert (JSON.skipSpace (String c r) = String c r) as ->.
  { cbn [JSON.skipSpace]. destruct Hc as [->|Hc]; [reflexivity|].
    now rewrite (digit_noSpace c Hc). }
  assert (forall x, In x ["{"; "["; JSON.dq; "t"; "f"; "n"]%char -> Ascii.eqb c x = false) as Hx.
  { intros x Hx. destruct Hc as [->|Hc].
    - cbn in Hx. repeat destruct Hx as [<-|Hx]; try reflexivity. destruct Hx.
    - apply digit_cases in Hc. each_char Hc; each_char Hx; reflexivity. }
  rewrite !Hx by (cbn; tauto). now rewrite H.
Qed.

Lemma pv_string f r t rest :
  JSON.parseString (S (String.length r)) r = Some (t, rest) ->
  JSON.parseValue (S f) (String JSON.dq r) = Some (JSON.Str t, rest).
Proof.
  intros H. cbn [JSON.parseValue].
  change (JSON.skipSpace (String JSON.dq r)) with (String JSON.dq r). cbn iota.
  change (Ascii.eqb JSON.dq "{") with false. change (Ascii.eqb JSON.dq "[") with false.
  change (Ascii.eqb JSON.dq JSON.dq) with true. cbn iota. now rewrite H.
Qed.

Lemma literal_app lit v rest : JSON.literal lit v (lit +:+ rest) = Some (v, rest).
Proof.
  unfold JSON.literal.
  assert (String.prefix lit (lit +:+ rest) = true) as ->.
  { induction lit as [|c lit IH]; cbn; [now destruct rest|].
    destruct (ascii_dec c c); [exact IH|done]. }
  do 2 f_equal. induction lit as [|c lit IH]; cbn [String.length String.append].
  - rewrite Nat.sub_0_r. apply substring_all.
  - exact IH.
Qed.

Lemma pv_literal f (lit : string) v rest :
  (lit, v) ∈ [("null", JSON.Null); ("true", JSON.Bool true); ("false", JSON.Bool false)] ->
  JSON.parseValue (S f) (lit +:+ rest) = Some (v, rest).
Proof.
  intros H. rewrite <- (literal_app lit v rest).
  apply list_elem_of_In in H. cbn in H.
  destruct H as [[= <- <-]|[[= <- <-]|[[= <- <-]|[]]]]; reflexivity.
Qed.

Lemma pe_last f s acc v rest :
  JSON.parseValue f s = Some (v, String "]" rest) ->
  JSON.parseElems (S f) s acc = Some (JSON.Array (rev (v :: acc)), rest).
Proof. intros H. cbn [JSON.parseElems]. rewrite H. reflexivity. Qed.

Lemma pe_more f s acc v rest :
  JSON.parseValue f s = Some (v, String "," rest) ->
  JSON.parseElems (S f) s acc = JSON.parseElems f rest (v :: acc).
Proof. intros H. cbn [JSON.parseElems]. rewrite H. reflexivity. Qed.

Lemma pm_last f r acc k r1 v rest :
  JSON.parseString (S (String.length r)) r = Some (k, String ":" r1) ->
  JSON.parseValue f r1 = Some (v, String "}" rest) ->
  JSON.parseMembers (S f) (String JSON.dq r) acc
  = Some (JSON.Object (rev ((k, v) :: acc)), rest).
Proof.
  intros Hk Hv. cbn [JSON.parseMembers].
  change (JSON.skipSpace (String JSON.dq r)) with (String JSON.dq r). cbn iota.
  change (Ascii.eqb JSON.dq JSON.dq) with true. cbn iota.
  rewrite Hk. change (JSON.skipSpace (String ":" r1)) with (String ":" r1). cbn iota.
  rewrite Hv. reflexivity.
Qed.

Lemma pm_more f r acc k r1 v rest :
  JSON.parseString (S (String.length r)) r = Some (k, String ":" r1) ->
  JSON.parseValue f r1 = Some (v, String "," rest) ->
  JSON.parseMembers (S f) (String JSON.dq r) acc
  = JSON.parseMembers f rest ((k, v) :: acc).
Proof.
  intros Hk Hv. cbn [JSON.parseMembers].
  change (JSON.skipSpace (String JSON.dq r)) with (String JSON.dq r). cbn iota.
  change (Ascii.eqb JSON.dq JSON.dq) with true. cbn iota.
  rewrite Hk. change (JSON.skipSpace (String ":" r1)) with (String ":" r1). cbn iota.
  rewrite Hv. reflexivity.
Qed.

Lemma join_cons a b l : JSON.join (a :: b :: l) = a +:+ "," +:+ JSON.join (b :: l).
Proof. reflexivity. Qed.

Lemma parseElems_join l : forall acc f rest,
  l <> [] -> Forall readsBack l ->
  String.length (JSON.join (map JSON.print l)) + 1 < f ->
  JSON.parseElems f (JSON.join (map JSON.print l) +:+ String "]" rest) acc
  = Some (JSON.Array (rev acc ++ l), rest).
Proof.
  induction l as [|x l IH]; intros acc f rest Hne Hall Hf; [done|].
  apply Forall_cons in Hall as [Hx Hall]. destruct f as [|f]; [lia|].
  destruct l as [|y l].
  - cbn [map JSON.join] in *. rewrite (pe_last f _ acc x rest).
    + cbn [rev]. reflexivity.
    + apply Hx; [lia|]. cbn. auto.
  - cbn [map] in *. rewrite join_cons in *. rewrite !append_assoc. cbn [String.append].
    rewrite !length_append in Hf. cbn [String.length] in Hf.
    rewrite (pe_more f _ acc x
               (JSON.join (JSON.print y :: map JSON.print l) +:+ String "]" rest)).
    + rewrite (IH (x :: acc) f rest); [|done|exact Hall|lia].
      cbn [rev]. now rewrite <- app_assoc.
    + apply Hx; [lia|]. cbn. auto.
Qed.

Lemma member_app k v rest :
  member (k, v) +:+ rest
  = String JSON.dq (JSON.escape k +:+ String JSON.dq (String ":" (JSON.print v +:+ rest))).
Proof.
  unfold member, JSON.quote. cbn [fst snd String.append].
  now rewrite !append_assoc.
Qed.

Lemma length_member k v :
  String.length (member (k, v)) = String.length (JSON.escape k) + 3 + String.length (JSON.print v).
Proof.
  unfold member, JSON.quote. cbn [fst snd String.append String.length].
  rewrite !length_append. cbn [String.length]. lia.
Qed.

Lemma key_read k r :
  JSON.parseString (S (String.length (JSON.escape k +:+ String JSON.dq r)))
    (JSON.escape k +:+ String JSON.dq r) = Some (k, r).
Proof.
  apply (parseString_escape (String.length k)); [lia|].
  rewrite length_append. cbn [String.length]. lia.
Qed.

Lemma parseMembers_join kv : forall acc f rest,
  kv <> [] -> Forall (fun p => readsBack p.2) kv ->
  String.length (JSON.join (map member kv)) + 1 < f ->
  JSON.parseMembers f (JSON.join (map member kv) +:+ String "}" rest) acc
  = Some (JSON.Object (rev acc ++ kv), rest).
Proof.
  induction kv as [|[k x] kv IH]; intros acc f rest Hne Hall Hf; [done|].
  apply Forall_cons in Hall as [Hx Hall]. cbn [snd] in Hx. destruct f as [|f]; [lia|].
  destruct kv as [|y kv].
  - cbn [map JSON.join] in *. rewrite member_app. rewrite length_member in Hf.
    rewrite (pm_last f _ acc k _ x rest (key_read _ _)); [reflexivity|].
    apply Hx; [lia|]. cbn. auto.
  - cbn [map] in *. rewrite join_cons in *. rewrite !append_assoc, member_app.
    rewrite !length_append, length_member in Hf. cbn [String.length] in Hf.
    cbn [String.append].
    rewrite (pm_more f _ acc k _ x
               (JSON.join (member y :: map member kv) +:+ String "}" rest) (key_read _ _)).
    + rewrite (IH ((k, x) :: acc) f rest); [|done|exact Hall|lia].
      cbn [rev]. now rewrite <- app_assoc.
    + apply Hx; [lia|]. cbn. auto.
Qed.

Lemma readable_readsBack v : readable v = true -> readsBack v.
Proof.
  induction v as [| b | lit | s | l IH | kv IH] using value_ind'; intros Hr fuel rest Hf Hc;
    (destruct fuel as [|f]; [lia|]).
  - apply pv_literal. set_solver.
  - destruct b; apply pv_literal; set_solver.
  - change (JSON.print (JSON.Number lit)) with lit in *. cbn [readable] in Hr.
    destruct (JSON.parseNumber lit) as [[l [|]]|] eqn:E; try discriminate.
    apply String.eqb_eq in Hr. subst l.
    pose proof (parseNumber_app _ rest _ _ Hc E) as E'. cbn [String.append] in E'.
    destruct lit as [|c r]; [discriminate|].
    cbn [String.append] in *. apply pv_number; [|eapply parseNumber_head; exact E|exact E'].
    apply parseNumber_head in E. unfold valueHead. destruct E as [->|E]; [reflexivity|now rewrite E].
  - change (JSON.print (JSON.Str s)) with (JSON.quote s).
    unfold JSON.quote. cbn [String.append]. rewrite append_assoc.
    cbn [String.append]. apply pv_string, key_read.
  - change (JSON.print (JSON.Array l))
      with ("[" +:+ JSON.join (map JSON.print l) +:+ "]") in *.
    cbn [String.append]. rewrite pv_array.
    destruct l as [|x l]; [reflexivity|].
    assert (Hall : Forall readsBack (x :: l)).
    { cbn [readable] in Hr. apply Forall_forall. intros y Hy.
      apply (proj1 (Forall_forall _ _) IH y Hy).
      apply (proj1 (forallb_forall _ _) Hr). now apply list_elem_of_In. }
    rewrite append_assoc. cbn [String.append].
    destruct (print_head x) as (c & t & Hx & Hc').
    { cbn [readable forallb] in Hr. now apply andb_true_iff in Hr as [? _]. }
    assert (exists t', JSON.join (map JSON.print (x :: l)) +:+ String "]" rest = String c t')
      as [t' Ht'].
    { destruct l; cbn [map]; [cbn [JSON.join]|rewrite join_cons]; rewrite Hx;
        cbn [String.append]; eauto. }
    rewrite Ht', (arrayBody_head _ _ _ Hc'), <- Ht'.
    rewrite (parseElems_join (x :: l) [] f rest); [reflexivity|done|exact Hall|].
    cbn [String.length] in Hf. rewrite !length_append in Hf. cbn [String.length] in Hf. lia.
  - change (JSON.print (JSON.Object kv)) with ("{" +:+ JSON.join (map member kv) +:+ "}") in *.
    cbn [String.append]. rewrite pv_object.
    destruct kv as [|p kv]; [reflexivity|].
    assert (Hall : Forall (fun p => readsBack p.2) (p :: kv)).
    { cbn [readable] in Hr. apply Forall_forall. intros y Hy.
      apply (proj1 (Forall_forall _ _) IH y Hy).
      apply list_elem_of_In in Hy. apply (proj1 (forallb_forall _ _) Hr) in Hy.
      now apply andb_true_iff in Hy as [_ ?]. }
    rewrite append_assoc. cbn [String.append].
    assert (exists t', JSON.join (map member (p :: kv)) +:+ String "}" rest = String JSON.dq t')
      as [t' Ht'].
    { destruct p as [k x]. destruct kv; cbn [map]; [cbn [JSON.join]|rewrite join_cons];
        [|rewrite !append_assoc]; rewrite member_app; eauto. }
    rewrite Ht', objectBody_quote, <- Ht'.
    rewrite (parseMembers_join (p :: kv) [] f rest); [reflexivity|done|exact Hall|].
    cbn [String.length] in Hf. rewrite !length_append in Hf. cbn [String.length] in Hf. lia.
Qed.

Lemma parse_print v : readable v = true -> JSON.parse (JSON.print v) = JSON.OK v.
Proof.
  intros H. unfold JSON.parse.
  pose proof (readable_readsBack v H (2 * String.length (JSON.print v) + 2) EmptyString
                ltac:(lia) I) as E.
  rewrite append_empty in E. now rewrite E.
Qed.

Lemma dropRightSpace_noSpace s : noSpace s = true -> JSON.dropRightSpace s = s.
Proof.
  induction s as [|c r IH]; [reflexivity|]. cbn [noSpace JSON.dropRightSpace].
  intros H. apply andb_true_iff in H as [Hc Hr]. rewrite (IH Hr).
  destruct r; [|reflexivity]. now destruct (JSON.isSpace c).
Qed.

Lemma dropRightSpace_snoc s c :
  JSON.isSpace c = false ->
  JSON.dropRightSpace (s +:+ String c EmptyString) = s +:+ String c EmptyString.
Proof.
  intros Hc. induction s as [|a s IH]; cbn [String.append JSON.dropRightSpace].
  - now rewrite Hc.
  - rewrite IH. now destruct s.
Qed.

Lemma dropRightSpace_print v : readable v = true -> JSON.dropRightSpace (JSON.print v) = JSON.print v.
Proof.
  destruct v as [| [] | lit | s | l | kv]; intros H; try reflexivity.
  - change (JSON.print (JSON.Number lit)) with lit. cbn [readable] in H.
    destruct (JSON.parseNumber lit) as [[l [|]]|] eqn:E; try discriminate.
    apply String.eqb_eq in H. subst l.
    apply dropRightSpace_noSpace. exact (parseNumber_noSpace _ _ _ E).
  - change (JSON.print (JSON.Str s)) with (String JSON.dq (JSON.escape s) +:+ String JSON.dq EmptyString).
    now apply dropRightSpace_snoc.
  - change (JSON.print (JSON.Array l))
      with (String "[" (JSON.join (map JSON.print l)) +:+ String "]" EmptyString).
    now apply dropRightSpace_snoc.
  - change (JSON.print (JSON.Object kv))
      with (String "{" (JSON.join (map member kv)) +:+ String "}" EmptyString).
    now apply dropRightSpace_snoc.
Qed.

Lemma skipSpace_print v : readable v = true -> JSON.skipSpace (JSON.print v) = JSON.print v.
Proof.
  intros H. destruct (print_head v H) as (c & t & -> & Hc). cbn [JSON.skipSpace].
  assert (JSON.isSpace c = false) as ->; [|reflexivity].
  apply valueHead_cases in Hc. each_char Hc; reflexivity.
Qed.

Lemma UnmarshalRaw_print v :
  readable v = true -> JSON.UnmarshalRaw (JSON.print v) = JSON.OK (Some (JSON.print v)).
Proof.
  intros H. unfold JSON.UnmarshalRaw. rewrite (parse_print v H). cbn [JSON.bind].
  now rewrite (skipSpace_print v H), (dropRightSpace_print v H).
Qed.

Lemma Unmarshal_print {T} (dec : JSON.value -> T -> JSON.result T) v old :
  readable v = true -> JSON.Unmarshal dec (JSON.print v) old = dec v old.
Proof. intros H. unfold JSON.Unmarshal. now rewrite (parse_print v H). Qed.

End Values.

(** ** The decoders of the records *)

Section Decoders.
#[local] Arguments String.append : simpl nomatch.

Lemma Header_dec_value h old : Header.dec (Header.value h) old = JSON.OK h.
Proof. destruct h, old; reflexivity. Qed.

Lemma insertKey_after {T} k (v : T) l :
  forallb (fun q => before q.1 k) l = true -> JSON.insertKey k v l = l ++ [(k, v)].
Proof.
  induction l as [|[k' v'] l IH]; [reflexivity|]. cbn [forallb JSON.insertKey fst].
  intros H. apply andb_true_iff in H as [Hk Hl]. unfold before in Hk.
  rewrite String.compare_antisym. destruct (String.compare k' k); try discriminate.
  cbn. now rewrite IH.
Qed.

Lemma fold_insertKey {T} (g : T -> T) kv : forall acc,
  ascending kv = true -> Forall (fun p => g p.2 = p.2) kv ->
  Forall (fun q => forallb (fun p => before q.1 p.1) kv = true) acc ->
  fold_left (fun acc p => JSON.insertKey p.1 (g p.2) acc) kv acc = acc ++ kv.
Proof.
  induction kv as [|[k v] kv IH]; intros acc Ha Hg Hacc; [now rewrite app_nil_r|].
  cbn [ascending fst] in Ha. apply andb_true_iff in Ha as [Hk Ha].
  apply Forall_cons in Hg as [Hv Hg]. cbn [snd] in Hv.
  cbn [fold_left fst snd]. rewrite Hv, insertKey_after.
  - rewrite IH; [now rewrite <- app_assoc|exact Ha|exact Hg|].
    apply Forall_app. split.
    + eapply Forall_impl; [exact Hacc|]. cbn. intros q Hq.
      now apply andb_true_iff in Hq as [_ ?].
    + constructor; [exact Hk|constructor].
  - apply forallb_forall. intros q Hq. apply list_elem_of_In in Hq.
    apply (proj1 (Forall_forall _ _) Hacc) in Hq. cbn in Hq.
    now apply andb_true_iff in Hq as [? _].
Qed.

Lemma generic_canonical v : canonical v = true -> JSON.generic v = v.
Proof.
  induction v as [| b | lit | s | l IH | kv IH] using value_ind'; intros H; try reflexivity.
  - cbn [canonical] in H. change (JSON.generic (JSON.Array l)) with (JSON.Array (map JSON.generic l)).
    f_equal. induction l as [|x l IHl]; [reflexivity|].
    cbn [forallb] in H. apply andb_true_iff in H as [Hx Hl].
    apply Forall_cons in IH as [IHx IH]. cbn [map]. f_equal; auto.
  - cbn [canonical] in H. apply andb_true_iff in H as [Ha Hc].
    change (JSON.generic (JSON.Object kv))
      with (JSON.Object (fold_left (fun acc p => JSON.insertKey p.1 (JSON.generic p.2) acc) kv [])).
    f_equal. rewrite fold_insertKey; [reflexivity|exact Ha| |constructor].
    apply Forall_forall. intros p Hp. apply (proj1 (Forall_forall _ _) IH p Hp).
    apply list_elem_of_In in Hp. exact (proj1 (forallb_forall _ _) Hc p Hp).
Qed.

Lemma decMap_any kv : forall a,
  fold_left
    (fun acc p =>
       JSON.bind acc (fun m =>
         JSON.bind (JSON.decAny p.2 JSON.Null) (fun x => JSON.OK (JSON.insertKey p.1 x m))))
    kv (JSON.OK a)
  = JSON.OK (fold_left (fun acc p => JSON.insertKey p.1 (JSON.generic p.2) acc) kv a).
Proof. induction kv as [|p kv IH]; intros a; [reflexivity|]. cbn. apply IH. Qed.

Lemma anymap_dec_value m :
  canonical (anymap_value m) = true -> anymap_dec (anymap_value m) None = JSON.OK m.
Proof.
  destruct m as [kv|]; [|reflexivity]. intros H.
  apply generic_canonical in H. cbn [anymap_value] in *.
  unfold anymap_dec, JSON.decMap. rewrite decMap_any. cbn [JSON.bind default].
  change (JSON.generic (JSON.Object kv))
    with (JSON.Object (fold_left (fun acc p => JSON.insertKey p.1 (JSON.generic p.2) acc) kv []))
    in H.
  injection H as ->. reflexivity.
Qed.




Lemma readable_request r :
  asciiText (ExecutionRequest.Code r) = true ->
  match ExecutionRequest.UserExpressions r with
  | Some kv => forallb (fun p => asciiText p.1 && asciiText p.2) kv = true
  | None => True
  end ->
  readable (ExecutionRequest.value r) = true.
Proof.
  intros Hc Hu. cbn [readable ExecutionRequest.value forallb fst snd]. rewrite Hc.
  cbn [andb]. rewrite !andb_true_r.
  destruct (ExecutionRequest.UserExpressions r) as [kv|]; [|reflexivity].
  cbn [readable]. induction kv as [|[k v] kv IH]; [reflexivity|].
  cbn [map forallb fst snd readable] in *. apply andb_true_iff in Hu as [H1 H2].
  rewrite H1. exact (IH H2).
Qed.

(** What the content frame holds when the message could be encoded. *)
Lemma contentFrame_readable c :
  readableContent c = true ->
  (forall e, any_marshal c <> Some (JSON.Error e)) ->
  contentFrame c = None
  \/ exists v, contentFrame c = Some (JSON.print v) /\ readable v = true.
Proof.
  unfold contentFrame. destruct c as [|v|[r|]|r|]; cbn [readableContent any_marshal]; intros H N.
  - now left.
  - right. eauto.
  - right. eauto.
  - right. exists JSON.Null. split; reflexivity.
  - right. eauto.
  - now destruct (N JSON.UnsupportedTypeError).
Qed.

Lemma unmarshal_step {T} parts start j (v : target T) rest s data s' :
  at_ parts (start + j) = Ok (Some data) -> v data s = JSON.OK s' ->
  unmarshalPartsFrom parts start j (v :: rest) s = unmarshalPartsFrom parts start (S j) rest s'.
Proof.
  intros Hl Hv. cbn [unmarshalPartsFrom]. rewrite Hl.
  cbn [mbind outcome_bind]. rewrite Hv. reflexivity.
Qed.

Lemma unmarshal_skip {T} parts start j (v : target T) rest s :
  at_ parts (start + j) = Ok None ->
  unmarshalPartsFrom parts start j (v :: rest) s = unmarshalPartsFrom parts start (S j) rest s.
Proof.
  intros Hl. cbn [unmarshalPartsFrom]. rewrite Hl. reflexivity.
Qed.

Lemma pHeader_print h m :
  readable (Header.value h) = true ->
  RawMessage.pHeader (JSON.print (Header.value h)) m
  = JSON.OK {| RawMessage.Header := h; RawMessage.ParentHeader := RawMessage.ParentHeader m;
               RawMessage.Metadata := RawMessage.Metadata m;
               RawMessage.Content := RawMessage.Content m |}.
Proof.
  intros H. unfold RawMessage.pHeader. now rewrite (Unmarshal_print _ _ _ H), Header_dec_value.
Qed.

Lemma pParentHeader_print h m :
  readable (Header.value h) = true ->
  RawMessage.pParentHeader (JSON.print (Header.value h)) m
  = JSON.OK {| RawMessage.Header := RawMessage.Header m; RawMessage.ParentHeader := h;
               RawMessage.Metadata := RawMessage.Metadata m;
               RawMessage.Content := RawMessage.Content m |}.
Proof.
  intros H. unfold RawMessage.pParentHeader.
  now rewrite (Unmarshal_print _ _ _ H), Header_dec_value.
Qed.

Lemma pMetadata_print x m :
  readable (anymap_value x) = true -> canonical (anymap_value x) = true ->
  RawMessage.Metadata m = None ->
  RawMessage.pMetadata (JSON.print (anymap_value x)) m
  = JSON.OK {| RawMessage.Header := RawMessage.Header m;
               RawMessage.ParentHeader := RawMessage.ParentHeader m;
               RawMessage.Metadata := x; RawMessage.Content := RawMessage.Content m |}.
Proof.
  intros H Hc H0. unfold RawMessage.pMetadata.
  now rewrite (Unmarshal_print _ _ _ H), H0, (anymap_dec_value _ Hc).
Qed.

Lemma pContent_print v m :
  readable v = true ->
  RawMessage.pContent (JSON.print v) m
  = JSON.OK {| RawMessage.Header := RawMessage.Header m;
               RawMessage.ParentHeader := RawMessage.ParentHeader m;
               RawMessage.Metadata := RawMessage.Metadata m;
               RawMessage.Content := Some (JSON.print v) |}.
Proof. intros H. unfold RawMessage.pContent. now rewrite (UnmarshalRaw_print _ H). Qed.

Lemma findIndex_delimiter rest spare_ :
  findIndex (Frames (Some delimiter :: rest) spare_) delimiter = Ok 0.
Proof. unfold findIndex. cbn [elems findIndexFrom slice_bytes]. now rewrite String.eqb_refl. Qed.

Lemma decode_records msg sig spare_ key h p m :
  readable (Header.value h) = true -> readable (Header.value p) = true ->
  readable (anymap_value m) = true -> canonical (anymap_value m) = true ->
  forall c, (c = None \/ exists v, c = Some (JSON.print v) /\ readable v = true) ->
  validateSignature
    (Frames ([Some delimiter; sig]
             ++ [Some (JSON.print (Header.value h)); Some (JSON.print (Header.value p));
                 Some (JSON.print (anymap_value m)); c] ++ [None]) spare_) 0 key = Ok tt ->
  RawMessage.Metadata msg = None -> RawMessage.Content msg = None ->
  RawMessage.Decode msg
    (Frames ([Some delimiter; sig]
             ++ [Some (JSON.print (Header.value h)); Some (JSON.print (Header.value p));
                 Some (JSON.print (anymap_value m)); c] ++ [None]) spare_) key
  = Ok {| RawMessage.Header := h; RawMessage.ParentHeader := p;
          RawMessage.Metadata := m; RawMessage.Content := c |}.
Proof.
  intros Hh Hp Hm Hc c Hcf Hsig Hm0 Hc0. cbn [app] in Hsig |- *.
  rewrite (Decode_found _ _ _ 0 (findIndex_delimiter _ _)), Hsig.
  cbn [mbind outcome_bind Nat.add].
  match goal with |- unmarshalPartsFrom ?f _ _ _ _ = _ => set (parts := f) end.
  rewrite (unmarshal_step parts 2 0 _ _ msg (JSON.print (Header.value h)) _
             eq_refl (pHeader_print h msg Hh)).
  rewrite (unmarshal_step parts 2 1 _ _ _ (JSON.print (Header.value p)) _
             eq_refl (pParentHeader_print p _ Hp)).
  cbn [RawMessage.Header RawMessage.ParentHeader RawMessage.Metadata RawMessage.Content].
  rewrite (unmarshal_step parts 2 2 _ _ _ (JSON.print (anymap_value m)) _
             eq_refl
             (pMetadata_print m
                {| RawMessage.Header := h; RawMessage.ParentHeader := p;
                   RawMessage.Metadata := RawMessage.Metadata msg;
                   RawMessage.Content := RawMessage.Content msg |} Hm Hc Hm0)).
  cbn [RawMessage.Header RawMessage.ParentHeader RawMessage.Metadata RawMessage.Content].
  destruct Hcf as [->|(v & -> & Hv)].
  - rewrite (unmarshal_skip parts 2 3 _ _ _ eq_refl). cbn [unmarshalPartsFrom].
    now rewrite Hc0.
  - rewrite (unmarshal_step parts 2 3 _ _ _ (JSON.print v) _ eq_refl (pContent_print v _ Hv)).
    reflexivity.
Qed.

End Decoders.

(** ** Encode, then Decode *)

Section RoundTrip.
#[local] Arguments String.append : simpl nomatch.

Lemma wire_marshal client msg frames :
  wire client msg = Ok frames -> forall e, any_marshal (Message.Content msg) <> Some (JSON.Error e).
Proof.
  unfold wire. rewrite Encode_eq. intros H e E. rewrite E in H. discriminate.
Qed.

Lemma wire_accepted client msg spare_ :
  validateSignature
    (Frames ([Some delimiter; signatureFrame msg (signKey client)] ++ recordFrames msg ++ [None])
       spare_) 0 (signKey client) = Ok tt.
Proof.
  destruct (signKey client) as [k|]; [|reflexivity].
  apply (validateSignature_signed k (recordFrames msg) [None] spare_). reflexivity.
Qed.

Lemma wire_decoded client msg frames spare_ :
  wire client msg = Ok frames -> sendable msg = true ->
  RawMessage.Decode RawMessage.zero (Frames frames spare_) (signKey client)
  = Ok (rawOfMessage msg).
Proof.
  intros H Hs. pose proof (wire_marshal _ _ _ H) as Hm. apply wire_Ok in H as ->.
  unfold sendable in Hs.
  apply andb_true_iff in Hs as [Hs Hc]. apply andb_true_iff in Hs as [Hs Hk].
  apply andb_true_iff in Hs as [Hs Hr]. apply andb_true_iff in Hs as [Hh Hp].
  unfold recordFrames, rawOfMessage.
  exact (decode_records RawMessage.zero _ spare_ _ _ _ _ Hh Hp Hr Hk _
           (contentFrame_readable _ Hc Hm) (wire_accepted client msg spare_)
           eq_refl eq_refl).
Qed.

Lemma sendable_created client w msgType c :
  asciiText (uuid w) = true -> asciiText (now w) = true ->
  asciiText (session client) = true -> asciiText msgType = true ->
  readableContent c = true ->
  sendable (createMessage client w msgType c) = true.
Proof.
  intros Hu Hn Hs Ht Hc. unfold sendable, createMessage, createHeader.
  cbn [Message.Header Message.ParentHeader Message.Metadata Message.Content].
  rewrite Hc. cbn [readable Header.value forallb fst snd Header.MsgID Header.Username
    Header.Session Header.Date Header.MsgType Header.Version].
  rewrite Hu, Hn, Hs, Ht. reflexivity.
Qed.

Lemma wire_created client w msgType req :
  wire client (createMessage client w msgType (CExecutionRequest req))
  = Ok ([Some delimiter;
         signatureFrame (createMessage client w msgType (CExecutionRequest req)) (signKey client)]
        ++ recordFrames (createMessage client w msgType (CExecutionRequest req)) ++ [None]).
Proof. unfold wire. rewrite Encode_eq. now destruct req. Qed.




(** X22.  What Execute sends.  For every request, nil or not, whose
    strings are ASCII (as are the identifier, the date and the session),
    encoding the message of Execute never fails, and the frames handed to
    the socket decode under the client's key to the header [createHeader]
    made (type [execute_request], user [go-jupyter], the version of the
    protocol), an empty parent header, an empty metadata map, and the JSON
    text of the request, [null] for a nil request. *)
Theorem Execute_request_reads_back client w req :
  asciiText (uuid w) = true -> asciiText (now w) = true ->
  asciiText (session client) = true ->
  readableContent (CExecutionRequest req) = true ->
  exists frames,
    wire client (createMessage client w RequestExecute (CExecutionRequest req)) = Ok frames
    /\ forall spare_,
         RawMessage.Decode RawMessage.zero (Frames frames spare_) (signKey client)
         = Ok {| RawMessage.Header := createHeader client w RequestExecute;
                 RawMessage.ParentHeader := Header.zero;
                 RawMessage.Metadata := Some [];
                 RawMessage.Content :=
                   Some match req with
                        | Some r => JSON.print (ExecutionRequest.value r)
                        | None => "null"
                        end |}.
Proof.
  intros Hu Hn Hs Hc. eexists. split; [apply wire_created|]. intros spare_.
  rewrite (wire_decoded client _ _ spare_ (wire_created client w RequestExecute req)
             (sendable_created client w RequestExecute _ Hu Hn Hs eq_refl Hc)).
  now destruct req.
Qed.

Lemma Execute_request_reads_back_witness :
  asciiText (uuid Fixtures.muteShell) = true
  /\ asciiText (now Fixtures.muteShell) = true
  /\ readableContent (CExecutionRequest (Some Fixtures.execRequest)) = true
  /\ exists frames,
       wire (Fixtures.client0 (Some "secret"))
         (createMessage (Fixtures.client0 (Some "secret")) Fixtures.muteShell RequestExecute
            (CExecutionRequest (Some Fixtures.execRequest))) = Ok frames
       /\ forall spare_,
            RawMessage.Decode RawMessage.zero (Frames frames spare_) (Some "secret")
            = Ok {| RawMessage.Header := Fixtures.execHeader;
                    RawMessage.ParentHeader := Header.zero;
                    RawMessage.Metadata := Some [];
                    RawMessage.Content :=
                      Some (JSON.print (ExecutionRequest.value Fixtures.execRequest)) |}.
Proof.
  split; [reflexivity|]. split; [reflexivity|]. split; [reflexivity|].
  exact (Execute_request_reads_back (Fixtures.client0 (Some "secret")) Fixtures.muteShell
           (Some Fixtures.execRequest) eq_refl eq_refl eq_refl eq_refl).
Defined.





End RoundTrip.

(** ** Integers: the decimal text of an [int] *)

Section Integers.
#[local] Arguments String.append : simpl nomatch.












End Integers.

(** ** The reply of Execute *)

Section Replies.
#[local] Arguments String.append : simpl nomatch.










(** X26.  The errors of Execute.  Encoding the request never fails.  An
    error Execute returns is the wrapped error of [shell.SendMulti], the
    error of [shell.Recv], or an error of decoding the reply: the delimiter
    not found, the signature refused (only with a key), or an error of
    [json.Unmarshal]. *)
Theorem Execute_errors client w req client' ch e :
  Execute client w req = (client', ch, Err e) ->
  (exists s frames, e = ErrSendingShell s /\ SendMulti w frames = Some s)
  \/ (exists s, e = ErrTransport s /\ Recv w = RecvErr s)
  \/ (exists body,
        Recv w = RecvMsg body
        /\ (e = ErrTargetNotFound
            \/ (e = ErrInvalidSignature /\ is_Some (signKey client))
            \/ exists je, e = ErrJSON je)).
Proof.
  unfold Execute. destruct (addIOChannel client _) as [client1 ch1] eqn:Ea.
  assert (Hk : signKey client1 = signKey client).
  { unfold addIOChannel in Ea. now injection Ea as <- _. }
  intros [= <- <- H]. unfold request, sendRequest in H.
  destruct (wire client1 _) as [frames|e0|p] eqn:Ew.
  2,3: unfold wire in Ew; rewrite Encode_eq in Ew; destruct req; discriminate.
  cbn [mbind outcome_bind] in H.
  destruct (SendMulti w frames) as [s|] eqn:Es; cbn [mbind outcome_bind] in H.
  { injection H as <-. left. eauto. }
  right. unfold recvReply in H. destruct (Recv w) as [s|body] eqn:Er.
  { cbn [mbind outcome_bind] in H. injection H as <-. left. eauto. }
  right. exists body. split; [reflexivity|].
  unfold Message.Decode in H.
  destruct (RawMessage.Decode RawMessage.zero body (signKey client1)) as [raw|e1|p] eqn:Ed;
    cbn [mbind outcome_bind] in H; [|injection H as <-|discriminate].
  - destruct (JSON.Unmarshal any_dec _ _) as [c|je]; cbn [ofJSON mbind outcome_bind] in H.
    + now destruct c.
    + injection H as <-. right. right. eauto.
  - rewrite <- Hk. exact (Decode_err _ _ _ _ Ed).
Qed.

Lemma Execute_errors_witness :
  Execute (Fixtures.client0 None) Fixtures.muteShell None
    = (Fixtures.client1 None, 0, Err (ErrTransport "EOF"))
  /\ ((exists s frames,
         ErrTransport "EOF" = ErrSendingShell s /\ SendMulti Fixtures.muteShell frames = Some s)
      \/ (exists s, ErrTransport "EOF" = ErrTransport s /\ Recv Fixtures.muteShell = RecvErr s)
      \/ (exists body,
            Recv Fixtures.muteShell = RecvMsg body
            /\ (ErrTransport "EOF" = ErrTargetNotFound
                \/ (ErrTransport "EOF" = ErrInvalidSignature
                    /\ is_Some (signKey (Fixtures.client0 None)))
                \/ exists je, ErrTransport "EOF" = ErrJSON je))).
Proof.
  assert (H : Execute (Fixtures.client0 None) Fixtures.muteShell None
              = (Fixtures.client1 None, 0, Err (ErrTransport "EOF")))
    by (vm_compute; reflexivity).
  split; [exact H|]. exact (Execute_errors _ _ _ _ _ _ H).
Defined.

End Replies.

(** ** Broadcast messages, from the frames to the channel *)

Section Broadcast.
#[local] Arguments String.append : simpl nomatch.




End Broadcast.

(** ** HistoryItem *)

Section History.
#[local] Arguments String.append : simpl nomatch.






End History.
